(** * blissful_tuner: latent preview pipeline and wildcard lookup

    A shallow embedding of [blissful_tuner/latent_preview.py] (class
    [LatentPreviewer]) and of [blissful_tuner/prompt_management.py]
    ([rescale_text_encoders_hunyuan], [wildcard_replace],
    [process_wildcards], [MiniT5Wrapper]).

    Conventions of the embedding.
    - Tensors are nested lists, outermost axis first; a tensor's shape is read
      off the nesting.  Tensor elements are real numbers: the development
      reasons about the exact-arithmetic reading of the floating-point code.
    - Strings are sequences of characters with code points below 256.
    - Python exceptions are values of [Py.exn]; a computation that may raise
      has type [Py.result].
    - File-system and PyAV effects are recorded as an event log that is
      threaded through the calls. *)

From Stdlib Require Import Reals Lra Lia String Ascii ZArith Bool List.
Import ListNotations.

(** ** Python results and exceptions *)

Module Py.

Inductive exn : Type :=
| ValueError (msg : string)
| IndexError
| RuntimeError (msg : string)
| FileNotFoundError (path : string)
| AVError (msg : string).

Inductive result (A : Type) : Type :=
| Ok (a : A)
| Raise (e : exn).

Arguments Ok {A} a.
Arguments Raise {A} e.

Definition bind {A B : Type} (m : result A) (k : A -> result B) : result B :=
  match m with
  | Ok a => k a
  | Raise e => Raise e
  end.

Definition is_ok {A : Type} (m : result A) : bool :=
  match m with Ok _ => true | Raise _ => false end.

Fixpoint mapM {A B : Type} (f : A -> result B) (l : list A) : result (list B) :=
  match l with
  | [] => Ok []
  | x :: l' =>
      bind (f x) (fun y => bind (mapM f l') (fun ys => Ok (y :: ys)))
  end.

(** [seq[i]] for a Python integer [i]: negative indices count from the end,
    anything outside [-len, len) raises [IndexError]. *)
Definition getitem {A : Type} (l : list A) (i : Z) : result A :=
  let n := Z.of_nat (length l) in
  let j := if (i <? 0)%Z then (i + n)%Z else i in
  if ((0 <=? j) && (j <? n))%Z
  then match nth_error l (Z.to_nat j) with
       | Some x => Ok x
       | None => Raise IndexError
       end
  else Raise IndexError.

End Py.

Import Py.

Declare Scope py_scope.
Delimit Scope py_scope with py.
Notation "x <- m ;; k" := (Py.bind m (fun x => k))
  (at level 61, m at next level, right associativity) : py_scope.
Open Scope py_scope.

(** ** The part of torch the previewer uses *)

Module Torch.

Open Scope R_scope.

Definition tensor1 : Type := list R.
Definition tensor2 : Type := list tensor1.
Definition tensor3 : Type := list tensor2.
Definition tensor4 : Type := list tensor3.
Definition tensor5 : Type := list tensor4.

Definition flatten2 (t : tensor2) : list R := concat t.
Definition flatten3 (t : tensor3) : list R := concat (map flatten2 t).
Definition flatten4 (t : tensor4) : list R := concat (map flatten3 t).
Definition flatten5 (t : tensor5) : list R := concat (map flatten4 t).

Definition map2d (f : R -> R) (t : tensor2) : tensor2 := map (map f) t.
Definition map3d (f : R -> R) (t : tensor3) : tensor3 := map (map2d f) t.
Definition map4d (f : R -> R) (t : tensor4) : tensor4 := map (map3d f) t.
Definition map5d (f : R -> R) (t : tensor5) : tensor5 := map (map4d f) t.

(** Shapes, read off the first element along each axis. *)
Definition shape1 (t : tensor1) : list nat := [length t].
Definition shape2 (t : tensor2) : list nat := length t :: shape1 (hd [] t).
Definition shape3 (t : tensor3) : list nat := length t :: shape2 (hd [] t).
Definition shape4 (t : tensor4) : list nat := length t :: shape3 (hd [] t).
Definition shape5 (t : tensor5) : list nat := length t :: shape4 (hd [] t).

(** A tensor filled with one value. *)
Definition full4 (f c h w : nat) (v : R) : tensor4 :=
  repeat (repeat (repeat (repeat v w) h) c) f.
Definition full5 (b c f h w : nat) (v : R) : tensor5 :=
  repeat (full4 c f h w v) b.

(** Reductions over all elements. *)
Definition sum (xs : list R) : R := fold_right Rplus 0 xs.

Definition mean (xs : list R) : R := sum xs / INR (length xs).

Definition sqdev (m : R) (xs : list R) : list R :=
  map (fun x => (x - m) * (x - m)) xs.

(** [Tensor.std()] with its default Bessel correction.  For fewer than two
    elements torch yields NaN, which has no counterpart here: the theorems
    about [std] assume at least two elements. *)
Definition std (xs : list R) : R :=
  sqrt (sum (sqdev (mean xs) xs) / (INR (length xs) - 1)).

Definition list_min (x : R) (xs : list R) : R := fold_right Rmin x xs.
Definition list_max (x : R) (xs : list R) : R := fold_right Rmax x xs.

Definition empty_reduction : exn :=
  RuntimeError "Expected reduction dim to be specified for input.numel() == 0".

(** [Tensor.min()] and [Tensor.max()]: both raise on an empty tensor. *)
Definition tmin (xs : list R) : result R :=
  match xs with
  | [] => Raise empty_reduction
  | x :: xs' => Ok (list_min x xs')
  end.

Definition tmax (xs : list R) : result R :=
  match xs with
  | [] => Raise empty_reduction
  | x :: xs' => Ok (list_max x xs')
  end.

(** Element-wise binary operations on tensors of equal rank.  Along each axis
    the sizes must agree or one of them must be 1 (broadcasting). *)
Definition size_mismatch : exn :=
  RuntimeError "The size of tensor a must match the size of tensor b".

Fixpoint zipM {A B C : Type} (f : A -> B -> result C)
  (a : list A) (b : list B) : result (list C) :=
  match a, b with
  | [], [] => Ok []
  | x :: a', y :: b' =>
      z <- f x y ;; zs <- zipM f a' b' ;; Ok (z :: zs)
  | _, _ => Raise size_mismatch
  end.

Definition broadcast {A B C : Type} (f : A -> B -> result C)
  (a : list A) (b : list B) : result (list C) :=
  if Nat.eqb (length a) (length b) then zipM f a b
  else match a, b with
       | [x], _ => mapM (fun y => f x y) b
       | _, [y] => mapM (fun x => f x y) a
       | _, _ => Raise size_mismatch
       end.

Definition sub0 (x y : R) : result R := Ok (x - y).
Definition sub1 : tensor1 -> tensor1 -> result tensor1 := broadcast sub0.
Definition sub2 : tensor2 -> tensor2 -> result tensor2 := broadcast sub1.
Definition sub3 : tensor3 -> tensor3 -> result tensor3 := broadcast sub2.
Definition sub4 : tensor4 -> tensor4 -> result tensor4 := broadcast sub3.
Definition sub5 : tensor5 -> tensor5 -> result tensor5 := broadcast sub4.

(** Swapping the two outermost axes of a nested list. *)
Fixpoint zipcons {A : Type} (r : list A) (cols : list (list A)) : list (list A) :=
  match r, cols with
  | x :: r', c :: cols' => (x :: c) :: zipcons r' cols'
  | _, _ => []
  end.

Fixpoint transpose {A : Type} (l : list (list A)) : list (list A) :=
  match l with
  | [] => []
  | [r] => map (fun x => [x]) r
  | r :: rs => zipcons r (transpose rs)
  end.

(** [t.permute(1, 2, 0)] on a 3-D array. *)
Definition permute120 {A : Type} (t : list (list (list A))) : list (list (list A)) :=
  map (@transpose A) (transpose t).

(** [t.permute(2, 0, 1)] on a 3-D array, the inverse of [permute120]. *)
Definition permute201 {A : Type} (t : list (list (list A))) : list (list (list A)) :=
  transpose (map (@transpose A) t).

(** [t.permute(0, 3, 1, 2)] on a 4-D tensor. *)
Definition permute0312 (t : tensor4) : tensor4 := map (@permute201 R) t.

(** [t.permute(0, 2, 1, 3, 4)] on a 5-D tensor. *)
Definition permute02134 (t : tensor5) : tensor5 := map (@transpose tensor2) t.

Definition dot (x w : list R) : R := sum (map (fun p => fst p * snd p) (combine x w)).

(** [torch.nn.functional.linear] on one feature vector: [weight] has one row
    per output feature, and the feature counts must agree. *)
Definition linear1 (weight : list (list R)) (bias : list R) (x : list R)
  : result (list R) :=
  if forallb (fun w => Nat.eqb (length w) (length x)) weight
  then Ok (map (fun wb => dot x (fst wb) + snd wb) (combine weight bias))
  else Raise (RuntimeError "mat1 and mat2 shapes cannot be multiplied").

(** [linear] over a tensor laid out as (H, W, C). *)
Definition linear (weight : list (list R)) (bias : list R) (t : tensor3)
  : result tensor3 :=
  mapM (mapM (linear1 weight bias)) t.

(** Bicubic up-sampling, [F.interpolate(..., mode="bicubic",
    align_corners=False)], for an integer scale factor.  The source coordinate
    of output index [o] is [(o + 1/2) / scale - 1/2]; its integer part selects
    four neighbouring samples (indices clamped to the input), its fractional
    part the cubic-convolution weights with A = -3/4. *)
Definition cubic_A : R := -0.75.

Definition cubic_convolution1 (x : R) : R :=
  ((cubic_A + 2) * x - (cubic_A + 3)) * x * x + 1.

Definition cubic_convolution2 (x : R) : R :=
  ((cubic_A * x - 5 * cubic_A) * x + 8 * cubic_A) * x - 4 * cubic_A.

Definition cubic_coefficients (t : R) : list R :=
  [ cubic_convolution2 (t + 1); cubic_convolution1 t;
    cubic_convolution1 (1 - t); cubic_convolution2 (2 - t) ].

Definition clamp_index (n : nat) (i : Z) : nat :=
  Z.to_nat (Z.max 0 (Z.min i (Z.of_nat n - 1))).

Definition upsample_at (xs : list R) (scale : nat) (o : nat) : R :=
  let num := (2 * Z.of_nat o + 1 - Z.of_nat scale)%Z in
  let den := (2 * Z.of_nat scale)%Z in
  let i := (num / den)%Z in
  let t := IZR (num mod den) / IZR den in
  dot (cubic_coefficients t)
      (map (fun k => nth (clamp_index (length xs) (i - 1 + k)) xs 0)
           [0; 1; 2; 3]%Z).

Definition upsample1d (scale : nat) (xs : list R) : list R :=
  map (upsample_at xs scale) (seq 0 (length xs * scale)).

(** Interpolation is separable: along the width of every row, then along the
    height of every column. *)
Definition upsample2d (scale : nat) (img : tensor2) : tensor2 :=
  transpose (map (upsample1d scale) (transpose (map (upsample1d scale) img))).

Definition interpolate_bicubic (scale : nat) (t : tensor4) : tensor4 :=
  map (map (upsample2d scale)) t.

(** [Tensor.clamp(0, 1)] on one element. *)
Definition clamp01 (x : R) : R := Rmax 0 (Rmin x 1).

(** [clamp(0, 1).mul(255).byte()]: the value truncated to an 8-bit integer. *)
Definition to_byte (x : R) : Z := Int_part (clamp01 x * 255).

Inductive dtype : Type :=
| float64 | float32 | float16 | bfloat16
| float8_e4m3fn | float8_e5m2 | float8_e4m3fnuz | float8_e5m2fnuz
| uint8 | int8 | int16 | int32 | int64 | bool_.

Definition dtype_eqb (a b : dtype) : bool :=
  match a, b with
  | float64, float64 | float32, float32 | float16, float16
  | bfloat16, bfloat16 | float8_e4m3fn, float8_e4m3fn
  | float8_e5m2, float8_e5m2 | float8_e4m3fnuz, float8_e4m3fnuz
  | float8_e5m2fnuz, float8_e5m2fnuz | uint8, uint8 | int8, int8
  | int16, int16 | int32, int32 | int64, int64 | bool_, bool_ => true
  | _, _ => false
  end.

(** The floating-point formats that occupy eight bits. *)
Definition is_float8 (d : dtype) : bool :=
  match d with
  | float8_e4m3fn | float8_e5m2 | float8_e4m3fnuz | float8_e5m2fnuz => true
  | _ => false
  end.

End Torch.

(** ** The part of [str] the code uses *)

Module PyStr.

Open Scope string_scope.

(** [s.replace(old, new)] for a non-empty [old]: occurrences are found from
    left to right and do not overlap.  [skip] counts the characters of a
    match that remain to be dropped. *)
Fixpoint replace_from (old new : string) (skip : nat) (s : string) : string :=
  match s with
  | EmptyString => EmptyString
  | String c s' =>
      match skip with
      | S k => replace_from old new k s'
      | O =>
          if prefix old s
          then new ++ replace_from old new (String.length old - 1) s'
          else String c (replace_from old new 0 s')
      end
  end.

Definition replace (old new s : string) : string := replace_from old new 0 s.

Definition startswith (s p : string) : bool := prefix p s.

Fixpoint rev_string (s : string) : string :=
  match s with
  | EmptyString => EmptyString
  | String c s' => rev_string s' ++ String c EmptyString
  end.

Definition endswith (s p : string) : bool := prefix (rev_string p) (rev_string s).

End PyStr.

(** ** [blissful_tuner/latent_preview.py] *)

Module LatentPreview.

Import Torch.
Open Scope R_scope.

(** *** Files and the PyAV container *)

(** An 8-bit RGB picture laid out as (H, W, 3). *)
Definition image8 : Type := list (list (list Z)).

(** An encoded packet, as handed from the stream to the container. *)
Definition packet : Type := list Z.

Inductive event : Type :=
| ImageSave (path : string) (img : image8)
| AvOpen (path : string)
| AddStream (codec : string) (rate : Z)
| SetFormat (pix_fmt : string) (width height : nat)
| EncodeFrame (img : image8)
| EncodeFlush
| Mux (p : packet)
| AvClose.

(** The libx264 stream and the muxer are PyAV's: the stream carries a state
    of its own, buffers frames as it likes, and both calls may raise. *)
Record Stream : Type := {
  st : Type;
  st_init : st;
  st_encode : st -> option image8 -> result (list packet * st);
  st_mux : packet -> result unit
}.

(** Computations that append to the event log and may raise.  What was
    logged before an exception stays logged. *)
Definition io (A : Type) : Type := list event -> result A * list event.

Definition ret {A : Type} (a : A) : io A := fun log => (Ok a, log).

Definition bind_io {A B : Type} (m : io A) (k : A -> io B) : io B :=
  fun log =>
    match m log with
    | (Ok a, log') => k a log'
    | (Raise e, log') => (Raise e, log')
    end.

Definition emit (e : event) : io unit := fun log => (Ok tt, log ++ [e]).

Definition lift {A : Type} (r : result A) : io A := fun log => (r, log).

Notation "x <~ m ;; k" := (bind_io m (fun x => k))
  (at level 61, m at next level, right associativity).
Notation "m ;;; k" := (bind_io m (fun _ => k))
  (at level 61, right associativity).

Fixpoint for_each {A : Type} (f : A -> io unit) (l : list A) : io unit :=
  match l with
  | [] => ret tt
  | x :: l' => f x ;;; for_each f l'
  end.

Fixpoint fold_io {A S : Type} (f : S -> A -> io S) (s : S) (l : list A) : io S :=
  match l with
  | [] => ret s
  | x :: l' => s' <~ f s x ;; fold_io f s' l'
  end.

(** The life cycle of the output container, read off the event log. *)
Inductive container_state : Type :=
| NotOpened
| Open
| Encoding (submitted : nat)
| Flushing
| Closed.

Definition container_step (s : container_state) (e : event) : container_state :=
  match e, s with
  | AvOpen _, _ => Open
  | EncodeFrame _, Open => Encoding 1
  | EncodeFrame _, Encoding i => Encoding (S i)
  | EncodeFlush, (Open | Encoding _) => Flushing
  | AvClose, (Open | Encoding _ | Flushing) => Closed
  | _, _ => s
  end.

Definition container_of (log : list event) : container_state :=
  fold_left container_step log NotOpened.

(** *** The previewer object *)

Inductive Mode : Type := latent2rgb | taehv.

(** [args]: the options [__init__] reads. *)
Record Args : Type := {
  preview_vae : option string;
  args_fps : Z;
  args_device : string
}.

(** The loaded tiny auto-encoder: its [decode_video] entry point. *)
Definition TAEHV : Type := tensor5 -> result tensor5.

Inductive Decoder : Type :=
| decode_taehv_ref (model : TAEHV)
| decode_latent2rgb_ref.

Record LatentPreviewer : Type := {
  mode : Mode;
  model_type : string;
  original_latents : tensor5;
  timesteps_percent : tensor1;
  device : string;
  dtype_ : dtype;
  decoder : Decoder;
  scale_factor : option nat;
  fps : Z
}.

(** [LatentPreviewer.__init__].  [load_taehv path device dtype] stands for
    [TAEHV(load_torch_file(path, ...)).to(device, dtype)], whose code lives in
    modules outside this file.  [args.fps] is an integer; [int(args.fps / 4)]
    divides in floating point and truncates toward zero, which is the
    truncated integer quotient as long as the rate is below 2^53 in
    magnitude. *)
Definition init (load_taehv : string -> string -> dtype -> result TAEHV)
  (args : Args) (original : tensor5) (timesteps : tensor1)
  (dev : string) (dt : dtype) (family : string) : result LatentPreviewer :=
  let timesteps_percent := map (fun t => t / 1000) timesteps in
  let dt' := if negb (dtype_eqb dt float8_e4m3fn) then dt else float16 in
  match preview_vae args with
  | Some path =>
      model <- load_taehv path dev dt' ;;
      Ok {| mode := taehv; model_type := family;
            original_latents := original;
            timesteps_percent := timesteps_percent;
            device := dev; dtype_ := dt';
            decoder := decode_taehv_ref model;
            scale_factor := None; fps := args_fps args |}
  | None =>
      Ok {| mode := latent2rgb; model_type := family;
            original_latents := original;
            timesteps_percent := timesteps_percent;
            device := dev; dtype_ := dt';
            decoder := decode_latent2rgb_ref;
            scale_factor := Some 8%nat;
            fps := Z.quot (args_fps args) 4 |}
  end.

(** [subtract_original_and_normalize] *)
Definition normalize (denoisy : tensor5) : tensor5 :=
  let xs := flatten5 denoisy in
  map5d (fun x => (x - mean xs) / (std xs + 1e-5)) denoisy.

Definition subtract_original (self : LatentPreviewer)
  (noisy_latents : tensor5) (current_step : Z) : result tensor5 :=
  noise_remaining <- getitem (timesteps_percent self) current_step ;;
  sub5 noisy_latents
       (map5d (fun x => x * noise_remaining) (original_latents self)).

Definition subtract_original_and_normalize (self : LatentPreviewer)
  (noisy_latents : tensor5) (current_step : Z) : result tensor5 :=
  denoisy_latents <- subtract_original self noisy_latents current_step ;;
  Ok (normalize denoisy_latents).

(** [write_video] *)
Definition to_image (frame : tensor3) : image8 :=
  permute120 (map (map (map to_byte)) frame).

Definition default_target : string := "./latent_preview.mp4".

Definition mux_all (av : Stream) (packets : list packet) : io unit :=
  for_each (fun p => lift (st_mux av p) ;;; emit (Mux p)) packets.

Definition encode_frame (av : Stream) (s : st av) (frame : tensor3) : io (st av) :=
  let img := to_image frame in
  r <~ lift (st_encode av s (Some img)) ;;
  emit (EncodeFrame img) ;;;
  mux_all av (fst r) ;;;
  ret (snd r).

(** The first branch of [write_video]: a single frame becomes a still.
    [Image.save] is taken to succeed. *)
Definition write_image (frame : tensor3) (target : string) : io unit :=
  let target_img := PyStr.replace ".mp4" ".png" target in
  emit (ImageSave target_img (to_image frame)).

(** The rest of [write_video]: open, encode every frame, flush, close.
    [av.open], [add_stream] and the attribute assignments are taken to
    succeed; [stream.encode] and [container.mux] may raise. *)
Definition write_stream (av : Stream) (self : LatentPreviewer)
  (frames : tensor4) (width height : nat) (target : string) : io unit :=
  let target_video := PyStr.replace ".png" ".mp4" target in
  emit (AvOpen target_video) ;;;
  emit (AddStream "libx264" (fps self)) ;;;
  emit (SetFormat "yuv420p" width height) ;;;
  s <~ fold_io (encode_frame av) (st_init av) frames ;;
  r <~ lift (st_encode av s None) ;;
  emit EncodeFlush ;;;
  mux_all av (fst r) ;;;
  emit AvClose.

Definition write_video (av : Stream) (self : LatentPreviewer)
  (frames : tensor4) (width height : nat) (target : string) : io unit :=
  match frames with
  | [frame] => write_image frame target
  | _ => write_stream av self frames width height target
  end.

(** [decode_taehv].  When the model returns a batch of more than one video,
    [squeeze(0)] leaves the batch axis in place and the caller's unpacking of
    the shape into four names raises. *)
Definition decode_taehv (self : LatentPreviewer) (model : TAEHV)
  (latents : tensor5) (current_step : Z) : result tensor4 :=
  decoded <- model (permute02134 latents) ;;
  match decoded with
  | [video] => Ok video
  | _ => Raise (ValueError "too many values to unpack (expected 4)")
  end.

(** [decode_latent2rgb] *)
Record CoefficientTable : Type := {
  rgb_factors : list (list R);
  bias : list R
}.

Definition hunyuan_table : CoefficientTable := {|
  rgb_factors := [
    [-0.0395; -0.0331;  0.0445];
    [ 0.0696;  0.0795;  0.0518];
    [ 0.0135; -0.0945; -0.0282];
    [ 0.0108; -0.0250; -0.0765];
    [-0.0209;  0.0032;  0.0224];
    [-0.0804; -0.0254; -0.0639];
    [-0.0991;  0.0271; -0.0669];
    [-0.0646; -0.0422; -0.0400];
    [-0.0696; -0.0595; -0.0894];
    [-0.0799; -0.0208; -0.0375];
    [ 0.1166;  0.1627;  0.0962];
    [ 0.1165;  0.0432;  0.0407];
    [-0.2315; -0.1920; -0.1355];
    [-0.0270;  0.0401; -0.0821];
    [-0.0616; -0.0997; -0.0727];
    [ 0.0249; -0.0469; -0.1703] ];
  bias := [0.0259; -0.0192; -0.0761]
|}.

Definition wan_table : CoefficientTable := {|
  rgb_factors := [
    [-0.1299; -0.1692;  0.2932];
    [ 0.0671;  0.0406;  0.0442];
    [ 0.3568;  0.2548;  0.1747];
    [ 0.0372;  0.2344;  0.1420];
    [ 0.0313;  0.0189; -0.0328];
    [ 0.0296; -0.0956; -0.0665];
    [-0.3477; -0.4059; -0.2925];
    [ 0.0166;  0.1902;  0.1975];
    [-0.0412;  0.0267; -0.1364];
    [-0.1293;  0.0740;  0.1636];
    [ 0.0680;  0.3019;  0.1128];
    [ 0.0032;  0.0581;  0.0639];
    [-0.1251;  0.0927;  0.1699];
    [ 0.0060; -0.0633;  0.0005];
    [ 0.3477;  0.2275;  0.2950];
    [ 0.1984;  0.0913;  0.1861] ];
  bias := [-0.1835; -0.0868; -0.3360]
|}.

Definition model_params (family : string) : option CoefficientTable :=
  if String.eqb family "hunyuan" then Some hunyuan_table
  else if String.eqb family "wan" then Some wan_table
  else None.

(** [latents[:, :, t, :, :]] *)
Definition select_frame (t : nat) (latents : tensor5) : tensor4 :=
  map (map (fun channel => nth t channel [])) latents.

(** [torch.stack(tensors, dim=0)] *)
Definition stack (tensors : list tensor3) : result tensor4 :=
  match tensors with
  | [] => Raise (RuntimeError "stack expects a non-empty TensorList")
  | _ => Ok tensors
  end.

(** The min-max rescale at the end of [decode_latent2rgb]. *)
Definition rescale (lo hi : R) (t : tensor4) : tensor4 :=
  if Rlt_dec lo hi
  then map4d (fun x => (x - lo) / (hi - lo)) t
  else t.

(** The per-frame projection and the stacking, before the rescale. *)
Definition project_frames (table : CoefficientTable) (latents : tensor5)
  : result tensor4 :=
  let latent_rgb_factors := transpose (rgb_factors table) in
  let latent_rgb_factors_bias := bias table in
  let frames := nth 2 (shape5 latents) 0%nat in
  latent_images <-
    mapM (fun t =>
            extracted <- getitem (select_frame t latents) 0 ;;
            linear latent_rgb_factors latent_rgb_factors_bias
                   (permute120 extracted))
         (seq 0 frames) ;;
  stack latent_images.

Definition decode_latent2rgb (self : LatentPreviewer)
  (latents : tensor5) (current_step : Z) : result tensor4 :=
  match model_params (model_type self) with
  | None =>
      Raise (ValueError ("Unsupported model type: " ++ model_type self))
  | Some table =>
      latent_images <- project_frames table latents ;;
      latent_images_min <- tmin (flatten4 latent_images) ;;
      latent_images_max <- tmax (flatten4 latent_images) ;;
      Ok (permute0312
            (rescale latent_images_min latent_images_max latent_images))
  end.

Definition run_decoder (self : LatentPreviewer)
  (latents : tensor5) (current_step : Z) : result tensor4 :=
  match decoder self with
  | decode_taehv_ref model => decode_taehv self model latents current_step
  | decode_latent2rgb_ref => decode_latent2rgb self latents current_step
  end.

(** [preview].  The snapshot arrives either without a batch axis (what the
    "wan" branch expects and unsqueezes) or with one.  The reference latent is
    kept with its batch axis, so for the other families a snapshot without
    batch axis gains it when the subtraction broadcasts.  A batched snapshot
    unsqueezed once more has six axes, which no decoder accepts: after the
    schedule lookup it ends in a [RuntimeError]. *)
Inductive Latent : Type :=
| Unbatched (t : tensor4)
| Batched (t : tensor5).

Definition preview_frames (self : LatentPreviewer)
  (noisy_latents : Latent) (current_step : Z) : result tensor4 :=
  match noisy_latents with
  | Batched t =>
      if String.eqb (model_type self) "wan"
      then _ <- getitem (timesteps_percent self) current_step ;;
           Raise (RuntimeError "number of dims don't match in permute")
      else denoisy_latents <-
             subtract_original_and_normalize self t current_step ;;
           run_decoder self denoisy_latents current_step
  | Unbatched t =>
      denoisy_latents <-
        subtract_original_and_normalize self [t] current_step ;;
      run_decoder self denoisy_latents current_step
  end.

Definition upscale (self : LatentPreviewer) (decoded : tensor4) : tensor4 :=
  match scale_factor self with
  | Some k => interpolate_bicubic k decoded
  | None => decoded
  end.

Definition preview (av : Stream) (self : LatentPreviewer)
  (noisy_latents : Latent) (current_step : Z) : io unit :=
  decoded <~ lift (preview_frames self noisy_latents current_step) ;;
  let upscaled := upscale self decoded in
  let h_up := nth 2 (shape4 upscaled) 0%nat in
  let w_up := nth 3 (shape4 upscaled) 0%nat in
  write_video av self upscaled w_up h_up default_target.

End LatentPreview.

(** ** The part of [os.path] (POSIX flavour) that [wildcard_replace] uses *)

Module PosixPath.

Open Scope string_scope.

Definition sep : string := "/".

Definition isabs (s : string) : bool := PyStr.startswith s sep.

(** [s.split(c)] for a one-character separator. *)
Fixpoint split (c : ascii) (s : string) : list string :=
  match s with
  | EmptyString => [EmptyString]
  | String a s' =>
      if Ascii.eqb a c then EmptyString :: split c s'
      else match split c s' with
           | h :: t => String a h :: t
           | [] => [String a EmptyString]
           end
  end.

(** [posixpath.join(a, b)] *)
Definition join (a b : string) : string :=
  if PyStr.startswith b sep then b
  else if String.eqb a "" || PyStr.endswith a sep then a ++ b
  else a ++ sep ++ b.

(** The loop of [posixpath.normpath]; [new_comps] is kept last-first. *)
Definition norm_step (initial_slashes : nat) (new_comps : list string)
  (comp : string) : list string :=
  if String.eqb comp "" || String.eqb comp "." then new_comps
  else if negb (String.eqb comp "..")
          || (Nat.eqb initial_slashes 0 && Nat.eqb (length new_comps) 0)
          || match new_comps with
             | last :: _ => String.eqb last ".."
             | [] => false
             end
       then comp :: new_comps
       else tl new_comps.

Definition initial_slashes (path : string) : nat :=
  if PyStr.startswith path "/"
  then if PyStr.startswith path "//" && negb (PyStr.startswith path "///")
       then 2 else 1
  else 0.

Definition norm_comps (path : string) : list string :=
  rev (fold_left (norm_step (initial_slashes path)) (split "/" path) []).

Definition normpath (path : string) : string :=
  if String.eqb path "" then "."
  else
    let path' :=
      String.concat "" (repeat "/" (initial_slashes path))
      ++ String.concat "/" (norm_comps path) in
    if String.eqb path' "" then "." else path'.

(** [posixpath.abspath], with the process's working directory made explicit. *)
Definition abspath (cwd path : string) : string :=
  normpath (if isabs path then path else join cwd path).

End PosixPath.

(** ** [blissful_tuner/prompt_management.py]: [wildcard_replace] *)

Module PromptManagement.

Import PosixPath.
Open Scope string_scope.

(** What the function sees of its surroundings: the working directory, the
    regular files with their lines, Python's [float()] on a string, and the
    draw made by [random.choices]. *)
Record Env : Type := {
  cwd : string;
  fs : string -> option (list string);
  parse_float : string -> option R;
  choices : list string -> list R -> result string
}.

(** [str.isspace] on one character: of the code points below 256 the white
    space ones are 9 to 13, 28 to 32, 133 (next line) and 160 (no-break
    space). *)
Definition is_space (c : ascii) : bool :=
  let n := nat_of_ascii c in
  (Nat.eqb n 32 || (Nat.leb 9 n && Nat.leb n 13)
   || (Nat.leb 28 n && Nat.leb n 31)
   || Nat.eqb n 133 || Nat.eqb n 160)%bool.

Fixpoint lstrip (s : string) : string :=
  match s with
  | String c s' => if is_space c then lstrip s' else s
  | EmptyString => EmptyString
  end.

Definition strip (s : string) : string :=
  PyStr.rev_string (lstrip (PyStr.rev_string (lstrip s))).

(** [line.split(":", 1)] when the line has a colon; [None] when [":" in line]
    is false. *)
Fixpoint split_colon (s : string) : option (string * string) :=
  match s with
  | EmptyString => None
  | String c s' =>
      if Ascii.eqb c ":" then Some (EmptyString, s')
      else match split_colon s' with
           | Some (a, b) => Some (String c a, b)
           | None => None
           end
  end.

(** One pass of the loop over the file's lines. *)
Definition parse_line (env : Env) (acc : list string * list R) (raw : string)
  : result (list string * list R) :=
  let line := strip raw in
  if String.eqb line "" || PyStr.startswith line "#" then Ok acc
  else
    entry <-
      match split_colon line with
      | Some (name, w_str) =>
          match parse_float env (strip w_str) with
          | Some weight => Ok (strip name, weight)
          | None => Raise (ValueError "Invalid weight")
          end
      | None => Ok (line, 1%R)
      end ;;
    if String.eqb (fst entry) "" then Ok acc
    else Ok (fst acc ++ [fst entry], snd acc ++ [snd entry])%list.

Fixpoint parse_lines (env : Env) (acc : list string * list R)
  (lines : list string) : result (list string * list R) :=
  match lines with
  | [] => Ok acc
  | raw :: rest => acc' <- parse_line env acc raw ;; parse_lines env acc' rest
  end.

(** [wildcard_replace].  The second component lists the paths handed to
    [open], in order. *)
Definition wildcard_replace (env : Env) (wildcard wildcard_location : string)
  : result string * list string :=
  if isabs wildcard
  then (Raise (ValueError "Absolute paths not allowed in wildcard"), [])
  else if existsb (String.eqb "..") (split "/" wildcard)
  then (Raise (ValueError "Parent-directory traversal not allowed in wildcard"), [])
  else
    let base_dir := abspath (cwd env) wildcard_location in
    let candidate := abspath (cwd env) (join base_dir (wildcard ++ ".txt")) in
    if negb (String.eqb candidate base_dir
             || PyStr.startswith candidate (base_dir ++ sep))
    then (Raise (ValueError "Wildcard path escapes base directory"), [])
    else
      match fs env candidate with
      | None => (Raise (FileNotFoundError candidate), [])
      | Some lines =>
          (parsed <- parse_lines env ([], []) lines ;;
           match fst parsed with
           | [] => Raise (ValueError "No valid options found in wildcard file")
           | _ => choices env (fst parsed) (snd parsed)
           end,
           [candidate])
      end.

End PromptManagement.

(** ** [process_wildcards] *)

Module Wildcards.

Import PosixPath PromptManagement.
Local Open Scope string_scope.

(** The pattern [__([^_]+?)__]: two underscores, one or more characters
    other than the underscore, two underscores.  The class excludes the
    underscore, so the lazy quantifier has one way to succeed: the key is
    the whole run up to the next underscore, and that underscore must start
    the closing pair. *)
Fixpoint key_run (s : string) : string :=
  match s with
  | String c s' => if Ascii.eqb c "_" then "" else String c (key_run s')
  | EmptyString => ""
  end.

Fixpoint after_run (s : string) : string :=
  match s with
  | String c s' => if Ascii.eqb c "_" then s else after_run s'
  | EmptyString => ""
  end.

(** A match of the pattern starting at the first character of [s]. *)
Definition key_match (s : string) : option string :=
  match s with
  | String c1 (String c2 s') =>
      if Ascii.eqb c1 "_" && Ascii.eqb c2 "_"
         && negb (String.eqb (key_run s') "")
         && prefix "__" (after_run s')
      then Some (key_run s')
      else None
  | _ => None
  end.

(** [pattern.findall(prompt)]: the keys of the matches found from left to
    right without overlap.  [skip] counts the characters of a match that
    remain to be passed over. *)
Fixpoint findall_keys_from (skip : nat) (s : string) : list string :=
  match s with
  | EmptyString => []
  | String c s' =>
      match skip with
      | S k => findall_keys_from k s'
      | O =>
          match key_match s with
          | Some key => key :: findall_keys_from (String.length key + 3) s'
          | None => findall_keys_from 0 s'
          end
      end
  end.

Definition findall_keys (prompt : string) : list string := findall_keys_from 0 prompt.

(** Beside the exceptions of [wildcard_replace], the function can end in
    [re.error] (a replacement that is not a valid template) and in its own
    [RecursionError], whose message carries the limit and the prompt as it
    stands. *)
Inductive error : Type :=
| PyError (e : exn)
| ReError
| RecursionError (max_depth : Z) (prompt : string).

Inductive outcome (A : Type) : Type :=
| Returned (a : A)
| Failed (e : error).

Arguments Returned {A} a.
Arguments Failed {A} e.

(** What the function sees of its surroundings: the environment of the
    n-th call of [wildcard_replace]; the order in which [set(matches)] is
    iterated; and the expansion [re.sub] makes of a replacement template for
    a key ([None] when the template is rejected). *)
Record Oracle : Type := {
  env_at : nat -> Env;
  set_order : list string -> list string;
  expand_template : string -> string -> option string
}.

(** The calls of [wildcard_replace] made so far and the paths they handed
    to [open]. *)
Record world : Type := {
  calls : nat;
  opened : list string
}.

(** The [for key in set(matches)] loop. *)
Fixpoint substitute_keys (o : Oracle) (wildcard_location : string)
  (keys : list string) (prompt : string) (w : world)
  : outcome string * world :=
  match keys with
  | [] => (Returned prompt, w)
  | key :: rest =>
      let r := wildcard_replace (env_at o (calls w)) key wildcard_location in
      let w' := {| calls := S (calls w);
                   opened := (opened w ++ snd r)%list |} in
      match fst r with
      | Raise e => (Failed (PyError e), w')
      | Ok replacement =>
          match expand_template o key replacement with
          | None => (Failed ReError, w')
          | Some text =>
              substitute_keys o wildcard_location rest
                (PyStr.replace ("__" ++ key ++ "__") text prompt) w'
          end
      end
  end.

(** The [while depth < max_depth] loop; [fuel] is the number of times its
    condition can still hold. *)
Fixpoint while_loop (o : Oracle) (wildcard_location : string) (fuel : nat)
  (depth : Z) (prompt : string) (w : world)
  : outcome (Z * string) * world :=
  match fuel with
  | O => (Returned (depth, prompt), w)
  | S fuel' =>
      match findall_keys prompt with
      | [] => (Returned (depth, prompt), w)
      | matches =>
          match substitute_keys o wildcard_location
                  (set_order o matches) prompt w with
          | (Returned prompt', w') =>
              while_loop o wildcard_location fuel' (depth + 1) prompt' w'
          | (Failed e, w') => (Failed e, w')
          end
      end
  end.

Definition replace_in_one (o : Oracle) (wildcard_location : string)
  (max_depth : Z) (prompt : string) (w : world) : outcome string * world :=
  match while_loop o wildcard_location (Z.to_nat max_depth) 0 prompt w with
  | (Returned (depth, prompt'), w') =>
      if (depth >=? max_depth)%Z
      then (Failed (RecursionError max_depth prompt'), w')
      else (Returned prompt', w')
  | (Failed e, w') => (Failed e, w')
  end.

(** [prompts] is one string or a list of strings. *)
Inductive Prompts : Type :=
| Single (prompt : string)
| Many (prompts : list string).

Fixpoint process_list (o : Oracle) (wildcard_location : string)
  (max_depth : Z) (prompt_list : list string) (w : world)
  : outcome (list string) * world :=
  match prompt_list with
  | [] => (Returned [], w)
  | p :: rest =>
      match replace_in_one o wildcard_location max_depth p w with
      | (Returned p', w') =>
          match process_list o wildcard_location max_depth rest w' with
          | (Returned rest', w'') => (Returned (p' :: rest'), w'')
          | (Failed e, w'') => (Failed e, w'')
          end
      | (Failed e, w') => (Failed e, w')
      end
  end.

Definition process_wildcards (o : Oracle) (prompts : Prompts)
  (wildcard_location : string) (max_depth : Z) (w : world)
  : outcome Prompts * world :=
  match prompts with
  | Single p =>
      match process_list o wildcard_location max_depth [p] w with
      | (Returned processed, w') => (Returned (Single (hd "" processed)), w')
      | (Failed e, w') => (Failed e, w')
      end
  | Many ps =>
      match process_list o wildcard_location max_depth ps w with
      | (Returned processed, w') => (Returned (Many processed), w')
      | (Failed e, w') => (Failed e, w')
      end
  end.

End Wildcards.

(** ** [rescale_text_encoders_hunyuan] *)

Module TextEncoders.

Local Open Scope py_scope.

Section Objects.

(** What a forward method is called with. *)
Variable Input : Type.

(** A forward method: it returns the elements of its output tensor, or
    raises. *)
Definition Forward : Type := Input -> result (list R).

(** [output * multiplier] *)
Definition scaled (output : list R) (multiplier : R) : list R :=
  map (fun x => (x * multiplier)%R) output.

(** The objects the function walks through; an attribute that [hasattr]
    does not find is [None].  A module is represented by its [forward], and
    the blocks of a refiner are distinct objects. *)
Record TokenRefiner : Type := {
  blocks : list Forward
}.

Record TextProjection : Type := {
  c_embedder : option Forward;
  individual_token_refiner : option TokenRefiner
}.

Record Transformer : Type := {
  txt_in : option TextProjection
}.

(** What a [forward] attribute holds once the loop has assigned to it: the
    nested function [scaled_block_forward].  The nested function does not
    copy [original_block_forward], it refers to the variable of the enclosing
    call and reads it each time it is called. *)
Inductive Method : Type :=
| scaled_block_forward.

(** The loop over the blocks: it leaves each block with the nested function
    and the variable [original_block_forward] with the last value assigned to
    it. *)
Fixpoint patch_blocks (blocks : list Forward)
  (original_block_forward : option Forward)
  : list Method * option Forward :=
  match blocks with
  | [] => ([], original_block_forward)
  | block :: rest =>
      let original_block_forward := Some block in
      let patched := patch_blocks rest original_block_forward in
      (scaled_block_forward :: fst patched, snd patched)
  end.

(** A call of a patched block's [forward] after the function has returned,
    when its variables have their final values. *)
Definition call_method (original_block_forward : option Forward)
  (llm_multiplier : R) (m : Method) : Forward :=
  match m with
  | scaled_block_forward =>
      fun args =>
        match original_block_forward with
        | Some forward =>
            output <- forward args ;;
            Ok (scaled output llm_multiplier)
        | None =>
            Raise (RuntimeError "free variable referenced before assignment")
        end
  end.

Definition rescale_text_encoders_hunyuan (llm_scale clip_scale : R)
  (transformer : Transformer) : Transformer :=
  let clip_multiplier := clip_scale in
  let llm_multiplier := llm_scale in
  match txt_in transformer with
  | Some txt_in_ =>
      match c_embedder txt_in_ with
      | Some original_c_embedder_forward =>
          let scaled_c_embedder_forward : Forward :=
            fun args =>
              output <- original_c_embedder_forward args ;;
              Ok (scaled output clip_multiplier) in
          {| txt_in := Some
               {| c_embedder := Some scaled_c_embedder_forward;
                  individual_token_refiner :=
                    match individual_token_refiner txt_in_ with
                    | Some refiner =>
                        let patched := patch_blocks (blocks refiner) None in
                        Some {| blocks :=
                                  map (call_method (snd patched) llm_multiplier)
                                      (fst patched) |}
                    | None => None
                    end |} |}
      | None => transformer
      end
  | None => transformer
  end.

End Objects.

Arguments blocks {Input} _.
Arguments c_embedder {Input} _.
Arguments individual_token_refiner {Input} _.
Arguments txt_in {Input} _.
Arguments Build_TokenRefiner {Input} _.
Arguments Build_TextProjection {Input} _ _.
Arguments Build_Transformer {Input} _.
Arguments rescale_text_encoders_hunyuan {Input} _ _ _.
Arguments patch_blocks {Input} _ _.
Arguments call_method {Input} _ _ _.

End TextEncoders.

(** ** [MiniT5Wrapper] *)

Module PromptWeights.

Import PosixPath PromptManagement.
Local Open Scope string_scope.
Local Open Scope py_scope.

(** The pattern [\((.*?):([\d\.]+)\)] on strings of characters below 256,
    where [\d] is a digit from 0 to 9.  The weight group excludes the closing
    parenthesis, so it can only be the whole run of digits and dots after the
    colon; the text group is lazy and takes anything but a newline, so it
    ends at the first colon after which such a run and a closing parenthesis
    follow. *)
Definition is_weight_char (c : ascii) : bool :=
  let n := nat_of_ascii c in
  ((Nat.leb 48 n && Nat.leb n 57) || Ascii.eqb c ".")%bool.

Fixpoint weight_run (s : string) : string :=
  match s with
  | String c s' => if is_weight_char c then String c (weight_run s') else ""
  | EmptyString => ""
  end.

Fixpoint after_weight (s : string) : string :=
  match s with
  | String c s' => if is_weight_char c then after_weight s' else s
  | EmptyString => ""
  end.

Definition newline : ascii := ascii_of_nat 10.

(** The groups of a match whose opening parenthesis stands just before
    [s]. *)
Fixpoint match_body (s : string) : option (string * string) :=
  match s with
  | EmptyString => None
  | String c s' =>
      if (Ascii.eqb c ":" && negb (String.eqb (weight_run s') "")
          && prefix ")" (after_weight s'))%bool
      then Some ("", weight_run s')
      else if Ascii.eqb c newline then None
      else match match_body s' with
           | Some (text, weight) => Some (String c text, weight)
           | None => None
           end
  end.

Definition weight_match (s : string) : option (string * string) :=
  match s with
  | String c s' => if Ascii.eqb c "(" then match_body s' else None
  | EmptyString => None
  end.

(** [re.findall(pattern, prompt)]: the (text, weight) pairs of the matches
    found from left to right without overlap. *)
Fixpoint findall_weights_from (skip : nat) (s : string) : list (string * string) :=
  match s with
  | EmptyString => []
  | String c s' =>
      match skip with
      | S k => findall_weights_from k s'
      | O =>
          match weight_match s with
          | Some (text, weight) =>
              (text, weight)
              :: findall_weights_from (String.length text + String.length weight + 2)
                              s'
          | None => findall_weights_from 0 s'
          end
      end
  end.

Definition findall_weights (prompt : string) : list (string * string) :=
  findall_weights_from 0 prompt.

(** A [dict] with string keys, in insertion order: assigning to a key that
    is there replaces its value where it stands. *)
Definition dict : Type := list (string * R).

Fixpoint setitem (d : dict) (key : string) (value : R) : dict :=
  match d with
  | [] => [(key, value)]
  | (k, v) :: rest =>
      if String.eqb k key then (k, value) :: rest
      else (k, v) :: setitem rest key value
  end.

(** What the wrapper sees of its surroundings: Python's [float()] on a
    string and the wrapped encoder, which gives one embedding per text. *)
Record Surroundings : Type := {
  float : string -> option R;
  t5 : list string -> result (list (list R))
}.

(** [parse_prompt_weights] *)
Fixpoint strip_weights (env : Surroundings) (matches : list (string * string))
  (cleaned_prompt : string) (weights : dict) : result (string * dict) :=
  match matches with
  | [] => Ok (cleaned_prompt, weights)
  | (text, weight) :: rest =>
      let orig_text := "(" ++ text ++ ":" ++ weight ++ ")" in
      let cleaned_prompt := PyStr.replace orig_text text cleaned_prompt in
      match float env weight with
      | Some value =>
          strip_weights env rest cleaned_prompt (setitem weights text value)
      | None => Raise (ValueError "could not convert string to float")
      end
  end.

Definition parse_prompt_weights (env : Surroundings) (prompt : string)
  : result (string * dict) :=
  strip_weights env (findall_weights prompt) prompt [].

(** The wrapper's own state, and the texts each call handed to the
    encoder. *)
Record MiniT5Wrapper : Type := {
  times_called : Z;
  encoded : list (list string)
}.

Inductive Prompt : Type :=
| Str (prompt : string)
| PromptList (prompts : list string).

(** [context[i] = value] for an index that is in range. *)
Fixpoint assign {A : Type} (l : list A) (i : nat) (value : A) : list A :=
  match l, i with
  | [], _ => []
  | _ :: rest, O => value :: rest
  | x :: rest, S j => x :: assign rest j value
  end.

Definition weighted (embedding : list R) (weight : R) : list R :=
  map (fun x => (x * weight)%R) embedding.

(** The inner loop over [weights.items()]. *)
Fixpoint apply_weights (context : list (list R)) (i : nat) (weights : dict)
  : result (list (list R)) :=
  match weights with
  | [] => Ok context
  | (text, weight) :: rest =>
      embedding <- getitem context (Z.of_nat i) ;;
      apply_weights (assign context i (weighted embedding weight)) i rest
  end.

(** The outer loop over [enumerate(all_weights)]. *)
Fixpoint apply_all_weights (context : list (list R)) (i : nat)
  (all_weights : list dict) : result (list (list R)) :=
  match all_weights with
  | [] => Ok context
  | weights :: rest =>
      context' <- apply_weights context i weights ;;
      apply_all_weights context' (S i) rest
  end.

(** [__call__] *)
Definition call (env : Surroundings) (self : MiniT5Wrapper) (prompt : Prompt)
  : result (list (list R)) * MiniT5Wrapper :=
  match
    match prompt with
    | PromptList [p] => Ok p
    | PromptList _ =>
        Raise (ValueError
          "MiniT5Wrapper expects a single prompt at a time (wrapped as a list). Got multiple prompts.")
    | Str p => Ok p
    end
  with
  | Raise e => (Raise e, self)
  | Ok prompt =>
      let prompts_raw := map strip (split "|" prompt) in
      match mapM (parse_prompt_weights env) prompts_raw with
      | Raise e => (Raise e, self)
      | Ok parsed =>
          let prompts := map fst parsed in
          let all_weights := map snd parsed in
          let self' := {| times_called := times_called self;
                          encoded := (encoded self ++ [prompts])%list |} in
          match t5 env prompts with
          | Raise e => (Raise e, self')
          | Ok context =>
              match apply_all_weights context 0 all_weights with
              | Raise e => (Raise e, self')
              | Ok context' =>
                  (Ok context',
                   {| times_called := (times_called self + 1)%Z;
                      encoded := encoded self' |})
              end
          end
      end
  end.

End PromptWeights.

(** * Vocabulary of the statements

    Projections of the event log, shape predicates, the specification's
    reading of the schedule, and the sample inputs used below. *)

Import Torch PyStr LatentPreview PosixPath PromptManagement.

(** The schedule as the specification words it: every raw value divided by
    the largest raw value. *)
Definition schedule_divided_by_max (timesteps : tensor1) : tensor1 :=
  match timesteps with
  | [] => []
  | t :: ts => map (fun x => x / list_max t ts)%R timesteps
  end.

Definition no_loader : string -> string -> dtype -> result TAEHV :=
  fun _ _ _ => Raise (FileNotFoundError "").

Definition linear_args (rate : Z) : Args :=
  {| preview_vae := None; args_fps := rate; args_device := "cpu" |}.

Definition batched_view (noisy_latents : Latent) : tensor5 :=
  match noisy_latents with
  | Unbatched t => [t]
  | Batched t => t
  end.

Definition unsupported (family : string) : exn :=
  ValueError ("Unsupported model type: " ++ family).

Definition null_stream : Stream :=
  {| st := unit; st_init := tt;
     st_encode := fun _ _ => Ok ([], tt);
     st_mux := fun _ => Ok tt |}.

Definition sd3_previewer : LatentPreviewer :=
  {| mode := latent2rgb; model_type := "sd3";
     original_latents := [[[[[0%R]]]]];
     timesteps_percent := [1%R];
     device := "cpu"; dtype_ := float32;
     decoder := decode_latent2rgb_ref;
     scale_factor := Some 8%nat; fps := 4 |}.

Definition hunyuan_previewer : LatentPreviewer :=
  {| mode := latent2rgb; model_type := "hunyuan";
     original_latents := full5 1 16 2 8 8 0%R;
     timesteps_percent := [0%R];
     device := "cpu"; dtype_ := float32;
     decoder := decode_latent2rgb_ref;
     scale_factor := Some 8%nat; fps := 4 |}.

Definition two_batches (v : R) : tensor5 :=
  [repeat [[[1%R]]] 16; repeat [[[v]]] 16].

Fixpoint occurs (c : ascii) (s : string) : bool :=
  match s with
  | EmptyString => false
  | String a s' => Ascii.eqb a c || occurs c s'
  end.

Open Scope list_scope.

Definition opened_containers (l : list event) : list string :=
  flat_map (fun e => match e with AvOpen p => [p] | _ => [] end) l.

Definition saved_images (l : list event) : list string :=
  flat_map (fun e => match e with ImageSave p _ => [p] | _ => [] end) l.

Definition stream_rates (l : list event) : list Z :=
  flat_map (fun e => match e with AddStream _ r => [r] | _ => [] end) l.

Definition encoded_frames (l : list event) : list image8 :=
  flat_map (fun e => match e with EncodeFrame img => [img] | _ => [] end) l.

Definition closes (l : list event) : nat :=
  length (filter (fun e => match e with AvClose => true | _ => false end) l).

(** A stream whose calls all return. *)
Definition never_fails (av : Stream) : Prop :=
  (forall s f, is_ok (st_encode av s f) = true)
  /\ (forall p, is_ok (st_mux av p) = true).

(** The events the encode loop can log. *)
Definition stream_event (e : event) : bool :=
  match e with
  | EncodeFrame _ | Mux _ => true
  | _ => false
  end.

Definition is_open (s : container_state) : bool :=
  match s with
  | Open | Encoding _ | Flushing => true
  | _ => false
  end.

Definition body_event (e : event) : bool :=
  match e with
  | EncodeFrame _ | Mux _ | EncodeFlush => true
  | _ => false
  end.

Definition stream_header (self : LatentPreviewer) (width height : nat)
  (target : string) : list event :=
  [ AvOpen (replace ".png" ".mp4" target);
    AddStream "libx264" (fps self);
    SetFormat "yuv420p" width height ].

(** What reaches the container when no call raises, read off the stream
    alone: each picture is encoded in turn and every packet the encoder
    returns for it is muxed at once, in order; the flush follows the last
    picture and its packets are muxed too. *)
Fixpoint frames_trace (av : Stream) (s : st av) (images : list image8)
  : list event * st av :=
  match images with
  | [] => ([], s)
  | img :: rest =>
      match st_encode av s (Some img) with
      | Ok (packets, s') =>
          let r := frames_trace av s' rest in
          (EncodeFrame img :: map Mux packets ++ fst r, snd r)
      | Raise _ => ([], s)
      end
  end.

Definition flush_trace (av : Stream) (s : st av) : list event :=
  match st_encode av s None with
  | Ok (packets, _) => EncodeFlush :: map Mux packets
  | Raise _ => []
  end.

Definition stream_trace (av : Stream) (images : list image8) : list event :=
  let r := frames_trace av (st_init av) images in
  fst r ++ flush_trace av (snd r).


Definition muxed (l : list event) : list packet :=
  flat_map (fun e => match e with Mux p => [p] | _ => [] end) l.

(** A stream that holds every picture back until the next call: the first
    picture gives no packet, each later call gives the packet of the picture
    before it, numbered from 0, and the flush gives the last one. *)
Definition delaying_stream : Stream :=
  {| st := nat; st_init := 0%nat;
     st_encode := fun n _ =>
       match n with
       | O => Ok ([], 1%nat)
       | S k => Ok ([[Z.of_nat k]], S n)
       end;
     st_mux := fun _ => Ok tt |}.

Definition gray_frame : tensor3 := [[[0.5%R]]; [[0.5%R]]; [[0.5%R]]].

(** A stream that accepts one frame and raises on the next. *)
Definition failing_stream : Stream :=
  {| st := nat; st_init := 0%nat;
     st_encode := fun n _ =>
       if Nat.eqb n 1 then Raise (AVError "encoder failure")
       else Ok ([], S n);
     st_mux := fun _ => Ok tt |}.

(** [dim n P t]: the axis has [n] entries and every entry satisfies [P].
    Nesting [dim] describes a rectangular tensor together with a property of
    its elements. *)
Definition dim {A : Type} (n : nat) (P : A -> Prop) (t : list A) : Prop :=
  length t = n /\ Forall P t.

Definition any {A : Type} (x : A) : Prop := True.

Definition all4 (P : R -> Prop) (t : tensor4) : Prop :=
  Forall (Forall (Forall (Forall P))) t.

Definition unit_interval (x : R) : Prop := (0 <= x <= 1)%R.

Definition map2 {A B C : Type} (g : A -> B -> C) (a : list A) (b : list B)
  : list C :=
  map (fun p => g (fst p) (snd p)) (combine a b).

(** Element-wise combination of two tensors of the same shape. *)
Definition zip5 (g : R -> R -> R) : tensor5 -> tensor5 -> tensor5 :=
  map2 (map2 (map2 (map2 (map2 g)))).

Definition same_shape1 : tensor1 -> tensor1 -> Prop := Forall2 (fun _ _ => True).

Definition same_shape2 : tensor2 -> tensor2 -> Prop := Forall2 same_shape1.

Definition same_shape3 : tensor3 -> tensor3 -> Prop := Forall2 same_shape2.

Definition same_shape4 : tensor4 -> tensor4 -> Prop := Forall2 same_shape3.

Definition same_shape5 : tensor5 -> tensor5 -> Prop := Forall2 same_shape4.

Definition eps : R := 1e-5.

Definition small_previewer : LatentPreviewer :=
  {| mode := latent2rgb; model_type := "hunyuan";
     original_latents := [[[[[0; 0; 0]]]]]%R;
     timesteps_percent := [1%R];
     device := "cpu"; dtype_ := float32;
     decoder := decode_latent2rgb_ref;
     scale_factor := Some 8%nat; fps := 4 |}.

Definition small_latent : tensor5 := [[[[[-0.01; 0; 0.01]]]]]%R.

Definition small_residual : list R :=
  [-0.01 - 0 * 1; 0 - 0 * 1; 0.01 - 0 * 1]%R.

(** A plane filled with one value. *)
Definition plane (h w : nat) (v : R) : tensor2 := repeat (repeat v w) h.

(** The three channel values of a decoded all-zero latent: the "hunyuan"
    bias, rescaled between its smallest and largest entry. *)
Definition flat_red : R := (0.0259 - -0.0761) / (0.0259 - -0.0761).

Definition flat_green : R := (-0.0192 - -0.0761) / (0.0259 - -0.0761).

Definition flat_blue : R := (-0.0761 - -0.0761) / (0.0259 - -0.0761).

Definition flat_frame (h w : nat) : tensor3 :=
  [plane h w flat_red; plane h w flat_green; plane h w flat_blue].

(** The frames [preview] hands to the frame sink. *)
Definition upscaled_frames (self : LatentPreviewer) (noisy_latents : Latent)
  (step : Z) : result tensor4 :=
  decoded <- preview_frames self noisy_latents step ;;
  Ok (upscale self decoded).

Definition constant_snapshot (c : R) : Latent := Batched (full5 1 16 2 8 8 c).

(** A "hunyuan" previewer whose reference is laid out frames first, as
    (1, 2 frames, 16 channels, 8, 8). *)
Definition frames_first_previewer : LatentPreviewer :=
  {| mode := latent2rgb; model_type := "hunyuan";
     original_latents := [full4 2 16 8 8 0%R];
     timesteps_percent := [0%R];
     device := "cpu"; dtype_ := float32;
     decoder := decode_latent2rgb_ref;
     scale_factor := Some 8%nat; fps := 4 |}.

(** A path component that [normpath] keeps for an absolute path. *)
Definition proper_component (c : string) : Prop :=
  c <> ""%string /\ c <> "."%string /\ c <> ".."%string.

(** A component without separator. *)
Definition sep_free (s : string) : Prop := occurs "/" s = false.

(** The components [normpath] keeps when no [..] is present. *)
Definition kept (c : string) : bool :=
  negb (String.eqb c "" || String.eqb c ".").

(** The leading slashes of a normalized absolute path. *)
Definition slashes (n : nat) : string := String.concat "" (repeat "/" n).

(** The errors raised before any file is opened. *)
Definition refusal (candidate : string) (e : exn) : Prop :=
  e = ValueError "Absolute paths not allowed in wildcard"
  \/ e = ValueError "Parent-directory traversal not allowed in wildcard"
  \/ e = ValueError "Wildcard path escapes base directory"
  \/ e = FileNotFoundError candidate.

(** A normalized absolute path: leading slashes, then components none of
    which is empty, [.] or [..]. *)
Definition normalized_absolute (path : string) : Prop :=
  exists (slashes : nat) (comps : list string),
    (1 <= slashes <= 2)%nat
    /\ path = (String.concat "" (repeat "/" slashes)
               ++ String.concat "/" comps)%string
    /\ Forall proper_component comps.

Definition sample_env : Env :=
  {| cwd := "/home/u";
     fs := fun p =>
       if String.eqb p "/home/u/w/colors/a.txt"
       then Some ["red"; "# comment"; "blue: 2"]%string else None;
     parse_float := fun _ => Some 2%R;
     choices := fun options _ => Ok (hd ""%string options) |}.

(** ** Vocabulary of the further properties *)

Import Wildcards TextEncoders PromptWeights.

(** What a line of a wildcard file contributes: [name] is the option that
    [raw] adds to the list. *)
Definition entry_of (raw name : string) : Prop :=
  let line := strip raw in
  line <> ""%string
  /\ startswith line "#" = false
  /\ name <> ""%string
  /\ match split_colon line with
     | Some (n, _) => name = strip n
     | None => name = line
     end.

(** A line the parser passes over. *)
Definition skipped_line (raw : string) : Prop :=
  strip raw = ""%string \/ startswith (strip raw) "#" = true.

(** A line whose weight Python's [float] rejects. *)
Definition bad_weight_line (env : Env) (raw : string) : Prop :=
  strip raw <> ""%string
  /\ startswith (strip raw) "#" = false
  /\ exists n w, split_colon (strip raw) = Some (n, w)
                 /\ parse_float env (strip w) = None.

(** The rest of [wildcard_replace] once the file's lines are read. *)
Definition pick_option (env : Env) (lines : list string) : result string :=
  parsed <- parse_lines env ([], []) lines ;;
  match fst parsed with
  | [] => Raise (ValueError "No valid options found in wildcard file")
  | _ => choices env (fst parsed) (snd parsed)
  end.

(** Sample surroundings for the statements below. *)
Definition env_with (dir : string) (path : string) (lines : list string)
  (float : string -> option R) : Env :=
  {| cwd := dir;
     fs := fun p => if String.eqb p path then Some lines else None;
     parse_float := float;
     choices := fun options _ =>
       match options with
       | [] => Raise IndexError
       | o :: _ => Ok o
       end |}.

Definition colors_env : Env :=
  env_with "/home/u" "/home/u/w/colors/a.txt"
    ["red"; "# comment"; "blue: 2"]%string (fun _ => Some 2%R).

Definition comments_env : Env :=
  env_with "/home/u" "/home/u/w/a.txt" ["# only"; "   "]%string
    (fun _ => Some 2%R).

Definition strict_env : Env :=
  env_with "/home/u" "/home/u/w/a.txt" ["red"; "blue: heavy"]%string
    (fun _ => None).

(** A value an unsigned byte holds. *)
Definition is_byte (z : Z) : Prop := (0 <= z <= 255)%Z.

(** The snapshots a family accepts: "wan" unsqueezes, so it must be given
    the tensor without batch axis. *)
Definition accepted_by (self : LatentPreviewer) (noisy_latents : Latent)
  : Prop :=
  match noisy_latents with
  | Batched _ => model_type self <> "wan"%string
  | Unbatched _ => True
  end.

(** A learned decoder that returns the same two gray frames for every
    input, and the arguments that select it. *)
Definition gray_video : tensor4 := [gray_frame; gray_frame].


Definition two_video_loader (path dev : string) (dt : dtype)
  : result TAEHV :=
  Ok (fun _ => Ok [gray_video; gray_video]).

Definition learned_args (rate : Z) : Args :=
  {| preview_vae := Some "taehv.pth"%string; args_fps := rate;
     args_device := "cpu"%string |}.

(** The prompts of a call, as the list the function works on. *)
Definition prompt_list (prompts : Prompts) : list string :=
  match prompts with
  | Single p => [p]
  | Many ps => ps
  end.

(** A prompt in which the pattern finds nothing. *)
Definition marker_free (prompt : string) : Prop := findall_keys prompt = [].

(** One string gives one string, a list gives a list. *)
Definition same_kind (a b : Prompts) : Prop :=
  match a, b with
  | Single _, Single _ => True
  | Many _, Many _ => True
  | _, _ => False
  end.

(** A path strictly below a directory. *)
Definition below (base_dir path : string) : Prop :=
  startswith path (base_dir ++ sep) = true
  /\ (String.length base_dir < String.length path)%nat.

(** The iteration of [set(matches)] visits each distinct key once. *)
Definition visits_each_key_once (o : Oracle) : Prop :=
  forall matches,
    NoDup (set_order o matches)
    /\ forall key, In key (set_order o matches) <-> In key matches.

(** Surroundings in which every call sees the same files, [set] keeps the
    order of first occurrence and templates are taken literally. *)
Definition first_occurrence_oracle (env : Env) : Oracle :=
  {| env_at := fun _ => env;
     set_order := nodup string_dec;
     expand_template := fun _ replacement => Some replacement |}.

Definition untouched : world := {| calls := 0; opened := [] |}.

(** A wildcard directory whose [animal] entries refer to [color]. *)
Definition nested_env : Env :=
  {| cwd := "/home/u";
     fs := fun p =>
       if String.eqb p "/home/u/w/animal.txt"
       then Some ["__color__ cat"]%string
       else if String.eqb p "/home/u/w/color.txt"
       then Some ["black"; "white: 3"]%string
       else None;
     parse_float := fun _ => Some 3%R;
     choices := fun options _ =>
       match options with
       | [] => Raise IndexError
       | x :: _ => Ok x
       end |}.

Definition nested_oracle : Oracle := first_occurrence_oracle nested_env.

(** A path opened by a call whose base directory it lies strictly below. *)
Definition inside (o : Oracle) (wildcard_location path : string) : Prop :=
  exists n,
    below (abspath (cwd (env_at o n)) wildcard_location) path.

(** The forward methods of the refiner's blocks, and of the embedder. *)
Definition block_forwards {Input : Type} (transformer : Transformer Input)
  : list (Forward Input) :=
  match txt_in transformer with
  | Some t =>
      match individual_token_refiner t with
      | Some refiner => blocks refiner
      | None => []
      end
  | None => []
  end.

Definition embedder_forward {Input : Type} (transformer : Transformer Input)
  : option (Forward Input) :=
  match txt_in transformer with
  | Some t => c_embedder t
  | None => None
  end.

(** A transformer with an embedder that returns its input and two blocks,
    one adding one to every element and one doubling it. *)
Definition add_one : Forward (list R) := fun x => Ok (map (fun v => v + 1)%R x).

Definition double : Forward (list R) := fun x => Ok (map (fun v => v * 2)%R x).

Definition two_block_transformer : Transformer (list R) :=
  {| txt_in := Some
       {| c_embedder := Some (fun x => Ok x);
          individual_token_refiner :=
            Some {| blocks := [add_one; double] |} |} |}.

(** A text projection that has the refiner but no [c_embedder]. *)
Definition no_embedder_transformer : Transformer (list R) :=
  {| txt_in := Some
       {| c_embedder := None;
          individual_token_refiner :=
            Some {| blocks := [add_one; double] |} |} |}.

(** The product of the weights a segment carries. *)
Definition product (weights : dict) : R :=
  fold_right (fun entry acc => (snd entry * acc)%R) 1%R weights.

(** The segments of a prompt as the encoder would get them unparsed. *)
Definition segments (prompt : string) : list string :=
  map strip (split "|" prompt).

(** An encoder that embeds every text as the same two numbers. *)
Definition flat_encoder : Surroundings :=
  {| float := fun w => if String.eqb w "3" then Some 3%R else Some 2%R;
     t5 := fun prompts => Ok (map (fun _ => [1%R; 3%R]) prompts) |}.

(** The weight text of the last match that carries [text]. *)
Fixpoint last_weight (matches : list (string * string)) (text : string)
  : option string :=
  match matches with
  | [] => None
  | (t, w) :: rest =>
      match last_weight rest text with
      | Some w' => Some w'
      | None => if String.eqb t text then Some w else None
      end
  end.

(** An embedding multiplied by the weights of a dict one after the other,
    in the order of the dict. *)
Definition multiplied_in_turn (embedding : list R) (weights : dict)
  : list R :=
  fold_left (fun x entry => weighted x (snd entry)) weights embedding.

Definition new_wrapper : MiniT5Wrapper :=
  {| times_called := 0; encoded := [] |}.

(** * Properties *)

(** ** Construction of the previewer *)

Section Construction.

Open Scope R_scope.

Variable load_taehv : string -> string -> dtype -> result TAEHV.
Variables (args : Args) (original : tensor5) (timesteps : tensor1).
Variables (dev : string) (dt : dtype) (family : string).

Lemma init_timesteps_percent (p : LatentPreviewer) :
  init load_taehv args original timesteps dev dt family = Ok p ->
  timesteps_percent p = map (fun t => t / 1000) timesteps.
Proof.
  unfold init. destruct (preview_vae args) as [path|].
  - destruct (load_taehv path dev _); simpl; intros H; inversion H; reflexivity.
  - intros H; inversion H; reflexivity.
Qed.

Lemma init_dtype (p : LatentPreviewer) :
  init load_taehv args original timesteps dev dt family = Ok p ->
  dtype_ p = if dtype_eqb dt float8_e4m3fn then float16 else dt.
Proof.
  unfold init. destruct (preview_vae args) as [path|].
  - destruct (load_taehv path dev _); simpl; intros H; inversion H; simpl;
      destruct (dtype_eqb dt float8_e4m3fn); reflexivity.
  - intros H; inversion H; simpl.
    destruct (dtype_eqb dt float8_e4m3fn); reflexivity.
Qed.

Lemma init_linear_projection :
  preview_vae args = None ->
  exists p, init load_taehv args original timesteps dev dt family = Ok p
            /\ mode p = latent2rgb
            /\ decoder p = decode_latent2rgb_ref
            /\ scale_factor p = Some 8%nat
            /\ fps p = Z.quot (args_fps args) 4
            /\ model_type p = family
            /\ original_latents p = original.
Proof.
  intros H. unfold init. rewrite H. eexists. split; [reflexivity|].
  simpl. repeat split.
Qed.

End Construction.

Lemma dtype_eqb_eq (a b : dtype) : dtype_eqb a b = true <-> a = b.
Proof.
  split.
  - destruct a, b; simpl; intros H; try reflexivity; discriminate H.
  - intros ->. destruct b; reflexivity.
Qed.

(** C7, as stated, fails: for the raw schedule [500; 250] the previewer stores
    [500/1000; 250/1000], which is not the schedule divided by its maximum
    [500/500; 250/500]. *)
Lemma C7_schedule_not_divided_by_max :
  exists p,
    init no_loader (linear_args 16) [] [500; 250]%R "cpu" float32 "hunyuan" = Ok p
    /\ timesteps_percent p <> schedule_divided_by_max [500; 250]%R.
Proof.
  eexists. split; [reflexivity|].
  simpl. unfold list_max, schedule_divided_by_max, list_max. simpl.
  intros H. inversion H as [[H1 H2]].
  assert (Hm : Rmax 250 500 = 500%R) by (apply Rmax_right; lra).
  rewrite Hm in H1. lra.
Qed.

(** C7, amended: the stored schedule is the raw sequence with each value
    divided by the constant 1000; every stored fraction lies in [0,1] when
    every raw value lies in [0,1000]. *)
Theorem C7_schedule_divided_by_1000
  (load_taehv : string -> string -> dtype -> result TAEHV)
  (args : Args) (original : tensor5) (timesteps : tensor1)
  (dev : string) (dt : dtype) (family : string) (p : LatentPreviewer) :
  init load_taehv args original timesteps dev dt family = Ok p ->
  timesteps_percent p = map (fun t => t / 1000)%R timesteps
  /\ (Forall (fun t => 0 <= t <= 1000)%R timesteps ->
      Forall (fun f => 0 <= f <= 1)%R (timesteps_percent p)).
Proof.
  intros H. apply init_timesteps_percent in H. split; [exact H|].
  rewrite H. intros Hall. apply Forall_map.
  eapply Forall_impl; [|exact Hall]. simpl. intros t Ht. lra.
Qed.

Lemma C7_schedule_divided_by_1000_witness :
  exists p,
    init no_loader (linear_args 16) [] [1000; 500; 0]%R "cpu" float32 "wan" = Ok p
    /\ timesteps_percent p = map (fun t => t / 1000)%R [1000; 500; 0]%R
    /\ Forall (fun f => 0 <= f <= 1)%R (timesteps_percent p).
Proof.
  eexists. split; [reflexivity|].
  destruct (C7_schedule_divided_by_1000 no_loader (linear_args 16) []
              [1000; 500; 0]%R "cpu" float32 "wan" _ eq_refl) as [H1 H2].
  split; [exact H1|]. apply H2.
  repeat constructor; lra.
Defined.

(** C8, as stated, fails: [float8_e5m2] is an 8-bit floating-point format,
    yet a previewer built with it keeps it as its working precision. *)
Lemma C8_float8_e5m2_not_coerced :
  is_float8 float8_e5m2 = true
  /\ exists p,
       init no_loader (linear_args 16) [] [] "cpu" float8_e5m2 "hunyuan" = Ok p
       /\ dtype_ p = float8_e5m2
       /\ dtype_ p <> float16.
Proof.
  split; [reflexivity|]. eexists. split; [reflexivity|].
  simpl. split; [reflexivity|discriminate].
Qed.

(** C8, amended: a request for [float8_e4m3fn] is coerced to half precision
    at construction; every other requested precision, the remaining 8-bit
    floating-point formats included, is kept unchanged. *)
Theorem C8_only_e4m3fn_coerced
  (load_taehv : string -> string -> dtype -> result TAEHV)
  (args : Args) (original : tensor5) (timesteps : tensor1)
  (dev : string) (dt : dtype) (family : string) (p : LatentPreviewer) :
  init load_taehv args original timesteps dev dt family = Ok p ->
  (dt = float8_e4m3fn -> dtype_ p = float16)
  /\ (dt <> float8_e4m3fn -> dtype_ p = dt).
Proof.
  intros H. apply init_dtype in H. rewrite H. split.
  - intros ->. reflexivity.
  - intros Hne. destruct (dtype_eqb dt float8_e4m3fn) eqn:E; [|reflexivity].
    apply dtype_eqb_eq in E. contradiction.
Qed.

Lemma C8_only_e4m3fn_coerced_witness :
  exists p,
    init no_loader (linear_args 16) [] [] "cpu" float8_e4m3fn "hunyuan" = Ok p
    /\ dtype_ p = float16.
Proof.
  eexists. split; [reflexivity|].
  exact (proj1 (C8_only_e4m3fn_coerced no_loader (linear_args 16) [] []
                  "cpu" float8_e4m3fn "hunyuan" _ eq_refl) eq_refl).
Defined.

(** ** Unsupported model families *)

Lemma model_params_unlisted (family : string) :
  family <> "hunyuan"%string -> family <> "wan"%string ->
  model_params family = None.
Proof.
  intros H1 H2. unfold model_params.
  apply String.eqb_neq in H1. apply String.eqb_neq in H2.
  rewrite H1, H2. reflexivity.
Qed.

Lemma model_params_listed (family : string) (table : CoefficientTable) :
  model_params family = Some table ->
  family = "hunyuan"%string \/ family = "wan"%string.
Proof.
  unfold model_params.
  destruct (String.eqb family "hunyuan") eqn:E1.
  - apply String.eqb_eq in E1. auto.
  - destruct (String.eqb family "wan") eqn:E2; [|discriminate].
    apply String.eqb_eq in E2. auto.
Qed.

Lemma decode_latent2rgb_unlisted (self : LatentPreviewer)
  (latents : tensor5) (step : Z) :
  model_params (model_type self) = None ->
  decode_latent2rgb self latents step = Raise (unsupported (model_type self)).
Proof.
  intros H. unfold decode_latent2rgb. rewrite H. reflexivity.
Qed.

(** C4: for a model family other than "hunyuan" and "wan", the
    linear-projection decoder raises [ValueError] whatever the latent and the
    step; a [preview] call of a linear-projection previewer then ends in an
    exception with the event log untouched (nothing is handed to the frame
    sink, no file is written), and that exception is the decoder's
    [ValueError] as soon as the noise normalizer itself went through. *)
Theorem C4_unlisted_family_raises (av : Stream) (self : LatentPreviewer)
  (noisy_latents : Latent) (latents : tensor5) (step : Z) (log : list event) :
  model_type self <> "hunyuan"%string ->
  model_type self <> "wan"%string ->
  decoder self = decode_latent2rgb_ref ->
  decode_latent2rgb self latents step = Raise (unsupported (model_type self))
  /\ exists e,
       preview av self noisy_latents step log = (Raise e, log)
       /\ (is_ok (subtract_original_and_normalize
                    self (batched_view noisy_latents) step) = true ->
           e = unsupported (model_type self)).
Proof.
  intros H1 H2 Hdec.
  pose proof (model_params_unlisted _ H1 H2) as Hnone.
  split; [apply decode_latent2rgb_unlisted; exact Hnone|].
  apply String.eqb_neq in H2.
  unfold preview, bind_io, lift, preview_frames.
  destruct noisy_latents as [t|t]; simpl batched_view; try rewrite H2;
    destruct (subtract_original_and_normalize self _ step) as [d|e] eqn:E;
    simpl.
  - unfold run_decoder. rewrite Hdec, decode_latent2rgb_unlisted by exact Hnone.
    eexists; split; [reflexivity|]. intros _. reflexivity.
  - eexists; split; [reflexivity|]. intros X; discriminate X.
  - unfold run_decoder. rewrite Hdec, decode_latent2rgb_unlisted by exact Hnone.
    eexists; split; [reflexivity|]. intros _. reflexivity.
  - eexists; split; [reflexivity|]. intros X; discriminate X.
Qed.

Lemma C4_unlisted_family_raises_witness :
  decode_latent2rgb sd3_previewer [[[[[1%R]]]]] 0
  = Raise (ValueError "Unsupported model type: sd3")
  /\ exists e,
       preview null_stream sd3_previewer (Batched [[[[[1%R]]]]]) 0 []
       = (Raise e, [])
       /\ (is_ok (subtract_original_and_normalize
                    sd3_previewer (batched_view (Batched [[[[[1%R]]]]])) 0) = true ->
           e = ValueError "Unsupported model type: sd3").
Proof.
  apply (C4_unlisted_family_raises null_stream sd3_previewer
           (Batched [[[[[1%R]]]]]) [[[[[1%R]]]]] 0 []).
  - simpl. discriminate.
  - simpl. discriminate.
  - reflexivity.
Defined.

(** ** The decoder reads batch element 0 only *)

Lemma getitem_select_frame_0 (t : nat) (a b : tensor5) :
  nth_error a 0 = nth_error b 0 ->
  getitem (select_frame t a) 0 = getitem (select_frame t b) 0.
Proof.
  destruct a as [|x a], b as [|y b]; simpl; intros H;
    try discriminate H; try reflexivity.
  inversion H; subst. unfold getitem, select_frame.
  cbn [map length]. rewrite !length_map.
  replace (0 <? 0)%Z with false by reflexivity.
  assert (Hpos : forall n : nat,
             ((0 <=? 0) && (0 <? Z.of_nat (S n)))%Z = true).
  { intros n. apply andb_true_intro. split; [reflexivity|].
    apply Z.ltb_lt. lia. }
  rewrite !Hpos. reflexivity.
Qed.

Lemma mapM_ext {A B : Type} (f g : A -> result B) (l : list A) :
  (forall x, In x l -> f x = g x) -> mapM f l = mapM g l.
Proof.
  induction l as [|x l IH]; simpl; intros H; [reflexivity|].
  rewrite (H x) by auto. rewrite IH by auto. reflexivity.
Qed.

Lemma project_frames_batch0 (table : CoefficientTable) (a b : tensor5) :
  shape5 a = shape5 b ->
  nth_error a 0 = nth_error b 0 ->
  project_frames table a = project_frames table b.
Proof.
  intros Hs H0. unfold project_frames. rewrite Hs.
  erewrite mapM_ext; [reflexivity|].
  intros t _. simpl. rewrite (getitem_select_frame_0 t a b H0). reflexivity.
Qed.

(** C10: two 5-D latents of the same shape that agree at batch index 0 are
    decoded by [decode_latent2rgb] to the same result (the same frames or the
    same exception); the other batch elements are not read. *)
Theorem C10_decode_reads_batch0_only (self : LatentPreviewer)
  (a b : tensor5) (step : Z) :
  shape5 a = shape5 b ->
  nth_error a 0 = nth_error b 0 ->
  decode_latent2rgb self a step = decode_latent2rgb self b step.
Proof.
  intros Hs H0. unfold decode_latent2rgb.
  destruct (model_params (model_type self)) as [table|]; [|reflexivity].
  rewrite (project_frames_batch0 table a b Hs H0). reflexivity.
Qed.

Lemma C10_decode_reads_batch0_only_witness :
  decode_latent2rgb hunyuan_previewer (two_batches 2) 0
  = decode_latent2rgb hunyuan_previewer (two_batches 3) 0.
Proof.
  apply (C10_decode_reads_batch0_only hunyuan_previewer
           (two_batches 2) (two_batches 3) 0); reflexivity.
Defined.

(** ** [str.replace] on a path that ends in the pattern *)

Section Replace.

Open Scope string_scope.

Lemma append_assoc (a b c : string) : (a ++ b) ++ c = a ++ (b ++ c).
Proof. induction a as [|x a IH]; simpl; [reflexivity|]. now rewrite IH. Qed.

Lemma append_empty_r (a : string) : a ++ "" = a.
Proof. induction a as [|x a IH]; simpl; [reflexivity|]. now rewrite IH. Qed.





Variables (c : ascii) (rest new : string).
Hypothesis fresh : occurs c rest = false.

Let old : string := String c rest.



End Replace.



(** ** The frame sink *)

Section FrameSink.

Variable av : Stream.

Lemma mux_all_log (packets : list packet) (log : list event) :
  exists added,
    snd (mux_all av packets log) = log ++ added
    /\ forallb stream_event added = true
    /\ encoded_frames added = [].
Proof.
  revert log. induction packets as [|p packets IH]; intros log.
  - exists []. simpl. rewrite app_nil_r. auto.
  - unfold mux_all. simpl. unfold bind_io at 1. unfold bind_io at 1.
    unfold lift at 1. destruct (st_mux av p) as [u|e].
    + unfold emit at 1.
      destruct (IH (log ++ [Mux p])) as (added & Hlog & Hev & Henc).
      exists (Mux p :: added). unfold mux_all in Hlog. rewrite Hlog.
      rewrite <- app_assoc. simpl. auto.
    + exists []. simpl. rewrite app_nil_r. auto.
Qed.

Lemma mux_all_ok (packets : list packet) (log : list event) :
  (forall p, is_ok (st_mux av p) = true) ->
  fst (mux_all av packets log) = Ok tt.
Proof.
  intros Hmux. revert log. induction packets as [|p packets IH]; intros log.
  - reflexivity.
  - unfold mux_all. simpl. unfold bind_io at 1. unfold bind_io at 1.
    unfold lift at 1. specialize (Hmux p).
    destruct (st_mux av p) as [u|e]; [|discriminate].
    unfold emit at 1. apply IH.
Qed.

Lemma encode_frame_log (s : st av) (frame : tensor3) (log : list event) :
  exists added,
    snd (encode_frame av s frame log) = log ++ added
    /\ forallb stream_event added = true
    /\ (is_ok (fst (encode_frame av s frame log)) = true ->
        encoded_frames added = [to_image frame]).
Proof.
  unfold encode_frame, bind_io, lift.
  destruct (st_encode av s (Some (to_image frame))) as [[packets s']|e].
  - unfold emit at 1. simpl fst.
    destruct (mux_all_log packets (log ++ [EncodeFrame (to_image frame)]))
      as (added & Hlog & Hev & Henc).
    destruct (mux_all av packets (log ++ [EncodeFrame (to_image frame)]))
      as [[u|e] log'] eqn:E; simpl in Hlog; subst log';
      exists (EncodeFrame (to_image frame) :: added);
      rewrite <- app_assoc; simpl; rewrite Henc; auto.
  - exists []. simpl. rewrite app_nil_r. split; [reflexivity|].
    split; [reflexivity|]. discriminate.
Qed.

Lemma encode_frame_ok (s : st av) (frame : tensor3) (log : list event) :
  never_fails av -> is_ok (fst (encode_frame av s frame log)) = true.
Proof.
  intros [Henc Hmux]. unfold encode_frame, bind_io, lift.
  specialize (Henc s (Some (to_image frame))).
  destruct (st_encode av s (Some (to_image frame))) as [[packets s']|e];
    [|discriminate].
  unfold emit at 1. simpl fst.
  pose proof (mux_all_ok packets (log ++ [EncodeFrame (to_image frame)]) Hmux) as H.
  destruct (mux_all av packets _) as [[u|e] log']; simpl in H; [|discriminate].
  reflexivity.
Qed.

Lemma encode_loop_log (frames : tensor4) (s : st av) (log : list event) :
  exists added,
    snd (fold_io (encode_frame av) s frames log) = log ++ added
    /\ forallb stream_event added = true
    /\ (is_ok (fst (fold_io (encode_frame av) s frames log)) = true ->
        encoded_frames added = map to_image frames).
Proof.
  revert s log. induction frames as [|frame frames IH]; intros s log.
  - exists []. simpl. rewrite app_nil_r. auto.
  - simpl. unfold bind_io.
    destruct (encode_frame_log s frame log) as (a1 & Hlog1 & Hev1 & Henc1).
    destruct (encode_frame av s frame log) as [[s'|e] log1];
      simpl in Hlog1, Henc1; subst log1.
    + destruct (IH s' (log ++ a1)) as (a2 & Hlog2 & Hev2 & Henc2).
      exists (a1 ++ a2). rewrite Hlog2, app_assoc. split; [reflexivity|].
      split; [rewrite forallb_app, Hev1, Hev2; reflexivity|].
      intros Hok. unfold encoded_frames in *. rewrite flat_map_app.
      rewrite Henc1 by reflexivity. rewrite Henc2 by exact Hok. reflexivity.
    + exists a1. simpl. split; [reflexivity|]. split; [exact Hev1|].
      discriminate.
Qed.

Lemma encode_loop_ok (frames : tensor4) (s : st av) (log : list event) :
  never_fails av ->
  is_ok (fst (fold_io (encode_frame av) s frames log)) = true.
Proof.
  intros Hnf. revert s log. induction frames as [|frame frames IH]; intros s log.
  - reflexivity.
  - simpl. unfold bind_io.
    pose proof (encode_frame_ok s frame log Hnf) as H.
    destruct (encode_frame av s frame log) as [[s'|e] log1]; [|discriminate].
    apply IH.
Qed.

End FrameSink.

Lemma stream_events_projections (l : list event) :
  forallb stream_event l = true ->
  opened_containers l = [] /\ saved_images l = []
  /\ stream_rates l = [] /\ closes l = 0%nat.
Proof.
  induction l as [|e l IH]; simpl; [auto|].
  intros H. apply andb_true_iff in H. destruct H as [He Hl].
  destruct (IH Hl) as (H1 & H2 & H3 & H4).
  unfold closes in *. destruct e; simpl in *; try discriminate; auto.
Qed.

Lemma stream_events_keep_open (l : list event) (s : container_state) :
  forallb stream_event l = true -> is_open s = true ->
  is_open (fold_left container_step l s) = true.
Proof.
  revert s. induction l as [|e l IH]; simpl; intros s H Hs; [exact Hs|].
  apply andb_true_iff in H. destruct H as [He Hl]. apply IH; [exact Hl|].
  destruct e; try discriminate He; destruct s; simpl in *;
    try discriminate; reflexivity.
Qed.

Lemma close_open_container (s : container_state) :
  is_open s = true -> container_step s AvClose = Closed.
Proof. destruct s; simpl; intros H; try discriminate; reflexivity. Qed.

Lemma stream_event_body (l : list event) :
  forallb stream_event l = true -> forallb body_event l = true.
Proof.
  induction l as [|e l IH]; simpl; [auto|]. intros H.
  apply andb_true_iff in H. destruct H as [He Hl]. rewrite (IH Hl).
  destruct e; try discriminate He; reflexivity.
Qed.


Lemma write_video_not_single (av : Stream) (self : LatentPreviewer)
  (frames : tensor4) (w h : nat) (target : string) :
  length frames <> 1%nat ->
  write_video av self frames w h target
  = write_stream av self frames w h target.
Proof.
  destruct frames as [|f1 [|f2 frames]]; simpl; intros H;
    try reflexivity. contradiction.
Qed.

(** Every run of the streaming branch logs the header, then encode, mux and
    flush events only; the close is logged exactly when the run returns. *)
Lemma write_stream_log (av : Stream) (self : LatentPreviewer)
  (frames : tensor4) (w h : nat) (target : string) (log : list event) :
  exists body,
    forallb body_event body = true
    /\ ((write_stream av self frames w h target log
         = (Ok tt, log ++ stream_header self w h target ++ body ++ [AvClose])
         /\ encoded_frames body = map to_image frames)
        \/ exists e,
            write_stream av self frames w h target log
            = (Raise e, log ++ stream_header self w h target ++ body)).
Proof.
  remember (write_stream av self frames w h target log) as r eqn:Hr.
  revert Hr. unfold write_stream, stream_header.
  unfold bind_io at 1. unfold emit at 1.
  unfold bind_io at 1. unfold emit at 1.
  unfold bind_io at 1. unfold emit at 1.
  unfold bind_io at 1.
  set (log3 := ((log ++ _) ++ _) ++ _).
  assert (Hlog3 : forall rest,
             log3 ++ rest
             = log ++ [AvOpen (replace ".png" ".mp4" target);
                       AddStream "libx264" (fps self);
                       SetFormat "yuv420p" w h] ++ rest).
  { intros rest. unfold log3. repeat rewrite <- app_assoc. reflexivity. }
  clearbody log3.
  destruct (encode_loop_log av frames (st_init av) log3)
    as (a1 & Hl1 & Hev1 & Henc1).
  destruct (fold_io (encode_frame av) (st_init av) frames log3)
    as [[s|e] log4]; simpl in Hl1, Henc1; subst log4.
  2:{ intros ->. exists a1. split; [apply stream_event_body; exact Hev1|].
      right. exists e. rewrite Hlog3. reflexivity. }
  unfold bind_io at 1. unfold lift at 1.
  destruct (st_encode av s None) as [[packets s']|e].
  2:{ intros ->. exists a1. split; [apply stream_event_body; exact Hev1|].
      right. exists e. rewrite Hlog3. reflexivity. }
  unfold bind_io at 1. unfold emit at 1.
  unfold bind_io at 1. simpl fst.
  destruct (mux_all_log av packets ((log3 ++ a1) ++ [EncodeFlush]))
    as (a2 & Hl2 & Hev2 & Henc2).
  assert (Hbody : forallb body_event (a1 ++ EncodeFlush :: a2) = true).
  { rewrite forallb_app. simpl.
    rewrite (stream_event_body _ Hev1), (stream_event_body _ Hev2).
    reflexivity. }
  destruct (mux_all av packets ((log3 ++ a1) ++ [EncodeFlush]))
    as [[u|e] log5]; simpl in Hl2; subst log5; intros ->;
    exists (a1 ++ EncodeFlush :: a2); (split; [exact Hbody|]).
  - left. unfold emit. destruct u. split.
    + f_equal. repeat rewrite <- app_assoc. rewrite Hlog3.
      simpl. repeat rewrite <- app_assoc. reflexivity.
    + unfold encoded_frames in *. rewrite flat_map_app. simpl.
      rewrite Henc1 by reflexivity. rewrite Henc2. apply app_nil_r.
  - right. exists e. f_equal. repeat rewrite <- app_assoc. rewrite Hlog3.
    reflexivity.
Qed.

Lemma write_stream_ok (av : Stream) (self : LatentPreviewer)
  (frames : tensor4) (w h : nat) (target : string) (log : list event) :
  never_fails av ->
  fst (write_stream av self frames w h target log) = Ok tt.
Proof.
  intros Hnf. unfold write_stream.
  unfold bind_io at 1. unfold emit at 1.
  unfold bind_io at 1. unfold emit at 1.
  unfold bind_io at 1. unfold emit at 1.
  unfold bind_io at 1.
  set (log3 := ((log ++ _) ++ _) ++ _).
  pose proof (encode_loop_ok av frames (st_init av) log3 Hnf) as H.
  destruct (fold_io (encode_frame av) (st_init av) frames log3)
    as [[s|e] log4]; [|discriminate].
  unfold bind_io at 1. unfold lift at 1.
  destruct Hnf as [Henc Hmux]. specialize (Henc s None).
  destruct (st_encode av s None) as [[packets s']|e]; [|discriminate].
  unfold bind_io at 1. unfold emit at 1. unfold bind_io at 1. simpl fst.
  pose proof (mux_all_ok av packets ((log4 ++ [EncodeFlush])) Hmux) as Hm.
  destruct (mux_all av packets (log4 ++ [EncodeFlush])) as [[[]|e] log5];
    simpl in Hm; [|discriminate].
  reflexivity.
Qed.

Lemma body_events_keep_open (l : list event) (s : container_state) :
  forallb body_event l = true -> is_open s = true ->
  is_open (fold_left container_step l s) = true.
Proof.
  revert s. induction l as [|e l IH]; simpl; intros s H Hs; [exact Hs|].
  apply andb_true_iff in H. destruct H as [He Hl]. apply IH; [exact Hl|].
  destruct e; try discriminate He; destruct s; simpl in *;
    try discriminate; reflexivity.
Qed.

Lemma body_events_projections (l : list event) :
  forallb body_event l = true ->
  opened_containers l = [] /\ saved_images l = []
  /\ stream_rates l = [] /\ closes l = 0%nat.
Proof.
  induction l as [|e l IH]; simpl; [auto|].
  intros H. apply andb_true_iff in H. destruct H as [He Hl].
  destruct (IH Hl) as (H1 & H2 & H3 & H4).
  unfold closes in *. destruct e; simpl in *; try discriminate; auto.
Qed.

Lemma container_after_header (self : LatentPreviewer) (w h : nat)
  (target : string) (log body : list event) :
  forallb body_event body = true ->
  is_open (container_of (log ++ stream_header self w h target ++ body)) = true.
Proof.
  intros Hb. unfold container_of. rewrite !fold_left_app.
  apply body_events_keep_open; [exact Hb|]. reflexivity.
Qed.

Lemma mux_all_trace (av : Stream) (packets : list packet)
  (log : list event) :
  (forall p, is_ok (st_mux av p) = true) ->
  mux_all av packets log = (Ok tt, log ++ map Mux packets).
Proof.
  intros Hmux. revert log. induction packets as [|p packets IH]; intros log.
  - simpl. unfold ret. rewrite app_nil_r. reflexivity.
  - unfold mux_all. simpl. unfold bind_io at 1. unfold bind_io at 1.
    unfold lift at 1. pose proof (Hmux p) as Hp.
    destruct (st_mux av p) as [u|e]; [|discriminate].
    unfold emit at 1. fold (mux_all av packets). rewrite IH.
    rewrite <- app_assoc. reflexivity.
Qed.

Lemma encode_loop_trace (av : Stream) (frames : tensor4) :
  never_fails av ->
  forall (s : st av) (log : list event),
    fold_io (encode_frame av) s frames log
    = (Ok (snd (frames_trace av s (map to_image frames))),
       log ++ fst (frames_trace av s (map to_image frames))).
Proof.
  intros [Henc Hmux]. induction frames as [|frame frames IH]; intros s log.
  - simpl. unfold ret. rewrite app_nil_r. reflexivity.
  - cbn [fold_io map frames_trace]. unfold bind_io at 1.
    unfold encode_frame, bind_io, lift.
    pose proof (Henc s (Some (to_image frame))) as Hs.
    destruct (st_encode av s (Some (to_image frame))) as [[packets s']|e];
      [|discriminate].
    unfold emit at 1. cbn [fst snd].
    rewrite (mux_all_trace av packets _ Hmux). unfold ret.
    fold (bind_io (A := st av) (B := st av)).
    rewrite IH. cbn [fst snd]. rewrite <- !app_assoc. reflexivity.
Qed.

Lemma write_stream_trace (av : Stream) (self : LatentPreviewer)
  (frames : tensor4) (w h : nat) (target : string) (log : list event) :
  never_fails av ->
  write_stream av self frames w h target log
  = (Ok tt,
     log ++ stream_header self w h target
         ++ stream_trace av (map to_image frames) ++ [AvClose]).
Proof.
  intros Hnf. unfold write_stream, stream_header, stream_trace, flush_trace.
  unfold bind_io at 1. unfold emit at 1.
  unfold bind_io at 1. unfold emit at 1.
  unfold bind_io at 1. unfold emit at 1.
  unfold bind_io at 1.
  rewrite (encode_loop_trace av frames Hnf).
  destruct Hnf as [Henc Hmux].
  set (r := frames_trace av (st_init av) (map to_image frames)).
  unfold bind_io at 1. unfold lift at 1.
  pose proof (Henc (snd r) None) as Hs.
  destruct (st_encode av (snd r) None) as [[packets s']|e]; [|discriminate].
  unfold bind_io at 1. unfold emit at 1. unfold bind_io at 1. cbn [fst].
  rewrite (mux_all_trace av packets _ Hmux). unfold emit.
  rewrite <- !app_assoc. reflexivity.
Qed.


Lemma write_video_many (av : Stream) (self : LatentPreviewer)
  (frames : tensor4) (w h : nat) (target : string) (log : list event) :
  (1 < length frames)%nat -> never_fails av ->
  exists added,
    write_video av self frames w h target log = (Ok tt, log ++ added)
    /\ opened_containers added = [replace ".png" ".mp4" target]
    /\ saved_images added = []
    /\ stream_rates added = [fps self]
    /\ encoded_frames added = map to_image frames
    /\ closes added = 1%nat.
Proof.
  intros Hlen Hnf.
  rewrite write_video_not_single by lia.
  destruct (write_stream_log av self frames w h target log)
    as (body & Hbody & [[Hrun Henc]|[e Hrun]]).
  - destruct (body_events_projections body Hbody) as (H1 & H2 & H3 & H4).
    exists (stream_header self w h target ++ body ++ [AvClose]).
    split; [exact Hrun|].
    unfold opened_containers, saved_images, stream_rates, encoded_frames,
      closes in *.
    rewrite !flat_map_app, !filter_app, !length_app.
    rewrite H1, H2, H3, H4, Henc. simpl. rewrite !app_nil_r.
    repeat (split; [reflexivity|]). reflexivity.
  - pose proof (write_stream_ok av self frames w h target log Hnf) as Hok.
    rewrite Hrun in Hok. discriminate Hok.
Qed.


Lemma null_stream_never_fails : never_fails null_stream.
Proof. split; intros; reflexivity. Qed.

Lemma delaying_stream_never_fails : never_fails delaying_stream.
Proof. split; [intros [|n] f|intros p]; reflexivity. Qed.


(** C5, as stated, fails: when the encoder raises on the second of two
    frames, [write_video] ends with that exception and the container it
    opened is still in the encoding state, never closed. *)
Lemma C5_container_left_open_on_error :
  exists log',
    write_video failing_stream hunyuan_previewer [gray_frame; gray_frame]
      1 1 default_target []
    = (Raise (AVError "encoder failure"), log')
    /\ container_of log' = Encoding 1
    /\ closes log' = 0%nat.
Proof.
  eexists. split; [reflexivity|]. split; reflexivity.
Qed.

(** C5, amended: the container opened for a multi-frame write reaches the
    closed state when the write returns normally, which it does whenever no
    encode or mux call raises; when such a call raises, the exception
    propagates and the container is left open. *)
Theorem C5_closed_when_write_returns (av : Stream) (self : LatentPreviewer)
  (frames : tensor4) (w h : nat) (target : string) (log : list event) :
  length frames <> 1%nat ->
  let r := write_video av self frames w h target log in
  (never_fails av -> fst r = Ok tt)
  /\ (fst r = Ok tt -> container_of (snd r) = Closed)
  /\ (forall e, fst r = Raise e ->
        is_open (container_of (snd r)) = true
        /\ container_of (snd r) <> Closed).
Proof.
  intros Hlen. rewrite write_video_not_single by exact Hlen. cbv zeta.
  split; [apply write_stream_ok|].
  destruct (write_stream_log av self frames w h target log)
    as (body & Hbody & [[Hrun Henc]|[e Hrun]]); rewrite Hrun;
    cbn [fst snd].
  - split; [|intros e He; discriminate He]. intros _.
    pose proof (container_after_header self w h target log body Hbody) as Hopen.
    unfold container_of in *.
    replace (log ++ stream_header self w h target ++ body ++ [AvClose])
      with ((log ++ stream_header self w h target ++ body) ++ [AvClose])
      by (repeat rewrite <- app_assoc; reflexivity).
    rewrite (fold_left_app container_step
               (log ++ stream_header self w h target ++ body) [AvClose]).
    cbn [fold_left]. apply close_open_container. exact Hopen.
  - split; [intros He; discriminate He|]. intros e' _.
    pose proof (container_after_header self w h target log body Hbody) as Hopen.
    split; [exact Hopen|]. intros Hc. rewrite Hc in Hopen. discriminate Hopen.
Qed.

Lemma C5_closed_when_write_returns_witness :
  container_of
    (snd (write_video null_stream hunyuan_previewer [gray_frame; gray_frame]
            1 1 default_target []))
  = Closed.
Proof.
  destruct (C5_closed_when_write_returns null_stream hunyuan_previewer
              [gray_frame; gray_frame] 1 1 default_target [])
    as (Hok & Hclosed & _).
  - simpl. discriminate.
  - apply Hclosed, Hok, null_stream_never_fails.
Defined.

(** ** Shapes of nested lists *)

Section Shapes.

Context {A : Type}.

Lemma dim_impl (n : nat) (P Q : A -> Prop) (t : list A) :
  (forall x, P x -> Q x) -> dim n P t -> dim n Q t.
Proof.
  intros H [Hl Hf]. split; [exact Hl|]. eapply Forall_impl; eauto.
Qed.

Lemma dim_and (n : nat) (P Q : A -> Prop) (t : list A) :
  dim n P t -> Forall Q t -> dim n (fun x => P x /\ Q x) t.
Proof.
  intros [Hl Hf] Hq. split; [exact Hl|].
  apply Forall_forall. intros x Hx. rewrite Forall_forall in Hf, Hq. auto.
Qed.

Lemma dim_repeat (n : nat) (v : A) (t : list A) :
  dim n (eq v) t <-> t = repeat v n.
Proof.
  split.
  - intros [Hl Hf]. subst n. apply Forall_eq_repeat. exact Hf.
  - intros ->. split; [apply repeat_length|].
    apply Forall_forall. intros x Hx. symmetry. eapply repeat_spec; eauto.
Qed.

Lemma dim_nth (n : nat) (P : A -> Prop) (t : list A) (i : nat) (d : A) :
  dim n P t -> (i < n)%nat -> P (nth i t d).
Proof.
  intros [Hl Hf] Hi. rewrite Forall_forall in Hf. apply Hf.
  apply nth_In. lia.
Qed.

Lemma dim_hd (n : nat) (P : A -> Prop) (t : list A) (d : A) :
  dim n P t -> (0 < n)%nat -> P (hd d t).
Proof.
  intros [Hl Hf] Hn. destruct t as [|x t]; simpl in *; [lia|].
  inversion Hf; assumption.
Qed.

Lemma zipcons_dim (P : A -> Prop) (k : nat) (r : list A) :
  forall (m : nat) (cols : list (list A)),
    dim m P r -> dim m (dim k P) cols ->
    dim m (dim (S k) P) (zipcons r cols).
Proof.
  induction r as [|x r IH]; intros m cols [Hl Hf] [Hcl Hcf].
  - simpl in *. subst m. split; [reflexivity|constructor].
  - destruct cols as [|c cols]; simpl in *; [lia|].
    inversion Hf; subst. inversion Hcf; subst.
    destruct (IH (length r) cols) as [Hl' Hf'].
    + split; [reflexivity|assumption].
    + split; [lia|assumption].
    + split; [simpl; lia|]. constructor; [|exact Hf'].
      match goal with H : dim k P c |- _ => destruct H as [Hc1 Hc2] end.
      split; [simpl; lia|]. constructor; assumption.
Qed.

Lemma transpose_dim (P : A -> Prop) (m : nat) (l : list (list A)) :
  forall n, (0 < n)%nat -> dim n (dim m P) l ->
            dim m (dim n P) (transpose l).
Proof.
  induction l as [|r rs IH]; intros n Hn [Hl Hf]; simpl in Hl; [lia|].
  inversion Hf as [|? ? Hr Hrs]; subst.
  destruct rs as [|r' rs].
  - simpl. destruct Hr as [Hr1 Hr2]. split; [rewrite length_map; exact Hr1|].
    apply Forall_map. eapply Forall_impl; [|exact Hr2].
    intros x Hx. split; [reflexivity|]. constructor; [exact Hx|constructor].
  - change (transpose (r :: r' :: rs)) with (zipcons r (transpose (r' :: rs))).
    apply zipcons_dim; [exact Hr|].
    apply IH; [simpl; lia|]. split; [reflexivity|exact Hrs].
Qed.

Lemma Forall_concat_dim (P : A -> Prop) (l : list (list A)) :
  Forall P (concat l) <-> Forall (Forall P) l.
Proof.
  induction l as [|x l IH]; simpl.
  - split; constructor.
  - rewrite Forall_app, IH. split.
    + intros [H1 H2]. constructor; assumption.
    + intros H. inversion H; auto.
Qed.

End Shapes.

Lemma map_dim {A B : Type} (f : A -> B) (n : nat) (P : A -> Prop)
  (Q : B -> Prop) (t : list A) :
  (forall x, P x -> Q (f x)) -> dim n P t -> dim n Q (map f t).
Proof.
  intros H [Hl Hf]. split; [rewrite length_map; exact Hl|].
  apply Forall_map. eapply Forall_impl; eauto.
Qed.

Lemma mapM_Forall {A B : Type} (f : A -> result B) (Q : B -> Prop)
  (l : list A) :
  Forall (fun x => exists y, f x = Ok y /\ Q y) l ->
  exists l', mapM f l = Ok l' /\ dim (length l) Q l'.
Proof.
  induction l as [|x l IH]; intros H.
  - exists []. split; [reflexivity|]. split; [reflexivity|constructor].
  - inversion H as [|? ? (y & Hy & Qy) Hl]; subst.
    destruct (IH Hl) as (l' & Hm & Hlen & Hq).
    exists (y :: l'). simpl. rewrite Hy. simpl. rewrite Hm. simpl.
    split; [reflexivity|]. split; [simpl; lia|constructor; assumption].
Qed.

Lemma mapM_dim {A B : Type} (f : A -> result B) (n : nat) (P : A -> Prop)
  (Q : B -> Prop) (t : list A) :
  (forall x, P x -> exists y, f x = Ok y /\ Q y) ->
  dim n P t -> exists t', mapM f t = Ok t' /\ dim n Q t'.
Proof.
  intros H [Hl Hf]. subst n. apply mapM_Forall.
  eapply Forall_impl; [|exact Hf]. exact H.
Qed.

Lemma permute120_dim {A : Type} (P : A -> Prop) (c h w : nat)
  (t : list (list (list A))) :
  (0 < c)%nat ->
  dim c (dim h (dim w P)) t -> dim h (dim w (dim c P)) (permute120 t).
Proof.
  intros Hc Ht. unfold permute120.
  apply (map_dim _ h (dim c (dim w P))).
  - intros x Hx. apply transpose_dim; assumption.
  - apply transpose_dim; assumption.
Qed.

Lemma permute201_dim {A : Type} (P : A -> Prop) (c h w : nat)
  (t : list (list (list A))) :
  (0 < h)%nat -> (0 < w)%nat ->
  dim h (dim w (dim c P)) t -> dim c (dim h (dim w P)) (permute201 t).
Proof.
  intros Hh Hw Ht. unfold permute201.
  apply transpose_dim; [exact Hh|].
  apply (map_dim _ h (dim w (dim c P))); [|exact Ht].
  intros x Hx. apply transpose_dim; assumption.
Qed.

(** ** Global minimum and maximum *)

Section MinMax.

Open Scope R_scope.

Lemma list_min_le (x : R) (xs : list R) :
  Forall (fun y => list_min x xs <= y) (x :: xs).
Proof.
  induction xs as [|a xs IH]; simpl.
  - constructor; [lra|constructor].
  - inversion IH as [|? ? Hx Hxs]; subst.
    pose proof (Rmin_l a (list_min x xs)).
    pose proof (Rmin_r a (list_min x xs)).
    constructor; [lra|]. constructor; [lra|].
    eapply Forall_impl; [|exact Hxs]. simpl. intros; lra.
Qed.

Lemma list_max_ge (x : R) (xs : list R) :
  Forall (fun y => y <= list_max x xs) (x :: xs).
Proof.
  induction xs as [|a xs IH]; simpl.
  - constructor; [lra|constructor].
  - inversion IH as [|? ? Hx Hxs]; subst.
    pose proof (Rmax_l a (list_max x xs)).
    pose proof (Rmax_r a (list_max x xs)).
    constructor; [lra|]. constructor; [lra|].
    eapply Forall_impl; [|exact Hxs]. simpl. intros; lra.
Qed.

Lemma list_min_in (x : R) (xs : list R) : In (list_min x xs) (x :: xs).
Proof.
  induction xs as [|a xs IH]; simpl; [auto|].
  unfold Rmin. destruct (Rle_dec a (list_min x xs)); [auto|].
  simpl in IH. destruct IH; auto.
Qed.

Lemma list_max_in (x : R) (xs : list R) : In (list_max x xs) (x :: xs).
Proof.
  induction xs as [|a xs IH]; simpl; [auto|].
  unfold Rmax. destruct (Rle_dec a (list_max x xs)); [|auto].
  simpl in IH. destruct IH; auto.
Qed.

Lemma tmin_tmax (xs : list R) :
  xs <> [] ->
  exists lo hi,
    tmin xs = Ok lo /\ tmax xs = Ok hi
    /\ In lo xs /\ In hi xs
    /\ Forall (fun x => lo <= x <= hi) xs.
Proof.
  destruct xs as [|x xs]; [contradiction|]. intros _.
  exists (list_min x xs), (list_max x xs).
  split; [reflexivity|]. split; [reflexivity|].
  split; [apply list_min_in|]. split; [apply list_max_in|].
  pose proof (list_min_le x xs) as Hlo. pose proof (list_max_ge x xs) as Hhi.
  rewrite Forall_forall in *. intros y Hy. split; auto.
Qed.

End MinMax.

(** ** Element properties of whole tensors *)

Lemma Forall_iff {A : Type} (P Q : A -> Prop) (l : list A) :
  (forall x, P x <-> Q x) -> (Forall P l <-> Forall Q l).
Proof.
  intros H. split; apply Forall_impl; intros x; apply H.
Qed.

Lemma all2_flatten (P : R -> Prop) (t : tensor2) :
  Forall (Forall P) t <-> Forall P (flatten2 t).
Proof. symmetry. apply Forall_concat_dim. Qed.

Lemma all3_flatten (P : R -> Prop) (t : tensor3) :
  Forall (Forall (Forall P)) t <-> Forall P (flatten3 t).
Proof.
  unfold flatten3. rewrite Forall_concat_dim, Forall_map.
  apply Forall_iff. intros x. apply all2_flatten.
Qed.

Lemma all4_flatten (P : R -> Prop) (t : tensor4) :
  all4 P t <-> Forall P (flatten4 t).
Proof.
  unfold all4, flatten4. rewrite Forall_concat_dim, Forall_map.
  apply Forall_iff. intros x. apply all3_flatten.
Qed.

Lemma dim4_all4 (P : R -> Prop) (a b c d : nat) (t : tensor4) :
  dim a (dim b (dim c (dim d P))) t -> all4 P t.
Proof.
  intros [_ H]. unfold all4.
  eapply Forall_impl; [|exact H]. intros x [_ Hx].
  eapply Forall_impl; [|exact Hx]. intros y [_ Hy].
  eapply Forall_impl; [|exact Hy]. intros z [_ Hz]. exact Hz.
Qed.

Lemma dim4_refine (P Q : R -> Prop) (a b c d : nat) (t : tensor4) :
  dim a (dim b (dim c (dim d P))) t -> all4 Q t ->
  dim a (dim b (dim c (dim d (fun x => P x /\ Q x)))) t.
Proof.
  unfold all4. intros [Hl H] Hq. split; [exact Hl|].
  rewrite Forall_forall in *. intros x Hx.
  specialize (H x Hx). specialize (Hq x Hx). destruct H as [Hl1 H].
  split; [exact Hl1|].
  rewrite Forall_forall in *. intros y Hy.
  specialize (H y Hy). specialize (Hq y Hy). destruct H as [Hl2 H].
  split; [exact Hl2|].
  rewrite Forall_forall in *. intros z Hz.
  specialize (H z Hz). specialize (Hq z Hz). destruct H as [Hl3 H].
  split; [exact Hl3|].
  rewrite Forall_forall in *. intros v Hv. split; auto.
Qed.

Lemma map4d_dim (g : R -> R) (P Q : R -> Prop) (a b c d : nat) (t : tensor4) :
  (forall x, P x -> Q (g x)) ->
  dim a (dim b (dim c (dim d P))) t ->
  dim a (dim b (dim c (dim d Q))) (map4d g t).
Proof.
  intros H Ht. unfold map4d, map3d, map2d.
  eapply map_dim; [|exact Ht]. intros x Hx.
  eapply map_dim; [|exact Hx]. intros y Hy.
  eapply map_dim; [|exact Hy]. intros z Hz.
  eapply map_dim; [|exact Hz]. exact H.
Qed.

Lemma dim4_nonempty (P : R -> Prop) (a b c d : nat) (t : tensor4) :
  (0 < a)%nat -> (0 < b)%nat -> (0 < c)%nat -> (0 < d)%nat ->
  dim a (dim b (dim c (dim d P))) t -> flatten4 t <> [].
Proof.
  intros Ha Hb Hc Hd [Hl H].
  destruct t as [|x t]; simpl in Hl; [lia|].
  apply Forall_inv in H. destruct H as [Hxl Hx].
  destruct x as [|y x]; simpl in Hxl; [lia|].
  apply Forall_inv in Hx. destruct Hx as [Hyl Hy].
  destruct y as [|z y]; simpl in Hyl; [lia|].
  apply Forall_inv in Hy. destruct Hy as [Hzl Hz].
  destruct z as [|v z]; simpl in Hzl; [lia|].
  unfold flatten4, flatten3, flatten2. simpl. discriminate.
Qed.

(** ** The linear-projection decoder *)

Lemma getitem_head {A : Type} (x : A) (l : list A) : getitem (x :: l) 0 = Ok x.
Proof.
  unfold getitem. cbn [length].
  replace (0 <? 0)%Z with false by reflexivity.
  assert (H : ((0 <=? 0) && (0 <? Z.of_nat (S (length l))))%Z = true).
  { apply andb_true_intro. split; [reflexivity|]. apply Z.ltb_lt. lia. }
  rewrite H. reflexivity.
Qed.

Lemma table_dims (family : string) (table : CoefficientTable) :
  model_params family = Some table ->
  dim 16 (dim 3 any) (rgb_factors table) /\ length (bias table) = 3%nat.
Proof.
  unfold model_params.
  destruct (String.eqb family "hunyuan");
    [|destruct (String.eqb family "wan"); [|discriminate]];
    intros H; inversion H; subst; (split; [|reflexivity]);
    (split; [reflexivity|]);
    repeat (constructor; [split; [reflexivity|repeat constructor]|]);
    constructor.
Qed.

Lemma linear1_ok (weight : list (list R)) (bias : list R) (c k : nat)
  (x : list R) :
  dim k (dim c any) weight -> length bias = k -> length x = c ->
  exists y,
    linear1 weight bias x
    = Ok (map (fun wb => dot x (fst wb) + snd wb)%R (combine weight bias))
    /\ linear1 weight bias x = Ok y /\ dim k any y.
Proof.
  intros [Hk Hw] Hb Hx. unfold linear1.
  assert (Hall : forallb (fun w => Nat.eqb (length w) (length x)) weight = true).
  { apply forallb_forall. intros w Hin. rewrite Forall_forall in Hw.
    destruct (Hw w Hin) as [Hl _]. apply Nat.eqb_eq. lia. }
  rewrite Hall. eexists. split; [reflexivity|]. split; [reflexivity|].
  split.
  - rewrite length_map, length_combine. lia.
  - apply Forall_forall. intros; exact I.
Qed.

Section Projection.

Variable table : CoefficientTable.
Variables (P : R -> Prop) (Q : list R -> Prop).
Variables (b c f h w : nat).

Hypothesis b_pos : (0 < b)%nat.
Hypothesis c_pos : (0 < c)%nat.
Hypothesis f_pos : (0 < f)%nat.

Hypothesis pixel :
  forall x, dim c P x ->
            exists y, linear1 (transpose (rgb_factors table)) (bias table) x = Ok y
                      /\ Q y.

Lemma project_frames_dim (latents : tensor5) :
  dim b (dim c (dim f (dim h (dim w P)))) latents ->
  exists stacked,
    project_frames table latents = Ok stacked
    /\ dim f (dim h (dim w Q)) stacked.
Proof.
  intros Hlat. unfold project_frames.
  assert (Hb0 : dim c (dim f (dim h (dim w P))) (hd [] latents)).
  { apply (dim_hd b); assumption. }
  assert (Hframes : nth 2 (shape5 latents) 0%nat = f).
  { unfold shape5, shape4. cbn [nth].
    destruct (dim_hd c _ (hd [] latents) [] Hb0 c_pos) as [Hl _].
    exact Hl. }
  rewrite Hframes.
  destruct latents as [|batch0 rest]; [destruct Hlat; simpl in *; lia|].
  simpl hd in Hb0.
  destruct (mapM_Forall
              (fun t =>
                 extracted <- getitem (select_frame t (batch0 :: rest)) 0 ;;
                 linear (transpose (rgb_factors table)) (bias table)
                        (permute120 extracted))
              (dim h (dim w Q)) (seq 0 f)) as (imgs & Hm & Himgs).
  { apply Forall_forall. intros t Ht. apply in_seq in Ht.
    unfold select_frame. cbn [map]. rewrite getitem_head. cbn [bind].
    unfold linear.
    apply (mapM_dim _ h (dim w (dim c P))).
    - intros row Hrow. apply (mapM_dim _ w (dim c P)); [exact pixel|exact Hrow].
    - apply permute120_dim; [exact c_pos|].
      eapply map_dim; [|exact Hb0]. intros ch Hch.
      apply (dim_nth f); [exact Hch|lia]. }
  rewrite Hm. cbn [bind]. rewrite length_seq in Himgs.
  exists imgs. split; [|exact Himgs].
  destruct imgs as [|i imgs]; [destruct Himgs; simpl in *; lia|reflexivity].
Qed.

End Projection.

Lemma permute0312_dim (P : R -> Prop) (f h w c : nat) (t : tensor4) :
  (0 < h)%nat -> (0 < w)%nat ->
  dim f (dim h (dim w (dim c P))) t ->
  dim f (dim c (dim h (dim w P))) (permute0312 t).
Proof.
  intros Hh Hw Ht. unfold permute0312.
  eapply map_dim; [|exact Ht]. intros x Hx.
  apply permute201_dim; assumption.
Qed.

Lemma rescale_range (lo hi x : R) :
  (lo < hi)%R -> (lo <= x <= hi)%R -> unit_interval ((x - lo) / (hi - lo)).
Proof.
  intros Hlt [H1 H2]. unfold unit_interval.
  assert (Hd : (0 < hi - lo)%R) by lra.
  split.
  - apply Rmult_le_pos; [lra|]. left. apply Rinv_0_lt_compat. exact Hd.
  - apply (Rmult_le_reg_r (hi - lo)); [exact Hd|].
    unfold Rdiv. rewrite Rmult_assoc, Rinv_l by lra. lra.
Qed.

(** C2: for a family with a coefficient table and a latent of shape
    (B, 16, F, H, W) with no empty axis, [decode_latent2rgb] returns; it
    takes the minimum [lo] and maximum [hi] over the whole stacked projection;
    when [hi > lo] the result is the stacked tensor mapped through
    [(x - lo) / (hi - lo)] (then permuted) and all its values lie in [0,1];
    otherwise all elements are equal and the stacked tensor is returned as it
    is (permuted). *)
Theorem C2_rescale_to_unit_interval (self : LatentPreviewer)
  (table : CoefficientTable) (b f h w : nat) (latents : tensor5) (step : Z) :
  model_params (model_type self) = Some table ->
  (0 < b)%nat -> (0 < f)%nat -> (0 < h)%nat -> (0 < w)%nat ->
  dim b (dim 16 (dim f (dim h (dim w any)))) latents ->
  exists stacked lo hi out,
    project_frames table latents = Ok stacked
    /\ tmin (flatten4 stacked) = Ok lo
    /\ tmax (flatten4 stacked) = Ok hi
    /\ In lo (flatten4 stacked) /\ In hi (flatten4 stacked)
    /\ Forall (fun x => lo <= x <= hi)%R (flatten4 stacked)
    /\ decode_latent2rgb self latents step = Ok out
    /\ ((lo < hi)%R ->
        out = permute0312 (map4d (fun x => (x - lo) / (hi - lo))%R stacked)
        /\ dim f (dim 3 (dim h (dim w unit_interval))) out
        /\ Forall unit_interval (flatten4 out))
    /\ (~ (lo < hi)%R ->
        out = permute0312 stacked
        /\ Forall (eq lo) (flatten4 stacked)).
Proof.
  intros Htable Hb Hf Hh Hw Hlat.
  destruct (table_dims _ _ Htable) as [Hfac Hbias].
  assert (Hweight : dim 3 (dim 16 any) (transpose (rgb_factors table))).
  { apply transpose_dim; [lia|exact Hfac]. }
  destruct (project_frames_dim table any (dim 3 any) b 16 f h w Hb
              ltac:(lia) Hf) with (latents := latents)
    as (stacked & Hproj & Hstacked); [|exact Hlat|].
  { intros x [Hx _].
    destruct (linear1_ok _ _ 16 3 x Hweight Hbias Hx) as (y & _ & Hy & Hd).
    exists y. split; assumption. }
  pose proof (dim4_nonempty any f h w 3 stacked Hf Hh Hw ltac:(lia) Hstacked)
    as Hne.
  destruct (tmin_tmax _ Hne) as (lo & hi & Hlo & Hhi & Hinlo & Hinhi & Hrange).
  exists stacked, lo, hi.
  unfold decode_latent2rgb. rewrite Htable, Hproj. cbn [bind].
  rewrite Hlo, Hhi. cbn [bind]. unfold rescale.
  eexists. repeat (split; [first [eassumption|reflexivity]|]).
  destruct (Rlt_dec lo hi) as [Hlt|Hge]; split; intros Hcase;
    try contradiction.
  - split; [reflexivity|].
    assert (Hout : dim f (dim 3 (dim h (dim w unit_interval)))
                     (permute0312
                        (map4d (fun x => (x - lo) / (hi - lo))%R stacked))).
    { apply permute0312_dim; [exact Hh|exact Hw|].
      apply (map4d_dim _ (fun x => any x /\ (lo <= x <= hi)%R)).
      - intros x [_ Hx]. apply rescale_range; assumption.
      - apply dim4_refine; [exact Hstacked|].
        apply all4_flatten. exact Hrange. }
    split; [exact Hout|]. apply all4_flatten. eapply dim4_all4. exact Hout.
  - split; [reflexivity|].
    rewrite Forall_forall in *. intros x Hx.
    pose proof (Hrange x Hx). pose proof (Hrange lo Hinlo).
    pose proof (Hrange hi Hinhi). lra.
Qed.

Lemma repeat_dim {A : Type} (P : A -> Prop) (x : A) (n : nat) :
  P x -> dim n P (repeat x n).
Proof.
  intros H. split; [apply repeat_length|].
  apply Forall_forall. intros y Hy. apply repeat_spec in Hy. subst. exact H.
Qed.

Lemma full5_dim (P : R -> Prop) (b c f h w : nat) (v : R) :
  P v -> dim b (dim c (dim f (dim h (dim w P)))) (full5 b c f h w v).
Proof.
  intros H. unfold full5, full4. repeat apply repeat_dim. exact H.
Qed.

Lemma C2_rescale_to_unit_interval_witness :
  exists out,
    decode_latent2rgb hunyuan_previewer (full5 1 16 2 8 8 0%R) 0 = Ok out.
Proof.
  destruct (C2_rescale_to_unit_interval hunyuan_previewer hunyuan_table
              1 2 8 8 (full5 1 16 2 8 8 0%R) 0 eq_refl
              ltac:(lia) ltac:(lia) ltac:(lia) ltac:(lia)
              (full5_dim any 1 16 2 8 8 0%R I))
    as (stacked & lo & hi & out & _ & _ & _ & _ & _ & _ & Hdec & _).
  exists out. exact Hdec.
Defined.

(** ** The noise normalizer *)

Lemma zipM_Forall2 {A B C : Type} (f : A -> B -> result C) (g : A -> B -> C)
  (rel : A -> B -> Prop) (a : list A) (b : list B) :
  (forall x y, rel x y -> f x y = Ok (g x y)) ->
  Forall2 rel a b -> zipM f a b = Ok (map2 g a b).
Proof.
  intros Hf H. induction H as [|x y a b Hxy Hab IH]; [reflexivity|].
  simpl. rewrite (Hf x y Hxy). cbn [bind]. rewrite IH. reflexivity.
Qed.

Lemma broadcast_Forall2 {A B C : Type} (f : A -> B -> result C)
  (g : A -> B -> C) (rel : A -> B -> Prop) (a : list A) (b : list B) :
  (forall x y, rel x y -> f x y = Ok (g x y)) ->
  Forall2 rel a b -> broadcast f a b = Ok (map2 g a b).
Proof.
  intros Hf H. unfold broadcast.
  rewrite (Forall2_length H), Nat.eqb_refl.
  eapply zipM_Forall2; eauto.
Qed.

Lemma sub5_same_shape (a b : tensor5) :
  same_shape5 a b -> sub5 a b = Ok (zip5 Rminus a b).
Proof.
  unfold sub5, sub4, sub3, sub2, sub1, zip5.
  apply broadcast_Forall2. intros a4 b4.
  apply broadcast_Forall2. intros a3 b3.
  apply broadcast_Forall2. intros a2 b2.
  apply broadcast_Forall2. intros a1 b1.
  apply broadcast_Forall2. intros x y _. reflexivity.
Qed.

Lemma Forall2_map_r {A B B' : Type} (rel : A -> B -> Prop)
  (rel' : A -> B' -> Prop) (f : B -> B') (a : list A) (b : list B) :
  (forall x y, rel x y -> rel' x (f y)) ->
  Forall2 rel a b -> Forall2 rel' a (map f b).
Proof.
  intros Hf H. induction H; simpl; constructor; auto.
Qed.

Lemma same_shape5_map5d (g : R -> R) (a b : tensor5) :
  same_shape5 a b -> same_shape5 a (map5d g b).
Proof.
  unfold same_shape5, same_shape4, same_shape3, same_shape2, same_shape1,
    map5d, map4d, map3d, map2d.
  apply Forall2_map_r. intros a4 b4.
  apply Forall2_map_r. intros a3 b3.
  apply Forall2_map_r. intros a2 b2.
  apply Forall2_map_r. intros a1 b1.
  apply Forall2_map_r. auto.
Qed.

Lemma flatten5_map5d (g : R -> R) (t : tensor5) :
  flatten5 (map5d g t) = map g (flatten5 t).
Proof.
  unfold flatten5, flatten4, flatten3, flatten2, map5d, map4d, map3d, map2d.
  rewrite !concat_map, !map_map. f_equal. apply map_ext. intros t4.
  rewrite !concat_map, !map_map. f_equal. apply map_ext. intros t3.
  rewrite !concat_map, !map_map. f_equal. apply map_ext. intros t2.
  rewrite !concat_map. reflexivity.
Qed.

Section Statistics.

Open Scope R_scope.

Lemma sum_map_affine (m k : R) (xs : list R) :
  sum (map (fun x => (x - m) / k) xs) = (sum xs - INR (length xs) * m) / k.
Proof.
  induction xs as [|x xs IH].
  - simpl. unfold Rdiv. ring.
  - cbn [map sum fold_right length]. fold (sum (map (fun x => (x - m) / k) xs)).
    fold (sum xs). rewrite IH, S_INR. unfold Rdiv. ring.
Qed.

Lemma sum_sqdev_scaled (m k : R) (xs : list R) :
  k <> 0 ->
  sum (sqdev 0 (map (fun x => (x - m) / k) xs))
  = sum (sqdev m xs) / (k * k).
Proof.
  intros Hk. induction xs as [|x xs IH].
  - simpl. unfold Rdiv. ring.
  - unfold sqdev in *. cbn [map sum fold_right] in *.
    fold (sum (map (fun x => (x - 0) * (x - 0))
                 (map (fun x => (x - m) / k) xs))).
    fold (sum (map (fun x => (x - m) * (x - m)) xs)).
    rewrite IH. field. exact Hk.
Qed.

Lemma sum_sqdev_nonneg (m : R) (xs : list R) : 0 <= sum (sqdev m xs).
Proof.
  induction xs as [|x xs IH]; simpl; [lra|].
  fold (sum (sqdev m xs)). pose proof (Rle_0_sqr (x - m)) as H.
  unfold Rsqr in H. lra.
Qed.

Lemma std_nonneg (xs : list R) : 0 <= std xs.
Proof. unfold std. apply sqrt_pos. Qed.

Variable xs : list R.
Variable k : R.
Hypothesis k_pos : 0 < k.

Let ys : list R := map (fun x => (x - mean xs) / k) xs.

Lemma mean_normalized : (1 <= length xs)%nat -> mean ys = 0.
Proof.
  intros Hn. unfold mean, ys. rewrite sum_map_affine, length_map.
  assert (Hpos : 0 < INR (length xs)) by (apply lt_0_INR; lia).
  unfold mean. field. split; lra.
Qed.

Lemma std_normalized : (2 <= length xs)%nat -> std ys = std xs / k.
Proof.
  intros Hn. unfold std. rewrite mean_normalized by lia.
  unfold ys at 1 2. rewrite sum_sqdev_scaled by lra. rewrite length_map.
  assert (Hn1 : 0 < INR (length xs) - 1).
  { assert (H2 : INR 2 <= INR (length xs)) by (apply le_INR; exact Hn).
    simpl in H2. lra. }
  replace (sum (sqdev (mean xs) xs) / (k * k) / (INR (length xs) - 1))
    with (sum (sqdev (mean xs) xs) / (INR (length xs) - 1) / (k * k))
    by (field; split; lra).
  rewrite sqrt_div_alt by nra.
  rewrite sqrt_square by lra. reflexivity.
Qed.

End Statistics.

Lemma normalized_statistics (xs : list R) :
  (2 <= length xs)%nat ->
  let ys := map (fun x => (x - mean xs) / (std xs + eps))%R xs in
  mean ys = 0%R
  /\ std ys = (std xs / (std xs + eps))%R
  /\ ((Rabs (std ys - 1) <= 1e-4)%R <-> (0.09999 <= std xs)%R).
Proof.
  intros Hn ys. pose proof (std_nonneg xs) as Hs.
  assert (Hk : (0 < std xs + eps)%R) by (unfold eps; lra).
  split; [apply mean_normalized; [exact Hk|lia]|].
  assert (Hstd : std ys = (std xs / (std xs + eps))%R)
    by (apply std_normalized; assumption).
  split; [exact Hstd|]. rewrite Hstd.
  assert (Heq : (std xs / (std xs + eps) - 1 = - (eps / (std xs + eps)))%R).
  { field. lra. }
  rewrite Heq, Rabs_Ropp.
  assert (Hq : (0 < eps / (std xs + eps))%R).
  { apply Rdiv_lt_0_compat; [unfold eps; lra|exact Hk]. }
  rewrite Rabs_pos_eq by lra.
  split; intros H.
  - apply (Rmult_le_compat_r (std xs + eps)) in H; [|lra].
    unfold Rdiv in H. rewrite Rmult_assoc, Rinv_l in H by lra.
    unfold eps in *. lra.
  - apply (Rmult_le_reg_r (std xs + eps)); [exact Hk|].
    unfold Rdiv. rewrite Rmult_assoc, Rinv_l by lra.
    unfold eps in *. lra.
Qed.

Lemma subtract_original_residual (self : LatentPreviewer)
  (noisy_latents : tensor5) (step : Z) (noise_remaining : R) :
  getitem (timesteps_percent self) step = Ok noise_remaining ->
  same_shape5 noisy_latents (original_latents self) ->
  subtract_original self noisy_latents step
  = Ok (zip5 Rminus noisy_latents
          (map5d (fun x => x * noise_remaining)%R (original_latents self))).
Proof.
  intros Hstep Hshape. unfold subtract_original. rewrite Hstep. cbn [bind].
  apply sub5_same_shape, same_shape5_map5d. exact Hshape.
Qed.

(** C1, amended: for a snapshot of the reference's shape and a step inside
    the schedule, [subtract_original_and_normalize] returns
    [(residual - mean) / (std + 1e-5)] with
    [residual = snapshot - reference * schedule[step]], mean and standard
    deviation taken over all elements.  With at least two elements the
    output's mean is 0 and its standard deviation is [std / (std + 1e-5)],
    which is within 1e-4 of 1 exactly when [std >= 0.09999]. *)
Theorem C1_normalizer_statistics (self : LatentPreviewer)
  (noisy_latents : tensor5) (step : Z) (noise_remaining : R) :
  getitem (timesteps_percent self) step = Ok noise_remaining ->
  same_shape5 noisy_latents (original_latents self) ->
  let residual :=
    zip5 Rminus noisy_latents
      (map5d (fun x => x * noise_remaining)%R (original_latents self)) in
  let mu := mean (flatten5 residual) in
  let sigma := std (flatten5 residual) in
  exists out,
    subtract_original_and_normalize self noisy_latents step = Ok out
    /\ out = map5d (fun x => (x - mu) / (sigma + 1e-5))%R residual
    /\ ((2 <= length (flatten5 residual))%nat ->
        mean (flatten5 out) = 0%R
        /\ std (flatten5 out) = (sigma / (sigma + 1e-5))%R
        /\ ((Rabs (std (flatten5 out) - 1) <= 1e-4)%R
            <-> (0.09999 <= sigma)%R)).
Proof.
  intros Hstep Hshape residual mu sigma.
  unfold subtract_original_and_normalize.
  rewrite (subtract_original_residual _ _ _ _ Hstep Hshape). cbn [bind].
  fold residual. eexists. split; [reflexivity|]. split; [reflexivity|].
  intros Hn. unfold normalize. rewrite flatten5_map5d.
  exact (normalized_statistics (flatten5 residual) Hn).
Qed.

Lemma std_small_residual : std small_residual = 0.01%R.
Proof.
  unfold std, small_residual.
  assert (Hmean : mean [-0.01 - 0 * 1; 0 - 0 * 1; 0.01 - 0 * 1]%R = 0%R).
  { unfold mean, sum. cbn [fold_right length INR]. lra. }
  rewrite Hmean. unfold sqdev, sum. cbn [map fold_right length INR].
  match goal with
  | |- sqrt ?a = _ => replace a with (0.01 * 0.01)%R by lra
  end.
  apply sqrt_square. lra.
Qed.

(** C1, as stated, fails: a latent with the three values -0.01, 0 and 0.01 is
    not all-equal (its standard deviation is 0.01), yet the normalized output
    has standard deviation 0.01 / 0.01001, more than 1e-4 away from 1. *)
Lemma C1_small_spread_not_unit_std :
  std (flatten5 small_latent) <> 0%R
  /\ exists out,
       subtract_original_and_normalize small_previewer small_latent 0 = Ok out
       /\ ~ (Rabs (std (flatten5 out) - 1) <= 1e-4)%R.
Proof.
  split.
  - change (flatten5 small_latent) with [-0.01; 0; 0.01]%R.
    unfold std.
    assert (Hmean : mean [-0.01; 0; 0.01]%R = 0%R).
    { unfold mean, sum. cbn [fold_right length INR]. lra. }
    rewrite Hmean. unfold sqdev, sum. cbn [map fold_right length INR].
    match goal with
    | |- sqrt ?a <> _ => replace a with (0.01 * 0.01)%R by lra
    end.
    rewrite sqrt_square by lra. lra.
  - assert (Hres : subtract_original small_previewer small_latent 0
                   = Ok [[[[small_residual]]]]) by reflexivity.
    unfold subtract_original_and_normalize. rewrite Hres. cbn [bind].
    eexists. split; [reflexivity|].
    unfold normalize. rewrite flatten5_map5d.
    change (flatten5 [[[[small_residual]]]]) with small_residual.
    destruct (normalized_statistics small_residual) as (_ & _ & Hiff).
    { unfold small_residual. simpl. lia. }
    intros H. apply Hiff in H. rewrite std_small_residual in H. lra.
Qed.

Lemma same_shape_small : same_shape5 small_latent (original_latents small_previewer).
Proof. repeat constructor. Qed.

Lemma C1_normalizer_statistics_witness :
  exists out,
    subtract_original_and_normalize small_previewer small_latent 0 = Ok out
    /\ mean (flatten5 out) = 0%R.
Proof.
  destruct (C1_normalizer_statistics small_previewer small_latent 0 1%R
              eq_refl same_shape_small) as (out & Hrun & _ & Hstat).
  exists out. split; [exact Hrun|]. apply Hstat. simpl. lia.
Defined.

(** ** Constant tensors through the pipeline *)

Section Constant.

Open Scope R_scope.

Lemma map2_repeat {A B C : Type} (g : A -> B -> C) (x : A) (y : B) (n : nat) :
  map2 g (repeat x n) (repeat y n) = repeat (g x y) n.
Proof.
  unfold map2. induction n as [|n IH]; simpl; [reflexivity|].
  rewrite IH. reflexivity.
Qed.

Lemma map5d_full5 (g : R -> R) (b c f h w : nat) (v : R) :
  map5d g (full5 b c f h w v) = full5 b c f h w (g v).
Proof.
  unfold map5d, map4d, map3d, map2d, full5, full4.
  rewrite !map_repeat. reflexivity.
Qed.

Lemma zip5_full5 (g : R -> R -> R) (b c f h w : nat) (x y : R) :
  zip5 g (full5 b c f h w x) (full5 b c f h w y) = full5 b c f h w (g x y).
Proof.
  unfold zip5, full5, full4. rewrite !map2_repeat. reflexivity.
Qed.

Lemma same_shape_repeat {A B : Type} (rel : A -> B -> Prop) (x : A) (y : B)
  (n : nat) :
  rel x y -> Forall2 rel (repeat x n) (repeat y n).
Proof. intros H. induction n; simpl; constructor; assumption. Qed.

Lemma same_shape5_full5 (b c f h w : nat) (x y : R) :
  same_shape5 (full5 b c f h w x) (full5 b c f h w y).
Proof.
  unfold same_shape5, same_shape4, same_shape3, same_shape2, same_shape1,
    full5, full4.
  repeat apply same_shape_repeat. exact I.
Qed.

Lemma concat_repeat_repeat {A : Type} (v : A) (m n : nat) :
  concat (repeat (repeat v m) n) = repeat v (n * m).
Proof.
  induction n as [|n IH]; simpl; [reflexivity|].
  rewrite IH, repeat_app. reflexivity.
Qed.

Lemma flatten5_full5 (b c f h w : nat) (v : R) :
  flatten5 (full5 b c f h w v) = repeat v (b * (c * (f * (h * w)))).
Proof.
  unfold flatten5, flatten4, flatten3, flatten2, full5, full4.
  rewrite !map_repeat, !concat_repeat_repeat. reflexivity.
Qed.

Lemma sum_repeat (v : R) (n : nat) : sum (repeat v n) = INR n * v.
Proof.
  induction n as [|n IH].
  - simpl. ring.
  - cbn [repeat sum fold_right]. fold (sum (repeat v n)).
    rewrite IH, S_INR. ring.
Qed.

Lemma mean_repeat (v : R) (n : nat) : (0 < n)%nat -> mean (repeat v n) = v.
Proof.
  intros Hn. unfold mean. rewrite sum_repeat, repeat_length.
  assert (0 < INR n) by (apply lt_0_INR; exact Hn). field. lra.
Qed.

Lemma std_repeat (v : R) (n : nat) : (0 < n)%nat -> std (repeat v n) = 0.
Proof.
  intros Hn. unfold std. rewrite mean_repeat by exact Hn.
  unfold sqdev. rewrite map_repeat, sum_repeat.
  replace (INR n * ((v - v) * (v - v)) / (INR (length (repeat v n)) - 1))
    with 0 by (unfold Rdiv; ring).
  apply sqrt_0.
Qed.

(** A constant tensor is normalized to zero. *)
Lemma normalize_full5 (b c f h w : nat) (v : R) :
  (0 < b * (c * (f * (h * w))))%nat ->
  normalize (full5 b c f h w v) = full5 b c f h w 0.
Proof.
  intros Hn. unfold normalize. rewrite map5d_full5. f_equal.
  rewrite flatten5_full5, mean_repeat, std_repeat by exact Hn.
  unfold Rdiv. ring.
Qed.

Lemma dot_zero (x w : list R) : Forall (eq 0) x -> dot x w = 0.
Proof.
  unfold dot. revert w. induction x as [|a x IH]; intros w H; [reflexivity|].
  destruct w as [|b w]; [reflexivity|].
  inversion H; subst. cbn [combine map sum fold_right fst snd].
  fold (sum (map (fun p => fst p * snd p) (combine x w))).
  rewrite IH by assumption. ring.
Qed.

Lemma map_snd_combine {A B : Type} (a : list A) (b : list B) :
  length a = length b -> map snd (combine a b) = b.
Proof.
  revert b. induction a as [|x a IH]; intros [|y b] H; simpl in *;
    try discriminate; [reflexivity|].
  rewrite IH by lia. reflexivity.
Qed.

(** On an all-zero feature vector the projection returns the bias. *)
Lemma linear1_zero (family : string) (table : CoefficientTable) (x : list R) :
  model_params family = Some table ->
  dim 16 (eq 0) x ->
  linear1 (transpose (rgb_factors table)) (bias table) x = Ok (bias table).
Proof.
  intros Htable [Hl Hx].
  destruct (table_dims _ _ Htable) as [Hfac Hbias].
  assert (Hweight : dim 3 (dim 16 any) (transpose (rgb_factors table))).
  { apply transpose_dim; [lia|exact Hfac]. }
  destruct (linear1_ok _ _ 16 3 x Hweight Hbias Hl) as (y & Hy & _).
  rewrite Hy. f_equal.
  rewrite <- (map_snd_combine (transpose (rgb_factors table)) (bias table))
    at 2 by (destruct Hweight; lia).
  apply map_ext. intros wb. rewrite dot_zero by exact Hx. ring.
Qed.

End Constant.

Section ConstantPlanes.

Open Scope R_scope.

Lemma dim2_repeat {A : Type} (v : A) (n m : nat) (t : list (list A)) :
  dim n (dim m (eq v)) t -> t = repeat (repeat v m) n.
Proof.
  intros H. apply dim_repeat. eapply dim_impl; [|exact H].
  intros x Hx. symmetry. apply dim_repeat. exact Hx.
Qed.

Lemma dim3_repeat {A : Type} (v : A) (n m k : nat) (t : list (list (list A))) :
  dim n (dim m (dim k (eq v))) t -> t = repeat (repeat (repeat v k) m) n.
Proof.
  intros H. apply dim_repeat. eapply dim_impl; [|exact H].
  intros x Hx. symmetry. apply dim2_repeat. exact Hx.
Qed.

Lemma transpose_repeat_repeat {A : Type} (v : A) (m n : nat) :
  (0 < n)%nat -> transpose (repeat (repeat v m) n) = repeat (repeat v n) m.
Proof.
  intros Hn. apply dim2_repeat. apply transpose_dim; [exact Hn|].
  repeat apply repeat_dim. reflexivity.
Qed.

Lemma transpose_repeat3 {A : Type} (x y z : A) (n : nat) :
  (0 < n)%nat ->
  transpose (repeat [x; y; z] n) = [repeat x n; repeat y n; repeat z n].
Proof.
  induction n as [|n IH]; [lia|]. intros _.
  destruct n as [|n]; [reflexivity|].
  change (repeat [x; y; z] (S (S n)))
    with ([x; y; z] :: [x; y; z] :: repeat [x; y; z] n).
  change (transpose ([x; y; z] :: [x; y; z] :: repeat [x; y; z] n))
    with (zipcons [x; y; z] (transpose (repeat [x; y; z] (S n)))).
  rewrite IH by lia. reflexivity.
Qed.

Lemma permute201_pixels (h w : nat) (r g b : R) :
  (0 < h)%nat -> (0 < w)%nat ->
  permute201 (repeat (repeat [r; g; b] w) h)
  = [plane h w r; plane h w g; plane h w b].
Proof.
  intros Hh Hw. unfold permute201, plane.
  rewrite map_repeat, transpose_repeat3 by exact Hw.
  apply transpose_repeat3. exact Hh.
Qed.

Lemma cubic_coefficients_sum (t v : R) :
  dot (cubic_coefficients t) [v; v; v; v] = v.
Proof.
  unfold dot, cubic_coefficients, cubic_convolution1, cubic_convolution2,
    cubic_A, sum. cbn [combine map fold_right fst snd]. field.
Qed.

Lemma clamp_index_lt (n : nat) (i : Z) : (0 < n)%nat -> (clamp_index n i < n)%nat.
Proof. intros Hn. unfold clamp_index. lia. Qed.

Lemma nth_repeat_lt (v d : R) (n i : nat) : (i < n)%nat -> nth i (repeat v n) d = v.
Proof.
  intros Hi. rewrite (nth_indep _ d v) by (rewrite repeat_length; exact Hi).
  apply nth_repeat.
Qed.

Lemma upsample_at_repeat (v : R) (w scale o : nat) :
  (0 < w)%nat -> upsample_at (repeat v w) scale o = v.
Proof.
  intros Hw. unfold upsample_at. cbn [map]. rewrite repeat_length.
  rewrite !nth_repeat_lt by (apply clamp_index_lt; exact Hw).
  apply cubic_coefficients_sum.
Qed.

Lemma map_const {A B : Type} (f : A -> B) (v : B) (l : list A) :
  (forall x, f x = v) -> map f l = repeat v (length l).
Proof.
  intros H. induction l as [|x l IH]; simpl; [reflexivity|].
  rewrite H, IH. reflexivity.
Qed.

Lemma upsample1d_repeat (v : R) (w scale : nat) :
  (0 < w)%nat -> upsample1d scale (repeat v w) = repeat v (w * scale).
Proof.
  intros Hw. unfold upsample1d.
  rewrite (map_const _ v) by (intros o; apply upsample_at_repeat; exact Hw).
  rewrite length_seq, repeat_length. reflexivity.
Qed.

(** Bicubic interpolation leaves a constant plane constant. *)
Lemma upsample2d_plane (v : R) (h w scale : nat) :
  (0 < h)%nat -> (0 < w)%nat -> (0 < scale)%nat ->
  upsample2d scale (plane h w v) = plane (h * scale) (w * scale) v.
Proof.
  intros Hh Hw Hs. unfold upsample2d, plane.
  rewrite map_repeat, upsample1d_repeat by exact Hw.
  rewrite transpose_repeat_repeat by exact Hh.
  rewrite map_repeat, upsample1d_repeat by exact Hh.
  apply transpose_repeat_repeat. nia.
Qed.

End ConstantPlanes.

Section ConstantDecode.

Open Scope R_scope.

Lemma in_concat_repeat {A : Type} (x : A) (l : list A) (n : nat) :
  In x (concat (repeat l n)) <-> (0 < n)%nat /\ In x l.
Proof.
  induction n as [|n IH]; simpl.
  - split; [contradiction|]. intros [H _]. lia.
  - rewrite in_app_iff, IH. split.
    + intros [H|[_ H]]; split; auto; lia.
    + intros [_ H]. left. exact H.
Qed.

Lemma in_flatten4_pixels (x : R) (px : list R) (f h w : nat) :
  (0 < f)%nat -> (0 < h)%nat -> (0 < w)%nat ->
  In x (flatten4 (repeat (repeat (repeat px w) h) f)) <-> In x px.
Proof.
  intros Hf Hh Hw. unfold flatten4, flatten3, flatten2.
  rewrite !map_repeat, !in_concat_repeat. tauto.
Qed.

Lemma project_zero_hunyuan (b f h w : nat) :
  (0 < b)%nat -> (0 < f)%nat ->
  project_frames hunyuan_table (full5 b 16 f h w 0)
  = Ok (repeat (repeat (repeat (bias hunyuan_table) w) h) f).
Proof.
  intros Hb Hf.
  destruct (project_frames_dim hunyuan_table (eq 0) (eq (bias hunyuan_table))
              b 16 f h w Hb ltac:(lia) Hf) with (latents := full5 b 16 f h w 0)
    as (stacked & Hproj & Hdim).
  - intros x Hx. exists (bias hunyuan_table). split; [|reflexivity].
    apply (linear1_zero "hunyuan"); [reflexivity|exact Hx].
  - apply full5_dim. reflexivity.
  - rewrite Hproj. f_equal. apply dim3_repeat. exact Hdim.
Qed.

Lemma decode_zero_hunyuan (self : LatentPreviewer) (b f h w : nat) (step : Z) :
  model_type self = "hunyuan"%string ->
  (0 < b)%nat -> (0 < f)%nat -> (0 < h)%nat -> (0 < w)%nat ->
  decode_latent2rgb self (full5 b 16 f h w 0) step
  = Ok (repeat (flat_frame h w) f).
Proof.
  intros Hfam Hb Hf Hh Hw. unfold decode_latent2rgb. rewrite Hfam.
  change (model_params "hunyuan") with (Some hunyuan_table). cbv beta iota.
  rewrite project_zero_hunyuan by assumption. cbn [bind].
  set (stacked := repeat (repeat (repeat (bias hunyuan_table) w) h) f).
  assert (Hne : flatten4 stacked <> []).
  { intros Hnil.
    assert (Hin : In 0.0259 (flatten4 stacked)).
    { apply in_flatten4_pixels; try assumption. simpl. auto. }
    rewrite Hnil in Hin. contradiction. }
  destruct (tmin_tmax _ Hne) as (lo & hi & Hlo & Hhi & Hinlo & Hinhi & Hrange).
  rewrite Hlo, Hhi. cbn [bind].
  rewrite Forall_forall in Hrange.
  assert (Hb0 : lo <= 0.0259 <= hi).
  { apply Hrange, in_flatten4_pixels; try assumption. simpl. auto. }
  assert (Hb2 : lo <= -0.0761 <= hi).
  { apply Hrange, in_flatten4_pixels; try assumption. simpl. auto. }
  apply in_flatten4_pixels in Hinlo; try assumption.
  apply in_flatten4_pixels in Hinhi; try assumption.
  assert (Elo : lo = -0.0761).
  { simpl in Hinlo. destruct Hinlo as [H|[H|[H|[]]]]; lra. }
  assert (Ehi : hi = 0.0259).
  { simpl in Hinhi. destruct Hinhi as [H|[H|[H|[]]]]; lra. }
  subst lo hi. unfold rescale.
  destruct (Rlt_dec (-0.0761) 0.0259) as [_|Hn]; [|exfalso; apply Hn; lra].
  f_equal. unfold stacked, map4d, map3d, map2d, permute0312.
  rewrite !map_repeat.
  cbn [map bias hunyuan_table].
  rewrite permute201_pixels by assumption. reflexivity.
Qed.

End ConstantDecode.

(** ** The constant-latent round trip *)

Section RoundTrip.

Open Scope R_scope.

Variable self : LatentPreviewer.
Hypothesis family : model_type self = "hunyuan"%string.
Hypothesis linear_mode : decoder self = decode_latent2rgb_ref.
Hypothesis scale : scale_factor self = Some 8%nat.
Hypothesis reference : original_latents self = full5 1 16 2 8 8 0.

Variables (step : Z) (noise_remaining : R).
Hypothesis in_schedule :
  getitem (timesteps_percent self) step = Ok noise_remaining.

Lemma preview_frames_constant (c : R) :
  preview_frames self (constant_snapshot c) step
  = Ok (repeat (flat_frame 8 8) 2).
Proof.
  unfold preview_frames, constant_snapshot. rewrite family.
  change (String.eqb "hunyuan" "wan") with false. cbv beta iota.
  unfold subtract_original_and_normalize.
  rewrite (subtract_original_residual self _ step noise_remaining in_schedule)
    by (rewrite reference; apply same_shape5_full5).
  cbn [bind]. rewrite reference, map5d_full5, zip5_full5.
  rewrite normalize_full5 by (simpl; lia).
  unfold run_decoder. rewrite linear_mode.
  apply decode_zero_hunyuan; [exact family|lia..].
Qed.

Lemma upscaled_frames_constant (c : R) :
  upscaled_frames self (constant_snapshot c) step
  = Ok (repeat (flat_frame 64 64) 2).
Proof.
  unfold upscaled_frames. rewrite preview_frames_constant. cbn [bind].
  unfold upscale. rewrite scale. unfold interpolate_bicubic, flat_frame.
  rewrite map_repeat. cbn [map].
  rewrite !upsample2d_plane by lia. reflexivity.
Qed.

Lemma preview_constant (av : Stream) (c : R) (log : list event) :
  never_fails av ->
  exists added,
    preview av self (constant_snapshot c) step log = (Ok tt, log ++ added)
    /\ opened_containers added = ["./latent_preview.mp4"%string]
    /\ saved_images added = []
    /\ stream_rates added = [fps self]
    /\ encoded_frames added = map to_image (repeat (flat_frame 64 64) 2)
    /\ closes added = 1%nat.
Proof.
  intros Hnf. unfold preview, bind_io, lift.
  pose proof (upscaled_frames_constant c) as Hup. unfold upscaled_frames in Hup.
  destruct (preview_frames self (constant_snapshot c) step) as [decoded|e];
    [|discriminate Hup].
  cbn [bind] in Hup. inversion Hup as [Hup']. rewrite Hup'.
  apply write_video_many; [simpl; lia|exact Hnf].
Qed.

Lemma preview_constant_trace (av : Stream) (c : R) (log : list event) :
  never_fails av ->
  preview av self (constant_snapshot c) step log
  = (Ok tt,
     log ++ stream_header self 64 64 default_target
         ++ stream_trace av (map to_image (repeat (flat_frame 64 64) 2))
         ++ [AvClose]).
Proof.
  intros Hnf. unfold preview, bind_io, lift.
  pose proof (upscaled_frames_constant c) as Hup. unfold upscaled_frames in Hup.
  destruct (preview_frames self (constant_snapshot c) step) as [decoded|e];
    [|discriminate Hup].
  cbn [bind] in Hup. inversion Hup as [Hup']. rewrite Hup'.
  rewrite write_video_not_single by (simpl; lia).
  exact (write_stream_trace av self (repeat (flat_frame 64 64) 2) 64 64
           default_target log Hnf).
Qed.

End RoundTrip.

Lemma flat_channel_values :
  flat_red = 1%R /\ flat_green = (0.0569 / 0.102)%R /\ flat_blue = 0%R.
Proof.
  unfold flat_red, flat_green, flat_blue. repeat split; lra.
Qed.

Lemma in_flatten2_plane (h w : nat) (v : R) :
  (0 < h)%nat -> (0 < w)%nat -> In v (flatten2 (plane h w v)).
Proof.
  intros Hh Hw. unfold flatten2, plane. apply in_concat_repeat.
  split; [exact Hh|]. destruct w; [lia|]. simpl. auto.
Qed.

Lemma init_hunyuan_round_trip
  (load_taehv : string -> string -> dtype -> result TAEHV) (args : Args)
  (dev : string) (dt : dtype) (self : LatentPreviewer) :
  preview_vae args = None ->
  init load_taehv args (full5 1 16 2 8 8 0%R) [0%R] dev dt "hunyuan" = Ok self ->
  model_type self = "hunyuan"%string
  /\ decoder self = decode_latent2rgb_ref
  /\ scale_factor self = Some 8%nat
  /\ original_latents self = full5 1 16 2 8 8 0%R
  /\ getitem (timesteps_percent self) 0 = Ok (0 / 1000)%R
  /\ fps self = Z.quot (args_fps args) 4.
Proof.
  intros Hnone Hinit.
  destruct (init_linear_projection load_taehv args (full5 1 16 2 8 8 0%R)
              [0%R] dev dt "hunyuan" Hnone)
    as (p & Hp & _ & Hdec & Hscale & Hfps & Hfam & Horig).
  rewrite Hinit in Hp. inversion Hp; subst p.
  pose proof (init_timesteps_percent _ _ _ _ _ _ _ _ Hinit) as Hts.
  repeat (split; [assumption|]). split; [|exact Hfps].
  rewrite Hts. reflexivity.
Qed.

(** The decoder takes axis 1 for the channels and axis 2 for the frames.  A
    snapshot laid out frames first, (2 frames, 16 channels, 8, 8), is
    rejected by the projection: it offers 2 features where 16 are expected. *)
Lemma frames_first_layout_rejected (c : R) :
  preview_frames frames_first_previewer (Unbatched (full4 2 16 8 8 c)) 0
  = Raise (RuntimeError "mat1 and mat2 shapes cannot be multiplied").
Proof. reflexivity. Qed.

(** C6, as stated, fails: for the constant latent of value 1 the frames that
    reach the sink are not constant within a frame (the first frame holds
    both the value of its red plane and the different value of its blue
    plane), and with a configured rate of 30 the stream is opened at rate 7,
    which is not a quarter of 30. *)
Lemma C6_frame_values_differ :
  exists self frames added,
    init no_loader (linear_args 30) (full5 1 16 2 8 8 0%R) [0%R]
      "cpu" float32 "hunyuan" = Ok self
    /\ upscaled_frames self (constant_snapshot 1) 0 = Ok frames
    /\ (exists x y, In x (flatten3 (hd [] frames))
                    /\ In y (flatten3 (hd [] frames)) /\ x <> y)
    /\ preview null_stream self (constant_snapshot 1) 0 [] = (Ok tt, added)
    /\ stream_rates added = [7%Z]
    /\ (4 * 7 <> 30)%Z.
Proof.
  eexists. 
  destruct (init_hunyuan_round_trip no_loader (linear_args 30) "cpu" float32
              _ eq_refl eq_refl)
    as (Hfam & Hdec & Hscale & Horig & Hstep & Hfps).
  destruct (preview_constant _ Hfam Hdec Hscale Horig 0 _ Hstep null_stream
              1%R [] null_stream_never_fails)
    as (added & Hrun & _ & _ & Hrate & _).
  exists (repeat (flat_frame 64 64) 2), added.
  split; [reflexivity|].
  split; [exact (upscaled_frames_constant _ Hfam Hdec Hscale Horig 0 _ Hstep 1%R)|].
  split.
  - exists flat_red, flat_blue.
    change (hd [] (repeat (flat_frame 64 64) 2)) with (flat_frame 64 64).
    unfold flat_frame, flatten3. cbn [map concat].
    split; [apply in_or_app; left; apply in_flatten2_plane; lia|].
    split.
    + apply in_or_app; right. apply in_or_app; right.
      apply in_or_app; left. apply in_flatten2_plane; lia.
    + destruct flat_channel_values as (Hr & _ & Hb). rewrite Hr, Hb. lra.
  - split; [exact Hrun|]. split; [exact Hrate|]. lia.
Qed.

(** C6, amended.  In exact arithmetic: for a constant-value latent of shape
    (1 batch, 16 channels, 2 frames, 8, 8), an all-zero reference and raw
    timestep 0 at step 0, a "hunyuan" linear-projection previewer built from
    an integer frame rate below 2^53 in magnitude hands the frame sink a
    2 x 3 x 64 x 64 tensor whose values are all equal within each channel
    plane of each frame, the three planes of a frame holding three different
    values; and, with a stream whose calls return, it writes exactly two
    video frames to [./latent_preview.mp4] (each encoded once, every packet
    muxed, one flush, one close) at the configured frame rate divided by four
    and truncated to an integer. *)
Theorem C6_constant_latent_round_trip
  (load_taehv : string -> string -> dtype -> result TAEHV) (av : Stream)
  (args : Args) (dev : string) (dt : dtype) (c : R)
  (self : LatentPreviewer) (log : list event) :
  preview_vae args = None ->
  (Z.abs (args_fps args) < 2 ^ 53)%Z ->
  init load_taehv args (full5 1 16 2 8 8 0%R) [0%R] dev dt "hunyuan" = Ok self ->
  never_fails av ->
  exists r g b : R,
    r <> g /\ g <> b /\ r <> b
    /\ let frames :=
         repeat [plane 64 64 r; plane 64 64 g; plane 64 64 b] 2 in
       upscaled_frames self (constant_snapshot c) 0 = Ok frames
       /\ shape4 frames = [2; 3; 64; 64]%nat
       /\ exists added,
            preview av self (constant_snapshot c) 0 log = (Ok tt, log ++ added)
            /\ added = stream_header self 64 64 default_target
                       ++ stream_trace av (map to_image frames) ++ [AvClose]
            /\ opened_containers added = ["./latent_preview.mp4"%string]
            /\ saved_images added = []
            /\ encoded_frames added = map to_image frames
            /\ length (encoded_frames added) = 2%nat
            /\ closes added = 1%nat
            /\ stream_rates added = [Z.quot (args_fps args) 4].
Proof.
  intros Hnone Hrate_bound Hinit Hnf.
  destruct (init_hunyuan_round_trip _ _ _ _ _ Hnone Hinit)
    as (Hfam & Hdec & Hscale & Horig & Hstep & Hfps).
  exists flat_red, flat_green, flat_blue.
  destruct flat_channel_values as (Hr & Hg & Hb).
  split; [rewrite Hr, Hg; lra|]. split; [rewrite Hg, Hb; lra|].
  split; [rewrite Hr, Hb; lra|].
  fold (flat_frame 64 64). cbv zeta.
  split.
  - exact (upscaled_frames_constant _ Hfam Hdec Hscale Horig 0 _ Hstep c).
  - split; [reflexivity|].
    destruct (preview_constant _ Hfam Hdec Hscale Horig 0 _ Hstep av c log Hnf)
      as (added & Hrun & Hopen & Hsaved & Hrate & Henc & Hclose).
    exists added. split; [exact Hrun|].
    split.
    { rewrite (preview_constant_trace _ Hfam Hdec Hscale Horig 0 _ Hstep
                 av c log Hnf) in Hrun.
      inversion Hrun as [Heq]. apply app_inv_head in Heq. symmetry.
      exact Heq. }
    repeat (split; [assumption|]).
    split; [rewrite Henc; reflexivity|]. split; [exact Hclose|].
    rewrite Hrate, Hfps. reflexivity.
Qed.

Lemma C6_constant_latent_round_trip_witness :
  exists self added,
    init no_loader (linear_args 16) (full5 1 16 2 8 8 0%R) [0%R]
      "cpu" float32 "hunyuan" = Ok self
    /\ preview null_stream self (constant_snapshot 0.5) 0 [] = (Ok tt, added)
    /\ length (encoded_frames added) = 2%nat
    /\ stream_rates added = [4%Z].
Proof.
  eexists.
  destruct (C6_constant_latent_round_trip no_loader null_stream
              (linear_args 16) "cpu" float32 0.5%R _ [] eq_refl eq_refl
              eq_refl null_stream_never_fails)
    as (r & g & b & _ & _ & _ & _ & _ & added & Hrun & _ & _ & _ & _ & Hlen
        & _ & Hrate).
  exists added. split; [reflexivity|]. split; [exact Hrun|].
  split; [exact Hlen|exact Hrate].
Defined.

(** ** Normalized absolute paths *)

Section Normpath.

Open Scope string_scope.

Lemma norm_step_proper (slashes : nat) (acc : list string) (comp : string) :
  (0 < slashes)%nat -> Forall proper_component acc ->
  Forall proper_component (norm_step slashes acc comp).
Proof.
  intros Hs Hacc. unfold norm_step.
  destruct (String.eqb comp "") eqn:E1; [exact Hacc|].
  destruct (String.eqb comp ".") eqn:E2; [exact Hacc|]. cbn [orb].
  destruct (String.eqb comp "..") eqn:E3; cbn [negb orb].
  - replace (Nat.eqb slashes 0) with false
      by (symmetry; apply Nat.eqb_neq; lia).
    cbn [andb orb].
    destruct acc as [|last acc']; [exact Hacc|].
    inversion Hacc as [|? ? [_ [_ Hlast]] Hrest]; subst.
    apply String.eqb_neq in Hlast. rewrite Hlast. exact Hrest.
  - constructor; [|exact Hacc].
    apply String.eqb_neq in E1, E2, E3. repeat split; assumption.
Qed.

Lemma fold_norm_step_proper (slashes : nat) (comps acc : list string) :
  (0 < slashes)%nat -> Forall proper_component acc ->
  Forall proper_component (fold_left (norm_step slashes) comps acc).
Proof.
  intros Hs. revert acc. induction comps as [|c comps IH]; intros acc Hacc.
  - exact Hacc.
  - simpl. apply IH. apply norm_step_proper; assumption.
Qed.

Lemma initial_slashes_absolute (path : string) :
  isabs path = true -> initial_slashes path = 1%nat \/ initial_slashes path = 2%nat.
Proof.
  unfold isabs, initial_slashes, startswith, sep. intros ->.
  destruct (prefix "//" path && negb (prefix "///" path)); auto.
Qed.

(** For an absolute path [normpath] returns the leading slashes followed by
    the kept components, none of which is empty, [.] or [..]. *)
Lemma normpath_absolute (path : string) :
  isabs path = true ->
  normpath path
  = String.concat "" (repeat "/" (initial_slashes path))
    ++ String.concat "/" (norm_comps path)
  /\ Forall proper_component (norm_comps path).
Proof.
  intros Habs. split.
  - unfold normpath.
    destruct path as [|a path]; [discriminate Habs|]. cbn [String.eqb].
    destruct (initial_slashes_absolute _ Habs) as [-> | ->]; reflexivity.
  - unfold norm_comps. apply Forall_rev. apply fold_norm_step_proper.
    + destruct (initial_slashes_absolute _ Habs); lia.
    + constructor.
Qed.

Lemma isabs_inv (s : string) :
  isabs s = true -> exists t, s = String "/" t.
Proof.
  unfold isabs, startswith, sep. destruct s as [|a s]; cbn [prefix].
  - discriminate.
  - destruct (ascii_dec "/" a) as [<-|]; [|discriminate].
    intros _. exists s. reflexivity.
Qed.

Lemma isabs_slash (t : string) : isabs (String "/" t) = true.
Proof.
  unfold isabs, startswith, sep. cbn [prefix].
  destruct (ascii_dec "/" "/"); [|contradiction].
  destruct t; reflexivity.
Qed.

Lemma join_absolute (a b : string) :
  isabs a = true -> isabs (join a b) = true.
Proof.
  intros Ha. unfold join.
  destruct (startswith b sep) eqn:Eb; [exact Eb|].
  destruct (isabs_inv a Ha) as [t ->].
  destruct (String.eqb (String "/" t) "" || endswith (String "/" t) sep);
    cbn [append]; apply isabs_slash.
Qed.

Lemma abspath_absolute (cwd path : string) :
  isabs cwd = true ->
  exists full,
    isabs full = true
    /\ abspath cwd path = normpath full
    /\ isabs (abspath cwd path) = true.
Proof.
  intros Hcwd. unfold abspath.
  set (full := if isabs path then path else join cwd path).
  assert (Hfull : isabs full = true).
  { unfold full. destruct (isabs path) eqn:E; [exact E|].
    apply join_absolute. exact Hcwd. }
  exists full. split; [exact Hfull|]. split; [reflexivity|].
  destruct (normpath_absolute full Hfull) as [-> _].
  destruct (initial_slashes_absolute _ Hfull) as [-> | ->];
    cbn [repeat String.concat append]; apply isabs_slash.
Qed.

End Normpath.

(** ** The candidate path lies strictly below the base directory *)

Section Components.

Open Scope string_scope.

Lemma split_nonempty (c : ascii) (s : string) : split c s <> [].
Proof.
  destruct s as [|a s]; simpl; [discriminate|].
  destruct (Ascii.eqb a c); [discriminate|].
  destruct (split c s); discriminate.
Qed.

Lemma split_app_sep (c : ascii) (a b : string) :
  split c (a ++ String c b) = (split c a ++ split c b)%list.
Proof.
  induction a as [|x a IH]; simpl.
  - rewrite Ascii.eqb_refl. reflexivity.
  - destruct (Ascii.eqb x c); [rewrite IH; reflexivity|].
    rewrite IH. destruct (split c a) as [|h t] eqn:E.
    + exfalso. exact (split_nonempty c a E).
    + reflexivity.
Qed.

Lemma split_sep_free (s : string) : sep_free s -> split "/" s = [s].
Proof.
  unfold sep_free. induction s as [|a s IH]; simpl; [reflexivity|].
  intros H. apply orb_false_iff in H. destruct H as [Ha Hs].
  rewrite Ha, (IH Hs). reflexivity.
Qed.

Lemma split_components_sep_free (s : string) :
  Forall sep_free (split "/" s).
Proof.
  induction s as [|a s IH]; simpl.
  - constructor; [reflexivity|constructor].
  - destruct (Ascii.eqb a "/") eqn:E.
    + constructor; [reflexivity|exact IH].
    + destruct (split "/" s) as [|h t]; [repeat constructor|].
      * unfold sep_free. simpl. rewrite E. reflexivity.
      * inversion IH; subst. constructor; [|assumption].
        unfold sep_free in *. simpl. rewrite E. assumption.
Qed.

Lemma split_concat (comps : list string) :
  comps <> [] -> Forall sep_free comps ->
  split "/" (String.concat "/" comps) = comps.
Proof.
  induction comps as [|x comps IH]; [contradiction|]. intros _ H.
  inversion H as [|? ? Hx Hrest]; subst.
  destruct comps as [|y comps].
  - simpl. apply split_sep_free. exact Hx.
  - change (String.concat "/" (x :: y :: comps))
      with (x ++ String "/" (String.concat "/" (y :: comps))).
    rewrite split_app_sep, (split_sep_free x Hx), IH;
      [reflexivity|discriminate|exact Hrest].
Qed.

(** Appending a separator-free suffix only changes the last component. *)
Lemma split_app_suffix (s t : string) :
  sep_free t ->
  split "/" (s ++ t)
  = (removelast (split "/" s) ++ [(last (split "/" s) "" ++ t)%string])%list.
Proof.
  intros Ht. induction s as [|a s IH].
  - simpl. apply split_sep_free. exact Ht.
  - cbn [append split]. destruct (Ascii.eqb a "/").
    + rewrite IH.
      pose proof (split_nonempty "/" s) as Hne.
      destruct (split "/" s) as [|h r]; [contradiction|]. reflexivity.
    + rewrite IH.
      pose proof (split_nonempty "/" s) as Hne.
      destruct (split "/" s) as [|h r]; [contradiction|].
      destruct r as [|h' r]; reflexivity.
Qed.

End Components.
Section NormFold.

Open Scope string_scope.

Lemma fold_norm_step_filter (slashes : nat) (comps acc : list string) :
  ~ In ".." comps ->
  fold_left (norm_step slashes) comps acc
  = (rev (filter kept comps) ++ acc)%list.
Proof.
  revert acc. induction comps as [|c comps IH]; intros acc Hno.
  - reflexivity.
  - cbn [fold_left filter]. rewrite IH by (intros H; apply Hno; right; exact H).
    unfold norm_step, kept.
    destruct (String.eqb c "" || String.eqb c "."); cbn [negb].
    + reflexivity.
    + assert (Hc : String.eqb c ".." = false).
      { apply String.eqb_neq. intros ->. apply Hno. left. reflexivity. }
      rewrite Hc. cbn [negb orb rev]. rewrite <- app_assoc. reflexivity.
Qed.

Lemma norm_step_Forall (P : string -> Prop) (slashes : nat)
  (acc : list string) (comp : string) :
  Forall P acc -> P comp -> Forall P (norm_step slashes acc comp).
Proof.
  intros Hacc Hc. unfold norm_step.
  destruct (String.eqb comp "" || String.eqb comp "."); [exact Hacc|].
  match goal with |- Forall P (if ?b then _ else _) => destruct b end.
  - constructor; assumption.
  - destruct acc; [exact Hacc|]. inversion Hacc; assumption.
Qed.

Lemma norm_comps_sep_free (path : string) : Forall sep_free (norm_comps path).
Proof.
  unfold norm_comps. apply Forall_rev.
  pose proof (split_components_sep_free path) as H.
  generalize (@nil string) (Forall_nil sep_free).
  induction (split "/" path) as [|c comps IH]; intros acc Hacc.
  - exact Hacc.
  - inversion H; subst. cbn [fold_left]. apply IH; [assumption|].
    apply norm_step_Forall; assumption.
Qed.

Lemma rev_string_app (a b : string) :
  rev_string (a ++ b) = rev_string b ++ rev_string a.
Proof.
  induction a as [|x a IH]; simpl.
  - symmetry. apply append_empty_r.
  - rewrite IH. apply append_assoc.
Qed.

Lemma sep_free_head (c : ascii) (s : string) :
  sep_free (String c s) -> c <> "/"%char /\ sep_free s.
Proof.
  unfold sep_free. simpl. intros H. apply orb_false_iff in H.
  destruct H as [Hc Hs]. split; [|exact Hs].
  intros ->. discriminate Hc.
Qed.

Lemma endswith_sep_false (x pre : string) :
  x <> "" -> sep_free x -> endswith (pre ++ x) "/" = false.
Proof.
  revert pre. induction x as [|c x IH]; intros pre Hne Hfree; [contradiction|].
  apply sep_free_head in Hfree. destruct Hfree as [Hc Hx].
  destruct x as [|c' x'].
  - unfold endswith. rewrite rev_string_app. cbn [rev_string append prefix].
    destruct (ascii_dec "/" c) as [E|_]; [|reflexivity].
    exfalso. apply Hc. symmetry. exact E.
  - replace (pre ++ String c (String c' x'))
      with ((pre ++ String c "") ++ String c' x')
      by (rewrite append_assoc; reflexivity).
    apply IH; [discriminate|exact Hx].
Qed.

End NormFold.
Section Below.

Open Scope string_scope.

Lemma length_append (a b : string) :
  String.length (a ++ b) = (String.length a + String.length b)%nat.
Proof. induction a as [|x a IH]; simpl; [reflexivity|]. now rewrite IH. Qed.

Lemma concat_cons (x : string) (rest : list string) :
  rest <> [] ->
  String.concat "/" (x :: rest) = x ++ "/" ++ String.concat "/" rest.
Proof. destruct rest; [contradiction|reflexivity]. Qed.

Lemma concat_app_longer (C K : list string) :
  K <> [] -> Forall (fun c => c <> "") K ->
  (String.length (String.concat "/" C)
   < String.length (String.concat "/" (C ++ K)%list))%nat.
Proof.
  intros HK Hne. induction C as [|x C IH].
  - destruct K as [|k K]; [contradiction|]. inversion Hne; subst.
    destruct k as [|c k]; [contradiction|].
    cbn [app]. destruct K as [|k' K].
    + simpl. lia.
    + rewrite concat_cons by discriminate. simpl. lia.
  - assert (Hrest : (C ++ K)%list <> []).
    { destruct C; [exact HK|discriminate]. }
    change ((x :: C) ++ K)%list with (x :: (C ++ K))%list.
    rewrite (concat_cons x (C ++ K)) by exact Hrest.
    rewrite !length_append.
    destruct C as [|y C].
    + cbn [String.concat]. lia.
    + rewrite (concat_cons x (y :: C)) by discriminate.
      rewrite !length_append. lia.
Qed.

Lemma initial_slashes_one (c : ascii) (r : string) :
  c <> "/"%char -> initial_slashes (String "/" (String c r)) = 1%nat.
Proof.
  intros Hc. unfold initial_slashes, startswith. cbn [prefix].
  destruct (ascii_dec "/" "/") as [_|N]; [|contradiction].
  destruct (ascii_dec "/" c) as [E|_]; [exfalso; apply Hc; symmetry; exact E|].
  reflexivity.
Qed.

Lemma initial_slashes_two (c : ascii) (r : string) :
  c <> "/"%char ->
  initial_slashes (String "/" (String "/" (String c r))) = 2%nat.
Proof.
  intros Hc. unfold initial_slashes, startswith. cbn [prefix].
  destruct (ascii_dec "/" "/") as [_|N]; [|contradiction].
  destruct (ascii_dec "/" c) as [E|_]; [exfalso; apply Hc; symmetry; exact E|].
  reflexivity.
Qed.

Lemma relative_head (x : string) :
  x <> "" -> isabs x = false ->
  exists c r, x = String c r /\ c <> "/"%char.
Proof.
  intros Hne Habs. destruct x as [|c r]; [contradiction|].
  exists c, r. split; [reflexivity|]. intros ->.
  rewrite isabs_slash in Habs. discriminate.
Qed.

Lemma concat_head (x : string) (rest : list string) :
  x <> "" -> sep_free x ->
  exists c r, String.concat "/" (x :: rest) = String c r /\ c <> "/"%char.
Proof.
  intros Hne Hfree. destruct x as [|c x]; [contradiction|].
  apply sep_free_head in Hfree. destruct Hfree as [Hc _].
  destruct rest as [|y rest]; cbn [String.concat append]; eauto.
Qed.

Lemma endswith_concat_false (C : list string) (pre : string) :
  C <> [] -> Forall (fun c => c <> "" /\ sep_free c) C ->
  endswith (pre ++ String.concat "/" C) "/" = false.
Proof.
  revert pre. induction C as [|x C IH]; intros pre Hne H; [contradiction|].
  inversion H as [|? ? [Hx Hfree] Hrest]; subst.
  destruct C as [|y C].
  - cbn [String.concat]. apply endswith_sep_false; assumption.
  - change (String.concat "/" (x :: y :: C))
      with (x ++ String "/" (String.concat "/" (y :: C))).
    replace (pre ++ x ++ String "/" (String.concat "/" (y :: C)))
      with ((pre ++ x ++ "/") ++ String.concat "/" (y :: C))
      by (rewrite !append_assoc; reflexivity).
    apply IH; [discriminate|exact Hrest].
Qed.

Lemma kept_proper (c : string) : proper_component c -> kept c = true.
Proof.
  intros (H1 & H2 & _). unfold kept.
  apply String.eqb_neq in H1, H2. rewrite H1, H2. reflexivity.
Qed.

Lemma kept_nonempty (c : string) : kept c = true -> c <> "".
Proof. intros H ->. discriminate H. Qed.

(** [normpath] on leading slashes followed by a relative path without [..]:
    the slashes stay and the kept components are joined. *)
Lemma normpath_relative_tail (n : nat) (ch : ascii) (r : string) :
  n = 1%nat \/ n = 2%nat -> ch <> "/"%char ->
  ~ In ".." (split "/" (String ch r)) ->
  normpath (slashes n ++ String ch r)
  = slashes n ++ String.concat "/" (filter kept (split "/" (String ch r))).
Proof.
  intros Hn Hch Hno.
  assert (Habs : isabs (slashes n ++ String ch r) = true).
  { destruct Hn as [-> | ->]; apply isabs_slash. }
  destruct (normpath_absolute _ Habs) as [-> _].
  assert (Hinit : initial_slashes (slashes n ++ String ch r) = n).
  { destruct Hn as [-> | ->];
      [apply initial_slashes_one|apply initial_slashes_two]; exact Hch. }
  unfold norm_comps. rewrite Hinit. fold (slashes n). f_equal. f_equal.
  assert (Hsplit : split "/" (slashes n ++ String ch r)
                   = (repeat "" n ++ split "/" (String ch r))%list).
  { destruct Hn as [-> | ->]; reflexivity. }
  rewrite Hsplit, fold_norm_step_filter.
  - rewrite app_nil_r, rev_involutive, filter_app.
    destruct Hn as [-> | ->]; reflexivity.
  - intros Hin. apply in_app_or in Hin. destruct Hin as [Hin|Hin];
      [|exact (Hno Hin)].
    apply repeat_spec in Hin. discriminate Hin.
Qed.

(** Joining a relative path without [..] to a normalized absolute path and
    normalizing again appends the kept components. *)
Lemma normpath_join_below (P X : string) :
  isabs P = true -> X <> "" -> isabs X = false ->
  ~ In ".." (split "/" X) ->
  normpath P
  = slashes (initial_slashes P) ++ String.concat "/" (norm_comps P)
  /\ normpath (join (normpath P) X)
     = slashes (initial_slashes P)
       ++ String.concat "/"
            (norm_comps P ++ filter kept (split "/" X))%list.
Proof.
  intros HP HX Hrel Hno.
  destruct (normpath_absolute P HP) as [Hbase Hproper].
  pose proof (norm_comps_sep_free P) as Hfree.
  pose proof (initial_slashes_absolute P HP) as Hn.
  fold (slashes (initial_slashes P)) in Hbase.
  split; [exact Hbase|]. rewrite Hbase.
  set (n := initial_slashes P) in *. set (C := norm_comps P) in *.
  clearbody n C.
  destruct (relative_head X HX Hrel) as (cx & rx & -> & Hcx).
  unfold join. unfold isabs in Hrel. rewrite Hrel. unfold sep.
  destruct C as [|c1 C].
  - cbn [String.concat app].
    assert (Hjoin : (if String.eqb (slashes n ++ "") ""
                        || endswith (slashes n ++ "") "/"
                     then (slashes n ++ "") ++ String cx rx
                     else (slashes n ++ "") ++ "/" ++ String cx rx)
                    = slashes n ++ String cx rx).
    { destruct Hn as [-> | ->]; reflexivity. }
    rewrite Hjoin. apply normpath_relative_tail; assumption.
  - assert (Hboth : Forall (fun c => c <> "" /\ sep_free c) (c1 :: C)).
    { apply Forall_forall. intros c Hc. rewrite Forall_forall in Hproper, Hfree.
      split; [apply Hproper; exact Hc|apply Hfree; exact Hc]. }
    rewrite (endswith_concat_false (c1 :: C) (slashes n))
      by (try discriminate; exact Hboth).
    assert (Hnonempty : String.eqb (slashes n ++ String.concat "/" (c1 :: C)) ""
                        = false).
    { destruct Hn as [-> | ->]; reflexivity. }
    rewrite Hnonempty. cbn [orb].
    inversion Hboth as [|? ? [Hc1 Hf1] _]; subst.
    destruct (concat_head c1 C Hc1 Hf1) as (ch & r & Hhead & Hch).
    assert (Htail : String.concat "/" (c1 :: C) ++ "/" ++ String cx rx
                    = String ch (r ++ "/" ++ String cx rx)).
    { rewrite Hhead. reflexivity. }
    rewrite append_assoc, Htail.
    assert (Hsplit : split "/" (String ch (r ++ "/" ++ String cx rx))
                     = ((c1 :: C) ++ split "/" (String cx rx))%list).
    { rewrite <- Htail. cbn [append].
      rewrite split_app_sep, split_concat;
        [reflexivity|discriminate|exact Hfree]. }
    rewrite normpath_relative_tail; [|exact Hn|exact Hch|].
    + rewrite Hsplit, filter_app. f_equal. f_equal. f_equal.
      apply forallb_filter_id. apply forallb_forall. intros c Hc.
      rewrite Forall_forall in Hproper. apply kept_proper, Hproper, Hc.
    + rewrite Hsplit. intros Hin. apply in_app_or in Hin.
      destruct Hin as [Hin|Hin]; [|exact (Hno Hin)].
      rewrite Forall_forall in Hproper.
      destruct (Hproper _ Hin) as (_ & _ & Hdd). apply Hdd. reflexivity.
Qed.

Lemma in_removelast {A : Type} (x : A) (l : list A) :
  In x (removelast l) -> In x l.
Proof.
  induction l as [|a l IH]; [contradiction|].
  destruct l as [|b l]; [contradiction|].
  cbn [removelast]. intros [H|H]; [left; exact H|right; apply IH; exact H].
Qed.

Lemma txt_suffix_kept (l : string) :
  kept (l ++ ".txt") = true /\ l ++ ".txt" <> "..".
Proof.
  assert (Hlen : (4 <= String.length (l ++ ".txt"))%nat).
  { rewrite length_append. simpl. lia. }
  split.
  - unfold kept.
    destruct (String.eqb (l ++ ".txt") "") eqn:E1.
    { apply String.eqb_eq in E1. rewrite E1 in Hlen. simpl in Hlen. lia. }
    destruct (String.eqb (l ++ ".txt") ".") eqn:E2.
    { apply String.eqb_eq in E2. rewrite E2 in Hlen. simpl in Hlen. lia. }
    reflexivity.
  - intros E. rewrite E in Hlen. simpl in Hlen. lia.
Qed.

Lemma relative_txt (wildcard : string) :
  isabs wildcard = false ->
  wildcard ++ ".txt" <> "" /\ isabs (wildcard ++ ".txt") = false.
Proof.
  intros Hrel. destruct wildcard as [|c w].
  - split; [discriminate|reflexivity].
  - split; [discriminate|]. cbn [append].
    unfold isabs, startswith, sep in *. cbn [prefix] in *.
    destruct (ascii_dec "/" c); [|reflexivity].
    destruct w; discriminate Hrel.
Qed.

(** The path [wildcard_replace] builds for a relative key without [..] is
    strictly longer than the base directory it is joined to. *)
Lemma candidate_below_base (cwd wildcard wildcard_location : string) :
  isabs cwd = true -> isabs wildcard = false ->
  ~ In ".." (split "/" wildcard) ->
  let base_dir := abspath cwd wildcard_location in
  let candidate := abspath cwd (join base_dir (wildcard ++ ".txt")) in
  (String.length base_dir < String.length candidate)%nat
  /\ candidate <> base_dir.
Proof.
  intros Hcwd Hrel Hno base_dir candidate.
  destruct (abspath_absolute cwd wildcard_location Hcwd)
    as (P & HP & Hbase & Hbase_abs).
  fold base_dir in Hbase, Hbase_abs.
  destruct (relative_txt wildcard Hrel) as [HX HXrel].
  assert (Hsplit := split_app_suffix wildcard ".txt" eq_refl).
  assert (HnoX : ~ In ".." (split "/" (wildcard ++ ".txt"))).
  { rewrite Hsplit. intros Hin. apply in_app_or in Hin.
    destruct Hin as [Hin|[Hin|[]]].
    - apply Hno, in_removelast, Hin.
    - exact (proj2 (txt_suffix_kept _) Hin). }
  assert (Hcand : candidate = normpath (join base_dir (wildcard ++ ".txt"))).
  { unfold candidate, abspath.
    rewrite (join_absolute base_dir _ Hbase_abs). reflexivity. }
  destruct (normpath_join_below P (wildcard ++ ".txt") HP HX HXrel HnoX)
    as [HbaseP HcandP].
  rewrite <- Hbase in HbaseP, HcandP. rewrite <- Hcand in HcandP.
  set (K := filter kept (split "/" (wildcard ++ ".txt"))) in *.
  assert (HK : K <> []).
  { intros E.
    assert (Hin : In (last (split "/" wildcard) "" ++ ".txt") K).
    { apply filter_In. split; [|exact (proj1 (txt_suffix_kept _))].
      rewrite Hsplit. apply in_or_app. right. left. reflexivity. }
    rewrite E in Hin. contradiction. }
  assert (HKne : Forall (fun c => c <> "") K).
  { apply Forall_forall. intros c Hc. apply filter_In in Hc.
    apply kept_nonempty. exact (proj2 Hc). }
  assert (Hlen : (String.length base_dir < String.length candidate)%nat).
  { rewrite HbaseP, HcandP, !length_append.
    pose proof (concat_app_longer (norm_comps P) K HK HKne). lia. }
  split; [exact Hlen|]. intros E. rewrite E in Hlen. lia.
Qed.

End Below.

(** ** [wildcard_replace] stays inside the wildcard directory *)

Lemma abspath_normalized (cwd path : string) :
  isabs cwd = true -> normalized_absolute (abspath cwd path).
Proof.
  intros Hcwd.
  destruct (abspath_absolute cwd path Hcwd) as (full & Hfull & -> & _).
  destruct (normpath_absolute full Hfull) as [Heq Hproper].
  exists (initial_slashes full), (norm_comps full).
  split; [destruct (initial_slashes_absolute _ Hfull); lia|].
  split; assumption.
Qed.

(** Closes the branches in which the function raises before opening. *)
Ltac refused :=
  left; split; [reflexivity|]; eexists; split; [reflexivity|];
  unfold refusal; auto 6.

Section Wildcard.

Variable env : Env.
Variables wildcard wildcard_location : string.

Let base_dir : string := abspath (cwd env) wildcard_location.
Let candidate : string :=
  abspath (cwd env) (join base_dir (wildcard ++ ".txt")).

(** C9: with an absolute working directory, [wildcard_replace] either raises
    one of its four refusals without opening anything, or opens exactly one
    file: the normalized absolute path of [{wildcard}.txt] joined to the base
    directory.  That path has no [..] component, starts with the base
    directory followed by a separator and is strictly longer than it; and
    the file is opened only for a key that is not absolute and has no [..]
    component. *)
Theorem C9_wildcard_opens_only_inside_base :
  isabs (cwd env) = true ->
  let r := wildcard_replace env wildcard wildcard_location in
  (snd r = [] /\ exists e, fst r = Raise e /\ refusal candidate e)
  \/ (snd r = [candidate]
      /\ isabs wildcard = false
      /\ ~ In ".."%string (split "/" wildcard)
      /\ normalized_absolute candidate
      /\ startswith candidate (base_dir ++ sep) = true
      /\ (String.length base_dir < String.length candidate)%nat
      /\ fs env candidate <> None).
Proof.
  intros Hcwd.
  unfold wildcard_replace. fold base_dir. fold candidate.
  destruct (isabs wildcard) eqn:Habs; [refused|].
  destruct (existsb (String.eqb "..") (split "/" wildcard)) eqn:Hdots;
    [refused|].
  destruct (String.eqb candidate base_dir
            || startswith candidate (base_dir ++ sep)) eqn:Hin;
    simpl negb; cbv iota; [|refused].
  destruct (fs env candidate) as [lines|] eqn:Hfile; [|refused].
  assert (Hno : ~ In ".."%string (split "/" wildcard)).
  { intros Hin'. apply Bool.not_true_iff_false in Hdots. apply Hdots.
    apply existsb_exists. exists ".."%string. split; [exact Hin'|reflexivity]. }
  destruct (candidate_below_base (cwd env) wildcard wildcard_location
              Hcwd Habs Hno) as [Hlen Hneq].
  fold base_dir in Hlen, Hneq. fold candidate in Hlen, Hneq.
  right. simpl. split; [reflexivity|]. split; [reflexivity|].
  split; [exact Hno|].
  split; [apply abspath_normalized; exact Hcwd|].
  split; [|split; [exact Hlen|discriminate]].
  apply orb_true_iff in Hin. destruct Hin as [Heq|Hpre]; [|exact Hpre].
  apply String.eqb_eq in Heq. contradiction.
Qed.

End Wildcard.

Lemma C9_wildcard_opens_only_inside_base_witness :
  snd (wildcard_replace sample_env "colors/a" "w")
  = ["/home/u/w/colors/a.txt"%string]
  /\ normalized_absolute "/home/u/w/colors/a.txt"
  /\ startswith "/home/u/w/colors/a.txt" "/home/u/w/" = true.
Proof.
  destruct (C9_wildcard_opens_only_inside_base sample_env "colors/a" "w" eq_refl)
    as [[Hnil _]|(Hopen & _ & _ & Hnorm & _ & _)].
  - discriminate Hnil.
  - split; [exact Hopen|]. split; [exact Hnorm|reflexivity].
Defined.

(** * Further properties *)

(** ** More on the path [wildcard_replace] builds *)

Section CandidateShape.

Open Scope string_scope.

Lemma prefix_append (a b : string) : prefix a (a ++ b) = true.
Proof.
  induction a as [|x a IH]; simpl; [destruct b; reflexivity|].
  destruct (ascii_dec x x); [exact IH|contradiction].
Qed.

Lemma concat_app_sep (C K : list string) :
  C <> [] -> K <> [] ->
  String.concat "/" (C ++ K)%list
  = String.concat "/" C ++ "/" ++ String.concat "/" K.
Proof.
  intros HC HK. induction C as [|x C IH]; [contradiction|].
  destruct C as [|y C].
  - cbn [app]. apply concat_cons. exact HK.
  - change ((x :: y :: C) ++ K)%list with (x :: ((y :: C) ++ K))%list.
    rewrite (concat_cons x ((y :: C) ++ K)) by discriminate.
    rewrite IH by discriminate.
    rewrite (concat_cons x (y :: C)) by discriminate.
    rewrite !append_assoc. reflexivity.
Qed.

Lemma concat_split (s : string) : String.concat "/" (split "/" s) = s.
Proof.
  induction s as [|a s IH]; [reflexivity|]. cbn [split].
  pose proof (split_nonempty "/" s) as Hne.
  destruct (Ascii.eqb a "/") eqn:E.
  - apply Ascii.eqb_eq in E. subst a.
    rewrite concat_cons by exact Hne. rewrite IH. reflexivity.
  - destruct (split "/" s) as [|h t]; [contradiction|].
    destruct t as [|h' t].
    + cbn [String.concat] in *. rewrite IH. reflexivity.
    + rewrite concat_cons by discriminate.
      rewrite concat_cons in IH by discriminate.
      transitivity (String a (h ++ "/" ++ String.concat "/" (h' :: t)));
        [reflexivity|]. rewrite IH. reflexivity.
Qed.

Lemma concat_proper_empty (C : list string) :
  Forall proper_component C -> String.concat "/" C = "" -> C = [].
Proof.
  intros H E. destruct C as [|c C]; [reflexivity|].
  inversion H as [|? ? (Hc & _) _]; subst.
  destruct c as [|a c]; [contradiction|].
  destruct C; discriminate E.
Qed.

(** The shape of the base directory and of the candidate path for a key that
    passed the first two checks. *)
Lemma candidate_shape (cwd wildcard wildcard_location : string) :
  isabs cwd = true -> isabs wildcard = false ->
  ~ In ".." (split "/" wildcard) ->
  exists (n : nat) (C K : list string),
    (n = 1 \/ n = 2)%nat
    /\ Forall proper_component C
    /\ K = filter kept (split "/" (wildcard ++ ".txt"))
    /\ K <> []
    /\ abspath cwd wildcard_location = slashes n ++ String.concat "/" C
    /\ abspath cwd (join (abspath cwd wildcard_location) (wildcard ++ ".txt"))
       = slashes n ++ String.concat "/" (C ++ K)%list.
Proof.
  intros Hcwd Hrel Hno.
  destruct (abspath_absolute cwd wildcard_location Hcwd)
    as (P & HP & Hbase & Hbase_abs).
  destruct (relative_txt wildcard Hrel) as [HX HXrel].
  assert (Hsplit := split_app_suffix wildcard ".txt" eq_refl).
  assert (HnoX : ~ In ".." (split "/" (wildcard ++ ".txt"))).
  { rewrite Hsplit. intros Hin. apply in_app_or in Hin.
    destruct Hin as [Hin|[Hin|[]]].
    - apply Hno, in_removelast, Hin.
    - exact (proj2 (txt_suffix_kept _) Hin). }
  destruct (normpath_join_below P (wildcard ++ ".txt") HP HX HXrel HnoX)
    as [HbaseP HcandP].
  exists (initial_slashes P), (norm_comps P),
    (filter kept (split "/" (wildcard ++ ".txt"))).
  split; [apply initial_slashes_absolute; exact HP|].
  split; [exact (proj2 (normpath_absolute P HP))|].
  split; [reflexivity|]. split.
  - intros E.
    assert (Hin : In (last (split "/" wildcard) "" ++ ".txt")
                    (filter kept (split "/" (wildcard ++ ".txt")))).
    { apply filter_In. split; [|exact (proj1 (txt_suffix_kept _))].
      rewrite Hsplit. apply in_or_app. right. left. reflexivity. }
    rewrite E in Hin. contradiction.
  - rewrite Hbase. split; [exact HbaseP|].
    unfold abspath at 1. rewrite <- Hbase.
    rewrite (join_absolute _ _ Hbase_abs). rewrite Hbase. exact HcandP.
Qed.

End CandidateShape.

Section WildcardFile.

Variable env : Env.

Lemma wildcard_replace_opened (wildcard wildcard_location p : string) :
  snd (wildcard_replace env wildcard wildcard_location) = [p] ->
  isabs wildcard = false
  /\ ~ In ".."%string (split "/" wildcard)
  /\ p = abspath (cwd env)
           (join (abspath (cwd env) wildcard_location) (wildcard ++ ".txt"))
  /\ exists lines,
       fs env p = Some lines
       /\ fst (wildcard_replace env wildcard wildcard_location)
          = pick_option env lines.
Proof.
  unfold wildcard_replace.
  destruct (isabs wildcard) eqn:Habs; [discriminate|].
  destruct (existsb (String.eqb "..") (split "/" wildcard)) eqn:Hdots;
    [discriminate|].
  match goal with
  | |- context [negb ?g] => destruct g; cbn [negb]; [|discriminate]
  end.
  match goal with
  | |- context [fs env ?c] => destruct (fs env c) as [lines|] eqn:Hfile;
                              [|discriminate]
  end.
  cbn [snd fst]. intros H. inversion H; subst p.
  split; [reflexivity|]. split.
  - intros Hin. apply Bool.not_true_iff_false in Hdots. apply Hdots.
    apply existsb_exists. exists ".."%string. split; [exact Hin|reflexivity].
  - split; [reflexivity|]. exists lines. split; [exact Hfile|reflexivity].
Qed.

Lemma parse_line_cases (acc : list string * list R) (raw : string) :
  (skipped_line raw /\ parse_line env acc raw = Ok acc)
  \/ (bad_weight_line env raw
      /\ parse_line env acc raw = Raise (ValueError "Invalid weight"))
  \/ (exists name weight,
        (name = ""%string /\ parse_line env acc raw = Ok acc
         \/ entry_of raw name
            /\ parse_line env acc raw
               = Ok (fst acc ++ [name], snd acc ++ [weight]))).
Proof.
  unfold parse_line, skipped_line, bad_weight_line, entry_of.
  destruct (String.eqb (strip raw) "") eqn:E1.
  { left. apply String.eqb_eq in E1. cbn [orb]. auto. }
  destruct (startswith (strip raw) "#") eqn:E2.
  { left. cbn [orb]. auto. }
  cbn [orb]. apply String.eqb_neq in E1. right.
  destruct (split_colon (strip raw)) as [[n w]|] eqn:E3.
  - destruct (parse_float env (strip w)) as [weight|] eqn:E4.
    + right. exists (strip n), weight. cbn [bind fst snd].
      destruct (String.eqb (strip n) "") eqn:E5.
      * left. apply String.eqb_eq in E5. auto.
      * right. apply String.eqb_neq in E5. auto.
    + left. cbn [bind]. split; [|reflexivity].
      split; [exact E1|]. split; [reflexivity|]. exists n, w. auto.
  - right. exists (strip raw), 1%R. cbn [bind fst snd].
    apply String.eqb_neq in E1. rewrite E1. right.
    apply String.eqb_neq in E1. auto.
Qed.

(** The loop keeps the two lists in step. *)
Lemma parse_lines_lengths (lines : list string)
  (acc acc' : list string * list R) :
  parse_lines env acc lines = Ok acc' ->
  length (fst acc) = length (snd acc) ->
  length (fst acc') = length (snd acc').
Proof.
  revert acc. induction lines as [|raw lines IH]; intros acc Hrun Hlen.
  - inversion Hrun; subst. exact Hlen.
  - cbn [parse_lines] in Hrun.
    destruct (parse_line_cases acc raw)
      as [[_ E]|[[_ E]|(name & weight & [[_ E]|[_ E]])]];
      rewrite E in Hrun; cbn [bind] in Hrun;
      try discriminate Hrun; try (eapply IH; eassumption).
    eapply IH; [exact Hrun|]. cbn [fst snd]. rewrite !length_app.
    simpl. lia.
Qed.

Lemma parse_lines_entries (lines : list string)
  (acc acc' : list string * list R) :
  parse_lines env acc lines = Ok acc' ->
  Forall (fun o => In o (fst acc)
                   \/ exists raw, In raw lines /\ entry_of raw o) (fst acc').
Proof.
  revert acc. induction lines as [|raw lines IH]; intros acc Hrun.
  - inversion Hrun; subst. apply Forall_forall. auto.
  - cbn [parse_lines] in Hrun.
    destruct (parse_line_cases acc raw)
      as [[_ E]|[[_ E]|(name & weight & [[_ E]|[Hentry E]])]];
      rewrite E in Hrun; cbn [bind] in Hrun; try discriminate Hrun.
    + eapply Forall_impl; [|exact (IH _ Hrun)].
      intros o [Ho|(r & Hr & He)]; [left; exact Ho|].
      right. exists r. split; [right; exact Hr|exact He].
    + eapply Forall_impl; [|exact (IH _ Hrun)].
      intros o [Ho|(r & Hr & He)]; [left; exact Ho|].
      right. exists r. split; [right; exact Hr|exact He].
    + eapply Forall_impl; [|exact (IH _ Hrun)]. cbn [fst].
      intros o [Ho|(r & Hr & He)].
      * apply in_app_or in Ho. destruct Ho as [Ho|[<-|[]]]; [left; exact Ho|].
        right. exists raw. split; [left; reflexivity|exact Hentry].
      * right. exists r. split; [right; exact Hr|exact He].
Qed.

Lemma parse_lines_skipped (lines : list string) (acc : list string * list R) :
  Forall skipped_line lines -> parse_lines env acc lines = Ok acc.
Proof.
  induction 1 as [|raw lines Hraw _ IH]; [reflexivity|].
  cbn [parse_lines]. unfold parse_line.
  destruct Hraw as [E|E]; rewrite E.
  - cbn [String.eqb orb bind]. exact IH.
  - rewrite orb_true_r. cbn [bind]. exact IH.
Qed.

Lemma parse_lines_bad_weight (lines : list string)
  (acc : list string * list R) :
  Exists (bad_weight_line env) lines ->
  parse_lines env acc lines = Raise (ValueError "Invalid weight").
Proof.
  intros Hex. revert acc.
  induction lines as [|raw lines IH]; intros acc; [inversion Hex|].
  cbn [parse_lines].
  destruct (parse_line_cases acc raw)
    as [[Hskip E]|[[_ E]|(name & weight & [[Hn E]|[Hentry E]])]];
    rewrite E; cbn [bind]; try reflexivity;
    inversion Hex as [? ? Hbad|? ? Hrest]; subst;
    try (apply IH; exact Hrest); exfalso.
  - destruct Hbad as (H1 & H2 & _). destruct Hskip as [Hs|Hs]; congruence.
  - destruct Hbad as (H1 & H2 & n & w & Hsplit & Hfloat).
    unfold parse_line in E. apply String.eqb_neq in H1.
    rewrite H1, H2, Hsplit, Hfloat in E. discriminate E.
  - destruct Hbad as (H1 & H2 & n & w & Hsplit & Hfloat).
    unfold parse_line in E. apply String.eqb_neq in H1.
    rewrite H1, H2, Hsplit, Hfloat in E. discriminate E.
Qed.

End WildcardFile.

Section WildcardOutcomes.

Variable env : Env.
Variables wildcard wildcard_location : string.

Let base_dir : string := abspath (cwd env) wildcard_location.
Let candidate : string :=
  abspath (cwd env) (join base_dir (wildcard ++ ".txt")).

Lemma no_dotdot_existsb :
  ~ In ".."%string (split "/" wildcard) ->
  existsb (String.eqb "..") (split "/" wildcard) = false.
Proof.
  intros Hno. apply Bool.not_true_iff_false. intros H.
  apply existsb_exists in H. destruct H as (c & Hin & Hc).
  apply String.eqb_eq in Hc. subst c. exact (Hno Hin).
Qed.

Lemma kept_head (K : list string) :
  K = filter kept (split "/" (wildcard ++ ".txt")) -> K <> [] ->
  exists ch r, String.concat "/" K = String ch r /\ ch <> "/"%char.
Proof.
  intros HK Hne. destruct K as [|k K]; [contradiction|].
  assert (Hin : In k (filter kept (split "/" (wildcard ++ ".txt")))).
  { rewrite <- HK. left. reflexivity. }
  apply filter_In in Hin. destruct Hin as [Hin Hkept].
  apply concat_head; [apply kept_nonempty; exact Hkept|].
  pose proof (split_components_sep_free (wildcard ++ ".txt")) as Hfree.
  rewrite Forall_forall in Hfree. apply Hfree. exact Hin.
Qed.

(** X1: when the wildcard location resolves to the root directory, every key
    is refused with a [ValueError] and nothing is opened: [base_dir + os.sep]
    is then "//", which no normalized candidate starts with. *)
Theorem wildcard_root_location_refuses_every_key :
  isabs (cwd env) = true ->
  base_dir = "/"%string ->
  snd (wildcard_replace env wildcard wildcard_location) = []
  /\ exists msg,
       fst (wildcard_replace env wildcard wildcard_location)
       = Raise (ValueError msg).
Proof.
  intros Hcwd Hroot. unfold wildcard_replace.
  destruct (isabs wildcard) eqn:Habs; [split; [reflexivity|eexists; reflexivity]|].
  destruct (existsb (String.eqb "..") (split "/" wildcard)) eqn:Hdots;
    [split; [reflexivity|eexists; reflexivity]|].
  assert (Hno : ~ In ".."%string (split "/" wildcard)).
  { intros Hin. apply Bool.not_true_iff_false in Hdots. apply Hdots.
    apply existsb_exists. exists ".."%string. split; [exact Hin|reflexivity]. }
  destruct (candidate_shape (cwd env) wildcard wildcard_location Hcwd Habs Hno)
    as (n & C & K & Hn & HC & HK & HKne & Hbase & Hcand).
  fold base_dir in Hbase, Hcand. fold candidate in Hcand.
  fold base_dir. fold candidate.
  assert (HC0 : n = 1%nat /\ C = []).
  { rewrite Hroot in Hbase. destruct Hn as [-> | ->].
    - split; [reflexivity|]. apply concat_proper_empty; [exact HC|].
      cbn in Hbase. inversion Hbase. reflexivity.
    - exfalso. cbn in Hbase. inversion Hbase. }
  destruct HC0 as [-> ->]. cbn [app] in Hcand.
  destruct (kept_head K HK HKne) as (ch & r & Hhead & Hch).
  rewrite Hhead in Hcand.
  assert (Hguard : String.eqb candidate base_dir
                   || startswith candidate (base_dir ++ sep) = false).
  { rewrite Hcand, Hroot. unfold startswith, sep, slashes.
    cbn [repeat String.concat append String.eqb prefix].
    destruct (ascii_dec "/" "/") as [_|N]; [|contradiction].
    destruct (ascii_dec "/" ch) as [E|_];
      [exfalso; apply Hch; symmetry; exact E|].
    rewrite Ascii.eqb_refl. reflexivity. }
  rewrite Hguard. cbn [negb]. split; [reflexivity|eexists; reflexivity].
Qed.

Hypothesis cwd_absolute : isabs (cwd env) = true.
Hypothesis relative_key : isabs wildcard = false.
Hypothesis no_parent : ~ In ".."%string (split "/" wildcard).
Hypothesis not_root : base_dir <> "/"%string /\ base_dir <> "//"%string.

Lemma candidate_under_base :
  exists K,
    K = filter kept (split "/" (wildcard ++ ".txt"))
    /\ candidate = (base_dir ++ "/" ++ String.concat "/" K)%string.
Proof.
  destruct (candidate_shape (cwd env) wildcard wildcard_location
              cwd_absolute relative_key no_parent)
    as (n & C & K & Hn & HC & HK & HKne & Hbase & Hcand).
  fold base_dir in Hbase, Hcand. fold candidate in Hcand.
  exists K. split; [exact HK|].
  assert (HCne : C <> []).
  { intros ->. destruct not_root as [H1 H2].
    destruct Hn as [-> | ->]; [apply H1|apply H2]; exact Hbase. }
  rewrite Hcand, Hbase, concat_app_sep by assumption.
  rewrite !append_assoc. reflexivity.
Qed.

Lemma guard_passes :
  String.eqb candidate base_dir
  || startswith candidate (base_dir ++ sep) = true.
Proof.
  destruct candidate_under_base as (K & _ & Hcand).
  apply orb_true_iff. right. rewrite Hcand. unfold startswith, sep.
  rewrite <- append_assoc. apply prefix_append.
Qed.

Lemma accepted_outcome :
  wildcard_replace env wildcard wildcard_location
  = match fs env candidate with
    | None => (Raise (FileNotFoundError candidate), [])
    | Some lines => (pick_option env lines, [candidate])
    end.
Proof.
  unfold wildcard_replace. rewrite relative_key.
  rewrite (no_dotdot_existsb no_parent).
  fold base_dir. fold candidate. rewrite guard_passes. cbn [negb].
  destruct (fs env candidate); reflexivity.
Qed.

(** X2: for a base directory other than the root, a relative key without
    [..] is never refused as escaping: the candidate starts with the base
    directory and a separator, and the call either reports the missing file
    or reads exactly that file. *)
Theorem wildcard_accepted_key_never_escapes :
  startswith candidate (base_dir ++ sep) = true
  /\ (fs env candidate = None ->
      wildcard_replace env wildcard wildcard_location
      = (Raise (FileNotFoundError candidate), []))
  /\ (forall lines,
        fs env candidate = Some lines ->
        wildcard_replace env wildcard wildcard_location
        = (pick_option env lines, [candidate])).
Proof.
  split.
  - destruct candidate_under_base as (K & _ & Hcand).
    rewrite Hcand. unfold startswith, sep.
    rewrite <- append_assoc. apply prefix_append.
  - rewrite accepted_outcome. split.
    + intros ->. reflexivity.
    + intros lines ->. reflexivity.
Qed.

End WildcardOutcomes.

Lemma proper_components_relative (wildcard : string) :
  Forall proper_component (split "/" wildcard) ->
  isabs wildcard = false /\ ~ In ".."%string (split "/" wildcard).
Proof.
  intros H. split.
  - destruct (isabs wildcard) eqn:E; [|reflexivity].
    destruct (isabs_inv _ E) as [t ->]. cbn [split] in H.
    rewrite Ascii.eqb_refl in H. inversion H as [|? ? (Hne & _) _].
    contradiction.
  - intros Hin. rewrite Forall_forall in H.
    destruct (H _ Hin) as (_ & _ & Hdd). apply Hdd. reflexivity.
Qed.

(** X3: sub-directories are supported as the docstring says.  For a key whose
    components are all non-empty and none of them [.] or [..] (such as
    "colors/Autumn"), and a base directory other than the root, the file
    looked up is [base_dir/key.txt], character for character. *)
Theorem wildcard_subdirectory_key_path (env : Env)
  (wildcard wildcard_location : string) :
  isabs (cwd env) = true ->
  Forall proper_component (split "/" wildcard) ->
  let base_dir := abspath (cwd env) wildcard_location in
  base_dir <> "/"%string /\ base_dir <> "//"%string ->
  let path := (base_dir ++ "/" ++ wildcard ++ ".txt")%string in
  abspath (cwd env) (join base_dir (wildcard ++ ".txt")) = path
  /\ wildcard_replace env wildcard wildcard_location
     = match fs env path with
       | None => (Raise (FileNotFoundError path), [])
       | Some lines => (pick_option env lines, [path])
       end.
Proof.
  intros Hcwd Hproper base_dir Hroot path.
  destruct (proper_components_relative wildcard Hproper) as [Hrel Hno].
  destruct (candidate_under_base env wildcard wildcard_location
              Hcwd Hrel Hno Hroot) as (K & HK & Hcand).
  assert (Hpath : abspath (cwd env) (join base_dir (wildcard ++ ".txt")) = path).
  { fold base_dir in Hcand. rewrite Hcand. unfold path. f_equal. f_equal.
    rewrite HK, forallb_filter_id; [apply concat_split|].
    rewrite (split_app_suffix wildcard ".txt" eq_refl).
    rewrite forallb_app. apply andb_true_intro. split.
    - apply forallb_forall. intros c Hc. apply kept_proper.
      rewrite Forall_forall in Hproper. apply Hproper, in_removelast, Hc.
    - cbn [forallb]. rewrite (proj1 (txt_suffix_kept _)). reflexivity. }
  split; [exact Hpath|].
  rewrite (accepted_outcome env wildcard wildcard_location Hcwd Hrel Hno Hroot).
  fold base_dir. rewrite Hpath. reflexivity.
Qed.

(** X4: the parser keeps one weight per option: [random.choices] is handed
    as many weights as options. *)
Theorem wildcard_one_weight_per_option (env : Env) (lines : list string)
  (parsed : list string * list R) :
  parse_lines env ([], []) lines = Ok parsed ->
  length (fst parsed) = length (snd parsed).
Proof.
  intros H. exact (parse_lines_lengths env lines _ _ H eq_refl).
Qed.

(** X5: provided [random.choices] returns one of the options it is given,
    whatever [wildcard_replace] returns is an option of the file it read:
    the stripped text of a non-blank, non-comment line, cut at the first
    colon when there is one, and never the empty string. *)
Theorem wildcard_result_is_file_entry (env : Env)
  (wildcard wildcard_location result : string) :
  (forall options weights r,
      choices env options weights = Ok r -> In r options) ->
  fst (wildcard_replace env wildcard wildcard_location) = Ok result ->
  exists path lines raw,
    snd (wildcard_replace env wildcard wildcard_location) = [path]
    /\ fs env path = Some lines
    /\ In raw lines
    /\ entry_of raw result.
Proof.
  intros Hchoices Hrun.
  destruct (snd (wildcard_replace env wildcard wildcard_location))
    as [|path rest] eqn:Hopen.
  { exfalso. revert Hrun Hopen. unfold wildcard_replace.
    destruct (isabs wildcard); [discriminate|].
    destruct (existsb (String.eqb "..") (split "/" wildcard)); [discriminate|].
    match goal with |- context [negb ?g] => destruct g; cbn [negb] end;
      [|discriminate].
    match goal with |- context [fs env ?c] => destruct (fs env c) end;
      discriminate. }
  assert (Hrest : rest = []).
  { revert Hopen. unfold wildcard_replace.
    destruct (isabs wildcard); [discriminate|].
    destruct (existsb (String.eqb "..") (split "/" wildcard)); [discriminate|].
    match goal with |- context [negb ?g] => destruct g; cbn [negb] end;
      [|discriminate].
    match goal with |- context [fs env ?c] => destruct (fs env c) end;
      [|discriminate].
    cbn [snd]. intros H. inversion H. reflexivity. }
  subst rest.
  destruct (wildcard_replace_opened env wildcard wildcard_location path Hopen)
    as (_ & _ & _ & lines & Hfile & Hpick).
  rewrite Hpick in Hrun. unfold pick_option in Hrun.
  destruct (parse_lines env ([], []) lines) as [parsed|e] eqn:Hparse;
    [|discriminate Hrun].
  cbn [bind] in Hrun.
  destruct (fst parsed) as [|o options] eqn:Hopts; [discriminate Hrun|].
  apply Hchoices in Hrun.
  pose proof (parse_lines_entries env lines _ _ Hparse) as Hall.
  rewrite Hopts, Forall_forall in Hall.
  destruct (Hall _ Hrun) as [[]|(raw & Hraw & Hentry)].
  exists path, lines, raw. auto.
Qed.

(** X6: a wildcard file holding only blank lines and comments yields no
    option: the call raises [ValueError] instead of returning. *)
Theorem wildcard_comments_only_raises (env : Env)
  (wildcard wildcard_location path : string) (lines : list string) :
  snd (wildcard_replace env wildcard wildcard_location) = [path] ->
  fs env path = Some lines ->
  Forall skipped_line lines ->
  fst (wildcard_replace env wildcard wildcard_location)
  = Raise (ValueError "No valid options found in wildcard file").
Proof.
  intros Hopen Hfile Hskip.
  destruct (wildcard_replace_opened env wildcard wildcard_location path Hopen)
    as (_ & _ & _ & lines' & Hfile' & ->).
  rewrite Hfile in Hfile'. inversion Hfile'; subst lines'.
  unfold pick_option. rewrite parse_lines_skipped by exact Hskip.
  reflexivity.
Qed.

(** X7: one line whose weight [float] rejects makes the whole lookup fail
    with [ValueError], whatever the other lines hold; no option is drawn. *)
Theorem wildcard_bad_weight_raises (env : Env)
  (wildcard wildcard_location path : string) (lines : list string) :
  snd (wildcard_replace env wildcard wildcard_location) = [path] ->
  fs env path = Some lines ->
  Exists (bad_weight_line env) lines ->
  fst (wildcard_replace env wildcard wildcard_location)
  = Raise (ValueError "Invalid weight").
Proof.
  intros Hopen Hfile Hbad.
  destruct (wildcard_replace_opened env wildcard wildcard_location path Hopen)
    as (_ & _ & _ & lines' & Hfile' & ->).
  rewrite Hfile in Hfile'. inversion Hfile'; subst lines'.
  unfold pick_option. rewrite parse_lines_bad_weight by exact Hbad.
  reflexivity.
Qed.

Lemma colors_key_relative : ~ In ".."%string (split "/" "colors/a").
Proof. intros [H|[H|[]]]; discriminate H. Qed.

Lemma colors_base_not_root :
  abspath (cwd colors_env) "w" <> "/"%string
  /\ abspath (cwd colors_env) "w" <> "//"%string.
Proof. split; intros H; vm_compute in H; discriminate H. Qed.

Lemma wildcard_root_location_refuses_every_key_witness :
  snd (wildcard_replace colors_env "colors/a" "/") = []
  /\ exists msg,
       fst (wildcard_replace colors_env "colors/a" "/") = Raise (ValueError msg).
Proof.
  exact (wildcard_root_location_refuses_every_key colors_env "colors/a" "/"
           eq_refl eq_refl).
Defined.

Lemma wildcard_accepted_key_never_escapes_witness :
  startswith "/home/u/w/colors/a.txt" "/home/u/w/" = true
  /\ wildcard_replace colors_env "colors/a" "w"
     = (pick_option colors_env ["red"; "# comment"; "blue: 2"]%string,
        ["/home/u/w/colors/a.txt"%string]).
Proof.
  destruct (wildcard_accepted_key_never_escapes colors_env "colors/a" "w"
              eq_refl eq_refl colors_key_relative colors_base_not_root)
    as (Hstart & _ & Hread).
  split; [exact Hstart|]. apply Hread. reflexivity.
Defined.

Lemma wildcard_subdirectory_key_path_witness :
  abspath "/home/u" (join (abspath "/home/u" "w") "colors/a.txt")
  = "/home/u/w/colors/a.txt"%string.
Proof.
  refine (proj1 (wildcard_subdirectory_key_path colors_env "colors/a" "w"
                   eq_refl _ colors_base_not_root)).
  repeat constructor; discriminate.
Defined.

Lemma wildcard_one_weight_per_option_witness :
  length ["red"; "blue"]%string = length [1%R; 2%R].
Proof.
  exact (wildcard_one_weight_per_option colors_env
           ["red"; "# comment"; "blue: 2"]%string
           (["red"; "blue"]%string, [1%R; 2%R]) eq_refl).
Defined.

Lemma wildcard_result_is_file_entry_witness :
  exists path lines raw,
    snd (wildcard_replace colors_env "colors/a" "w") = [path]
    /\ fs colors_env path = Some lines
    /\ In raw lines
    /\ entry_of raw "red".
Proof.
  apply (wildcard_result_is_file_entry colors_env "colors/a" "w" "red").
  - intros [|o options] weights r H; [discriminate H|].
    inversion H. left. reflexivity.
  - reflexivity.
Defined.

Lemma wildcard_comments_only_raises_witness :
  fst (wildcard_replace comments_env "a" "w")
  = Raise (ValueError "No valid options found in wildcard file").
Proof.
  apply (wildcard_comments_only_raises comments_env "a" "w"
           "/home/u/w/a.txt" ["# only"; "   "]%string);
    [reflexivity|reflexivity|].
  constructor; [right; reflexivity|].
  constructor; [left; reflexivity|]. constructor.
Defined.

Lemma wildcard_bad_weight_raises_witness :
  fst (wildcard_replace strict_env "a" "w")
  = Raise (ValueError "Invalid weight").
Proof.
  apply (wildcard_bad_weight_raises strict_env "a" "w"
           "/home/u/w/a.txt" ["red"; "blue: heavy"]%string);
    [reflexivity|reflexivity|].
  apply Exists_cons_tl, Exists_cons_hd.
  split; [discriminate|]. split; [reflexivity|].
  exists "blue"%string, " heavy"%string. split; reflexivity.
Defined.

(** ** Pixels as bytes *)

Section Bytes.

Open Scope R_scope.

Lemma clamp01_range (x : R) : 0 <= clamp01 x <= 1.
Proof.
  unfold clamp01, Rmax, Rmin.
  destruct (Rle_dec x 1); destruct (Rle_dec 0 _); lra.
Qed.

Lemma clamp01_low (x : R) : x <= 0 -> clamp01 x = 0.
Proof.
  intros H. unfold clamp01, Rmax, Rmin.
  destruct (Rle_dec x 1); destruct (Rle_dec 0 _); lra.
Qed.

Lemma clamp01_high (x : R) : 1 <= x -> clamp01 x = 1.
Proof.
  intros H. unfold clamp01, Rmax, Rmin.
  destruct (Rle_dec x 1); destruct (Rle_dec 0 _); lra.
Qed.

Lemma to_byte_is_byte (x : R) : is_byte (to_byte x).
Proof.
  unfold is_byte, to_byte. pose proof (clamp01_range x) as Hc.
  destruct (base_Int_part (clamp01 x * 255)) as [Hle Hgt].
  split.
  - assert (H : (-1 < Int_part (clamp01 x * 255))%Z).
    { apply lt_IZR. lra. }
    lia.
  - apply le_IZR. lra.
Qed.

Lemma zipcons_Forall {A : Type} (P : A -> Prop) (r : list A)
  (cols : list (list A)) :
  Forall P r -> Forall (Forall P) cols -> Forall (Forall P) (zipcons r cols).
Proof.
  revert cols. induction r as [|x r IH]; intros cols Hr Hc; [constructor|].
  destruct cols as [|c cols]; [constructor|]. cbn [zipcons].
  inversion Hr; subst. inversion Hc; subst.
  constructor; [constructor; assumption|]. apply IH; assumption.
Qed.

Lemma transpose_Forall {A : Type} (P : A -> Prop) (l : list (list A)) :
  Forall (Forall P) l -> Forall (Forall P) (transpose l).
Proof.
  induction l as [|r rs IH]; intros H; [constructor|].
  inversion H as [|? ? Hr Hrs]; subst. destruct rs as [|r' rs].
  - cbn [transpose]. apply Forall_map.
    eapply Forall_impl; [|exact Hr]. intros x Hx.
    constructor; [exact Hx|constructor].
  - change (transpose (r :: r' :: rs))
      with (zipcons r (transpose (r' :: rs))).
    apply zipcons_Forall; [exact Hr|]. apply IH. exact Hrs.
Qed.

(** X8: whatever the frame holds, every pixel of the picture handed to the
    image or video writer is a byte between 0 and 255; values at or below 0
    become 0 and values at or above 1 become 255 (no wrap-around). *)
Theorem frame_bytes_saturate (frame : tensor3) :
  Forall (Forall (Forall is_byte)) (to_image frame)
  /\ (forall x, x <= 0 -> to_byte x = 0%Z)
  /\ (forall x, 1 <= x -> to_byte x = 255%Z).
Proof.
  split; [|split].
  - unfold to_image, permute120.
    apply Forall_map.
    assert (H : Forall (Forall (Forall is_byte))
                  (map (map (map to_byte)) frame)).
    { apply Forall_map, Forall_forall. intros plane _.
      apply Forall_map, Forall_forall. intros row _.
      apply Forall_map, Forall_forall. intros x _. apply to_byte_is_byte. }
    apply transpose_Forall in H.
    eapply Forall_impl; [|exact H]. intros plane Hplane.
    apply transpose_Forall. exact Hplane.
  - intros x Hx. unfold to_byte. rewrite clamp01_low by exact Hx.
    symmetry. apply Int_part_spec. simpl. lra.
  - intros x Hx. unfold to_byte. rewrite clamp01_high by exact Hx.
    symmetry. apply Int_part_spec. simpl. lra.
Qed.

End Bytes.

Lemma frame_bytes_saturate_witness :
  to_byte (-1) = 0%Z /\ to_byte 2 = 255%Z.
Proof.
  destruct (frame_bytes_saturate []) as (_ & Hlow & Hhigh).
  split; [apply Hlow|apply Hhigh]; lra.
Defined.

(** ** More on the noise normalizer *)

Section NormalizerShift.

Open Scope R_scope.

Lemma map_ext_Forall {A B : Type} (f g : A -> B) (l : list A) :
  Forall (fun x => f x = g x) l -> map f l = map g l.
Proof.
  induction 1 as [|x l Hx _ IH]; [reflexivity|].
  cbn [map]. rewrite Hx, IH. reflexivity.
Qed.

Lemma map5d_ext_in (f g : R -> R) (t : tensor5) :
  (forall x, In x (flatten5 t) -> f x = g x) -> map5d f t = map5d g t.
Proof.
  intros H.
  assert (Hall : Forall (Forall (Forall (Forall (Forall
                   (fun x => f x = g x))))) t).
  { apply Forall_forall in H. unfold flatten5 in H.
    rewrite Forall_concat_dim, Forall_map in H.
    eapply Forall_impl; [|exact H]. intros t4 H4. unfold flatten4 in H4.
    rewrite Forall_concat_dim, Forall_map in H4.
    eapply Forall_impl; [|exact H4]. intros t3 H3.
    apply all3_flatten. exact H3. }
  unfold map5d, map4d, map3d, map2d.
  apply map_ext_Forall. eapply Forall_impl; [|exact Hall]. intros t4 H4.
  apply map_ext_Forall. eapply Forall_impl; [|exact H4]. intros t3 H3.
  apply map_ext_Forall. eapply Forall_impl; [|exact H3]. intros t2 H2.
  apply map_ext_Forall. eapply Forall_impl; [|exact H2]. intros t1 H1.
  apply map_ext_Forall. exact H1.
Qed.

Lemma map5d_map5d (f g : R -> R) (t : tensor5) :
  map5d f (map5d g t) = map5d (fun x => f (g x)) t.
Proof.
  unfold map5d, map4d, map3d, map2d.
  rewrite map_map. apply map_ext. intros t4.
  rewrite map_map. apply map_ext. intros t3.
  rewrite map_map. apply map_ext. intros t2.
  rewrite map_map. apply map_ext. intros t1.
  apply map_map.
Qed.

Lemma sum_map_shift (b : R) (xs : list R) :
  sum (map (fun x => x + b) xs) = sum xs + INR (length xs) * b.
Proof.
  induction xs as [|x xs IH].
  - simpl. ring.
  - cbn [map sum fold_right length]. fold (sum (map (fun x => x + b) xs)).
    fold (sum xs). rewrite IH, S_INR. ring.
Qed.

Lemma mean_shift (b : R) (xs : list R) :
  xs <> [] -> mean (map (fun x => x + b) xs) = mean xs + b.
Proof.
  intros Hne. unfold mean. rewrite sum_map_shift, length_map.
  assert (0 < INR (length xs)).
  { apply lt_0_INR. destruct xs; [contradiction|simpl; lia]. }
  field. lra.
Qed.

Lemma std_shift (b : R) (xs : list R) :
  xs <> [] -> std (map (fun x => x + b) xs) = std xs.
Proof.
  intros Hne. unfold std. rewrite mean_shift by exact Hne.
  rewrite length_map. f_equal. f_equal. unfold sqdev.
  rewrite map_map. f_equal. apply map_ext. intros x. ring.
Qed.

(** X9: the normalizer is blind to a constant offset: for a tensor with at
    least two elements (fewer have no standard deviation), adding the same
    number to every element leaves the output unchanged. *)
Theorem normalize_ignores_offset (b : R) (t : tensor5) :
  (1 < length (flatten5 t))%nat ->
  normalize (map5d (fun x => x + b) t) = normalize t.
Proof.
  intros Hlen. unfold normalize. rewrite map5d_map5d, flatten5_map5d.
  apply map5d_ext_in. intros x Hx.
  assert (Hne : flatten5 t <> []) by (intros E; rewrite E in Hx; exact Hx).
  rewrite mean_shift, std_shift by exact Hne.
  f_equal. ring.
Qed.

Lemma normalize_ignores_offset_witness :
  normalize (map5d (fun x => x + 3) small_latent) = normalize small_latent.
Proof.
  apply (normalize_ignores_offset 3 small_latent). simpl. lia.
Defined.

End NormalizerShift.

Section NormalizerEdges.

Variable self : LatentPreviewer.

(** X10: in exact arithmetic, an all-equal latent over an all-equal
    reference does not divide by zero: the standard deviation is 0, the
    epsilon keeps the denominator positive and the output is the all-zero
    tensor of the same shape.  (In floating point the rounding error of the
    mean, divided by 1e-5, takes the place of the zero.) *)
Theorem constant_latent_normalizes_to_zero (b c f h w : nat) (v r : R)
  (step : Z) (noise_remaining : R) :
  original_latents self = full5 b c f h w r ->
  getitem (timesteps_percent self) step = Ok noise_remaining ->
  (1 < b * (c * (f * (h * w))))%nat ->
  subtract_original_and_normalize self (full5 b c f h w v) step
  = Ok (full5 b c f h w 0%R).
Proof.
  intros Horig Hstep Hn. unfold subtract_original_and_normalize.
  rewrite (subtract_original_residual self _ step noise_remaining Hstep)
    by (rewrite Horig; apply same_shape5_full5).
  cbn [bind]. rewrite Horig, map5d_full5, zip5_full5.
  rewrite normalize_full5 by lia. reflexivity.
Qed.

Lemma getitem_out_of_range {A : Type} (l : list A) (i : Z) :
  (Z.of_nat (length l) <= i \/ i < - Z.of_nat (length l))%Z ->
  getitem l i = Raise IndexError.
Proof.
  intros H. unfold getitem.
  destruct (i <? 0)%Z eqn:E.
  - apply Z.ltb_lt in E.
    destruct ((0 <=? i + Z.of_nat (length l))
              && (i + Z.of_nat (length l) <? Z.of_nat (length l)))%Z eqn:E2;
      [|reflexivity].
    apply andb_true_iff in E2. destruct E2 as [E2 _].
    apply Z.leb_le in E2. lia.
  - apply Z.ltb_ge in E.
    destruct ((0 <=? i) && (i <? Z.of_nat (length l)))%Z eqn:E2;
      [|reflexivity].
    apply andb_true_iff in E2. destruct E2 as [_ E2].
    apply Z.ltb_lt in E2. lia.
Qed.

Lemma getitem_negative {A : Type} (l : list A) (i : Z) :
  (- Z.of_nat (length l) <= i < 0)%Z ->
  getitem l i = getitem l (i + Z.of_nat (length l)).
Proof.
  intros H. unfold getitem.
  assert (E1 : (i <? 0)%Z = true) by (apply Z.ltb_lt; lia).
  assert (E2 : (i + Z.of_nat (length l) <? 0)%Z = false)
    by (apply Z.ltb_ge; lia).
  rewrite E1, E2. reflexivity.
Qed.

(** X11: a step index outside the schedule (at or past its length, or below
    minus its length) makes [preview] raise [IndexError] before anything is
    decoded or written, in either decode mode and for any model family. *)
Theorem preview_step_out_of_range (av : Stream) (noisy_latents : Latent)
  (step : Z) (log : list event) :
  (Z.of_nat (length (timesteps_percent self)) <= step
   \/ step < - Z.of_nat (length (timesteps_percent self)))%Z ->
  preview av self noisy_latents step log = (Raise IndexError, log).
Proof.
  intros H. unfold preview, bind_io, lift, preview_frames,
    subtract_original_and_normalize, subtract_original.
  rewrite (getitem_out_of_range _ _ H).
  destruct noisy_latents as [t|t]; [reflexivity|].
  destruct (String.eqb (model_type self) "wan"); reflexivity.
Qed.

(** X12: a negative step index is not an error: as with any Python
    sequence, step [-k] reads the schedule entry [k] places from the end, so
    the normalizer returns what it returns for step [len - k]. *)
Theorem negative_step_reads_from_the_end (noisy_latents : tensor5) (step : Z) :
  (- Z.of_nat (length (timesteps_percent self)) <= step < 0)%Z ->
  subtract_original_and_normalize self noisy_latents step
  = subtract_original_and_normalize self noisy_latents
      (step + Z.of_nat (length (timesteps_percent self))).
Proof.
  intros H. unfold subtract_original_and_normalize, subtract_original.
  rewrite (getitem_negative _ _ H). reflexivity.
Qed.

End NormalizerEdges.

(** ** The whole pipeline on a well-formed latent *)

Section PipelineShapes.

Open Scope R_scope.

Lemma Forall2_dim {A B : Type} (P : A -> Prop) (Q : B -> Prop)
  (rel : A -> B -> Prop) (n : nat) (a : list A) (b : list B) :
  (forall x y, P x -> Q y -> rel x y) ->
  dim n P a -> dim n Q b -> Forall2 rel a b.
Proof.
  intros H [Hla Ha] [Hlb Hb]. subst n. revert b Hlb Hb.
  induction a as [|x a IH]; intros [|y b] Hlb Hb; simpl in Hlb;
    try discriminate; [constructor|].
  inversion Ha; subst. inversion Hb; subst.
  constructor; [auto|]. apply IH; [assumption|lia|assumption].
Qed.

Lemma map2_dim {A B C : Type} (g : A -> B -> C) (P : A -> Prop)
  (Q : B -> Prop) (S : C -> Prop) (n : nat) (a : list A) (b : list B) :
  (forall x y, P x -> Q y -> S (g x y)) ->
  dim n P a -> dim n Q b -> dim n S (map2 g a b).
Proof.
  intros H [Hla Ha] [Hlb Hb]. subst n. revert b Hlb Hb.
  induction a as [|x a IH]; intros [|y b] Hlb Hb; simpl in Hlb;
    try discriminate.
  - split; [reflexivity|constructor].
  - inversion Ha; subst. inversion Hb; subst.
    destruct (IH ltac:(assumption) b ltac:(lia) ltac:(assumption))
      as [Hl Hf].
    split; [unfold map2 in *; simpl; rewrite Hl; reflexivity|].
    unfold map2. cbn [combine map fst snd]. constructor; [auto|exact Hf].
Qed.

Lemma dims_same_shape5 (b c f h w : nat) (x y : tensor5) :
  dim b (dim c (dim f (dim h (dim w any)))) x ->
  dim b (dim c (dim f (dim h (dim w any)))) y ->
  same_shape5 x y.
Proof.
  unfold same_shape5, same_shape4, same_shape3, same_shape2, same_shape1.
  apply Forall2_dim. intros x4 y4.
  apply Forall2_dim. intros x3 y3.
  apply Forall2_dim. intros x2 y2.
  apply Forall2_dim. intros x1 y1.
  apply Forall2_dim. auto.
Qed.

Lemma zip5_dim (g : R -> R -> R) (b c f h w : nat) (x y : tensor5) :
  dim b (dim c (dim f (dim h (dim w any)))) x ->
  dim b (dim c (dim f (dim h (dim w any)))) y ->
  dim b (dim c (dim f (dim h (dim w any)))) (zip5 g x y).
Proof.
  unfold zip5.
  apply map2_dim. intros x4 y4.
  apply map2_dim. intros x3 y3.
  apply map2_dim. intros x2 y2.
  apply map2_dim. intros x1 y1.
  apply map2_dim. intros; exact I.
Qed.

Lemma map5d_dim (g : R -> R) (b c f h w : nat) (t : tensor5) :
  dim b (dim c (dim f (dim h (dim w any)))) t ->
  dim b (dim c (dim f (dim h (dim w any)))) (map5d g t).
Proof.
  intros Ht. unfold map5d.
  eapply map_dim; [|exact Ht]. intros x Hx.
  apply (map4d_dim g any any). { intros; exact I. } exact Hx.
Qed.

(** The normalizer returns, and keeps the shape, whenever the snapshot has
    the reference's shape and the step is in the schedule. *)
Lemma normalizer_dims (self : LatentPreviewer) (b c f h w : nat)
  (noisy_latents : tensor5) (step : Z) (noise_remaining : R) :
  dim b (dim c (dim f (dim h (dim w any)))) noisy_latents ->
  dim b (dim c (dim f (dim h (dim w any)))) (original_latents self) ->
  getitem (timesteps_percent self) step = Ok noise_remaining ->
  exists out,
    subtract_original_and_normalize self noisy_latents step = Ok out
    /\ dim b (dim c (dim f (dim h (dim w any)))) out.
Proof.
  intros Hn Ho Hstep. unfold subtract_original_and_normalize.
  rewrite (subtract_original_residual self _ step noise_remaining Hstep)
    by (eapply dims_same_shape5; eassumption).
  cbn [bind]. eexists. split; [reflexivity|].
  unfold normalize. apply map5d_dim. apply zip5_dim; [exact Hn|].
  apply map5d_dim. exact Ho.
Qed.






End PipelineShapes.

Section PipelineRuns.

Variable av : Stream.
Variable self : LatentPreviewer.


Lemma preview_frames_view (noisy_latents : Latent) (step : Z) :
  accepted_by self noisy_latents ->
  preview_frames self noisy_latents step
  = (denoisy <-
       subtract_original_and_normalize self (batched_view noisy_latents) step ;;
     run_decoder self denoisy step).
Proof.
  destruct noisy_latents as [t|t]; cbn [accepted_by batched_view];
    intros H; [reflexivity|].
  unfold preview_frames. apply String.eqb_neq in H. rewrite H. reflexivity.
Qed.

(** X13: with no frame at all the video branch still runs.  With a stream
    whose calls return, the log gains exactly this: the container is opened,
    the stream added and formatted, the encoder is flushed although nothing
    was encoded, the packets of the flush are muxed, and the container is
    closed.  No frame is encoded and no still image is saved. *)
Theorem empty_sequence_writes_empty_video (w h : nat) (target : string)
  (log : list event) :
  never_fails av ->
  exists packets s',
    st_encode av (st_init av) None = Ok (packets, s')
    /\ write_video av self [] w h target log
       = (Ok tt,
          log ++ stream_header self w h target
              ++ EncodeFlush :: map Mux packets ++ [AvClose])
    /\ encoded_frames (EncodeFlush :: map Mux packets) = []
    /\ saved_images (EncodeFlush :: map Mux packets) = [].
Proof.
  intros Hnf.
  pose proof (write_stream_trace av self [] w h target log Hnf) as Hrun.
  unfold stream_trace, flush_trace in Hrun. cbn [map frames_trace fst snd app]
    in Hrun.
  destruct Hnf as [Henc _]. pose proof (Henc (st_init av) None) as Hs.
  destruct (st_encode av (st_init av) None) as [[packets s']|e];
    [|discriminate].
  exists packets, s'. split; [reflexivity|]. split; [exact Hrun|].
  unfold encoded_frames, saved_images. cbn [flat_map app].
  clear. split; induction packets as [|p packets IH];
    try reflexivity; cbn [map flat_map app]; exact IH.
Qed.


End PipelineRuns.

Section ChannelCount.

Lemma mapM_head_raises {A B : Type} (g : A -> result B) (x : A)
  (l : list A) (e : exn) :
  g x = Raise e -> mapM g (x :: l) = Raise e.
Proof. intros H. cbn [mapM]. rewrite H. reflexivity. Qed.

Lemma linear1_mismatch (weight : list (list R)) (bias : list R)
  (k c c' : nat) (x : list R) :
  dim k (dim c any) weight -> (0 < k)%nat -> length x = c' -> c <> c' ->
  linear1 weight bias x
  = Raise (RuntimeError "mat1 and mat2 shapes cannot be multiplied").
Proof.
  intros [Hk Hw] Hpos Hx Hne. unfold linear1.
  destruct weight as [|w0 ws]; simpl in Hk; [lia|].
  apply Forall_inv in Hw. destruct Hw as [Hw0 _].
  cbn [forallb]. rewrite Hw0, Hx.
  apply Nat.eqb_neq in Hne. rewrite Hne. reflexivity.
Qed.

(** X15: the projection is fixed to sixteen latent channels.  A latent of
    shape (B, C, F, H, W) with no empty axis and C other than 16 makes
    [decode_latent2rgb] raise the shape error of the first linear map, for
    either listed family. *)
Theorem wrong_channel_count_raises (self : LatentPreviewer)
  (table : CoefficientTable) (b c f h w : nat) (latents : tensor5)
  (step : Z) :
  model_params (model_type self) = Some table ->
  (0 < b)%nat -> (0 < c)%nat -> (0 < f)%nat -> (0 < h)%nat -> (0 < w)%nat ->
  c <> 16%nat ->
  dim b (dim c (dim f (dim h (dim w any)))) latents ->
  decode_latent2rgb self latents step
  = Raise (RuntimeError "mat1 and mat2 shapes cannot be multiplied").
Proof.
  intros Htable Hb Hc Hf Hh Hw Hne Hlat.
  destruct (table_dims _ _ Htable) as [Hfac Hbias].
  assert (Hweight : dim 3 (dim 16 any) (transpose (rgb_factors table))).
  { apply transpose_dim; [lia|exact Hfac]. }
  unfold decode_latent2rgb. rewrite Htable. unfold project_frames.
  assert (Hb0 : dim c (dim f (dim h (dim w any))) (hd [] latents)).
  { apply (dim_hd b); assumption. }
  assert (Hframes : nth 2 (shape5 latents) 0%nat = f).
  { unfold shape5, shape4. cbn [nth].
    destruct (dim_hd c _ (hd [] latents) [] Hb0 Hc) as [Hl _]. exact Hl. }
  rewrite Hframes.
  destruct latents as [|batch0 rest]; [destruct Hlat; simpl in *; lia|].
  simpl hd in Hb0.
  destruct f as [|f']; [lia|]. cbn [seq].
  rewrite (mapM_head_raises _ _ _
             (RuntimeError "mat1 and mat2 shapes cannot be multiplied"));
    [reflexivity|].
  unfold select_frame. cbn [map]. rewrite getitem_head. cbn [bind].
  assert (Hext : dim h (dim w (dim c any))
                   (permute120 (map (fun channel => nth 0 channel []) batch0))).
  { apply permute120_dim; [exact Hc|].
    eapply map_dim; [|exact Hb0]. intros ch Hch.
    apply (dim_nth (S f')); [exact Hch|lia]. }
  destruct Hext as [Hlen Hrows].
  destruct (permute120 (map (fun channel => nth 0 channel []) batch0))
    as [|row rows]; simpl in Hlen; [lia|].
  apply Forall_inv in Hrows. destruct Hrows as [Hrow Hpixels].
  destruct row as [|px row]; simpl in Hrow; [lia|].
  apply Forall_inv in Hpixels. destruct Hpixels as [Hpx _].
  unfold linear. apply mapM_head_raises. apply mapM_head_raises.
  apply (linear1_mismatch _ _ 3%nat 16%nat c); [exact Hweight|lia|exact Hpx|].
  intros E. apply Hne. symmetry. exact E.
Qed.

End ChannelCount.

Section LearnedDecoder.

Variable av : Stream.
Variable load_taehv : string -> string -> dtype -> result TAEHV.
Variables (args : Args) (path : string) (original : tensor5)
  (timesteps : tensor1) (dev : string) (dt : dtype) (family : string).
Variables (self : LatentPreviewer) (model : TAEHV).

Hypothesis learned : preview_vae args = Some path.
Hypothesis constructed :
  init load_taehv args original timesteps dev dt family = Ok self.
Hypothesis loaded : load_taehv path dev (dtype_ self) = Ok model.

Lemma init_learned_decoder :
  decoder self = decode_taehv_ref model
  /\ scale_factor self = None
  /\ fps self = args_fps args.
Proof.
  revert loaded. unfold init in constructed. rewrite learned in constructed.
  destruct (load_taehv path dev
              (if negb (dtype_eqb dt float8_e4m3fn) then dt else float16))
    as [m|e] eqn:Hload; cbn [bind] in constructed; [|discriminate].
  inversion constructed; subst self. cbn [dtype_ decoder scale_factor fps].
  rewrite Hload. intros H. inversion H; subst. auto.
Qed.


(** X17: a learned decoder whose result does not hold exactly one video
    (the batch axis survives the squeeze) makes [preview] raise the unpack
    error before any file is touched. *)
Theorem learned_decoder_batch_not_one_raises (noisy_latents : Latent)
  (step : Z) (denoisy decoded : tensor5) (log : list event) :
  accepted_by self noisy_latents ->
  subtract_original_and_normalize self (batched_view noisy_latents) step
  = Ok denoisy ->
  model (permute02134 denoisy) = Ok decoded ->
  length decoded <> 1%nat ->
  preview av self noisy_latents step log
  = (Raise (ValueError "too many values to unpack (expected 4)"), log).
Proof.
  intros Hacc Hnorm Hmodel Hlen.
  destruct init_learned_decoder as (Hdec & _ & _).
  unfold preview, bind_io, lift.
  rewrite (preview_frames_view self _ _ Hacc), Hnorm. cbn [bind].
  unfold run_decoder. rewrite Hdec. unfold decode_taehv.
  rewrite Hmodel. cbn [bind].
  destruct decoded as [|v [|v' rest]]; try reflexivity.
  simpl in Hlen. contradiction.
Qed.

End LearnedDecoder.

Section PreviewWitnesses.

Lemma hunyuan_step_0 :
  getitem (timesteps_percent hunyuan_previewer) 0 = Ok 0%R.
Proof. reflexivity. Qed.

Lemma constant_latent_normalizes_to_zero_witness :
  subtract_original_and_normalize hunyuan_previewer
    (full5 1 16 2 8 8 5%R) 0
  = Ok (full5 1 16 2 8 8 0%R).
Proof.
  apply (constant_latent_normalizes_to_zero hunyuan_previewer
           1 16 2 8 8 5%R 0%R 0 0%R);
    [reflexivity|reflexivity|simpl; lia].
Defined.

Lemma preview_step_out_of_range_witness :
  preview null_stream hunyuan_previewer (constant_snapshot 0%R) 1 []
  = (Raise IndexError, []).
Proof.
  apply (preview_step_out_of_range hunyuan_previewer null_stream
           (constant_snapshot 0%R) 1 []).
  left. simpl. lia.
Defined.

Lemma negative_step_reads_from_the_end_witness :
  subtract_original_and_normalize hunyuan_previewer
    (full5 1 16 2 8 8 5%R) (-1)
  = subtract_original_and_normalize hunyuan_previewer
      (full5 1 16 2 8 8 5%R)
      (-1 + Z.of_nat (length (timesteps_percent hunyuan_previewer))).
Proof.
  apply (negative_step_reads_from_the_end hunyuan_previewer
           (full5 1 16 2 8 8 5%R) (-1)).
  simpl. lia.
Defined.

Lemma empty_sequence_writes_empty_video_witness :
  write_video delaying_stream hunyuan_previewer [] 64 64 default_target []
  = (Ok tt,
     [ AvOpen "./latent_preview.mp4"; AddStream "libx264" 4;
       SetFormat "yuv420p" 64 64; EncodeFlush; AvClose ]).
Proof.
  destruct (empty_sequence_writes_empty_video delaying_stream
              hunyuan_previewer 64 64 default_target []
              delaying_stream_never_fails)
    as (packets & s' & Hflush & Hrun & _).
  rewrite Hrun. inversion Hflush; subst. reflexivity.
Defined.


Lemma wrong_channel_count_raises_witness :
  decode_latent2rgb hunyuan_previewer (full5 1 4 2 8 8 0%R) 0
  = Raise (RuntimeError "mat1 and mat2 shapes cannot be multiplied").
Proof.
  apply (wrong_channel_count_raises hunyuan_previewer hunyuan_table
           1 4 2 8 8 (full5 1 4 2 8 8 0%R) 0);
    try reflexivity; try lia.
  apply full5_dim. exact I.
Defined.

Lemma learned_previewer_normalizes (loader : string -> string -> dtype -> result TAEHV)
  (self : LatentPreviewer) :
  init loader (learned_args 16) (full5 1 16 2 8 8 0%R) [0%R]
       "cpu" float32 "hunyuan" = Ok self ->
  exists denoisy,
    subtract_original_and_normalize self
      (batched_view (constant_snapshot 5%R)) 0 = Ok denoisy.
Proof.
  unfold init. cbn [preview_vae learned_args].
  destruct (loader _ _ _) as [m|e]; cbn [bind]; [|discriminate].
  intros H. inversion H; subst self.
  destruct (normalizer_dims
              {| mode := taehv; model_type := "hunyuan";
                 original_latents := full5 1 16 2 8 8 0%R;
                 timesteps_percent := map (fun t => (t / 1000)%R) [0%R];
                 device := "cpu";
                 dtype_ := if negb (dtype_eqb float32 float8_e4m3fn)
                           then float32 else float16;
                 decoder := decode_taehv_ref m;
                 scale_factor := None;
                 fps := args_fps (learned_args 16) |}
              1 16 2 8 8 (full5 1 16 2 8 8 5%R) 0 (0 / 1000)%R)
    as (denoisy & Hn & _).
  - apply full5_dim. exact I.
  - apply full5_dim. exact I.
  - reflexivity.
  - exists denoisy. exact Hn.
Qed.


Lemma learned_decoder_batch_not_one_raises_witness :
  exists self,
    init two_video_loader (learned_args 16) (full5 1 16 2 8 8 0%R) [0%R]
         "cpu" float32 "hunyuan" = Ok self
    /\ preview null_stream self (constant_snapshot 5%R) 0 []
       = (Raise (ValueError "too many values to unpack (expected 4)"), []).
Proof.
  eexists. split; [reflexivity|].
  destruct (learned_previewer_normalizes two_video_loader _ eq_refl)
    as (denoisy & Hnorm).
  apply (learned_decoder_batch_not_one_raises null_stream
           two_video_loader (learned_args 16) "taehv.pth"
           (full5 1 16 2 8 8 0%R) [0%R] "cpu" float32 "hunyuan"
           _ (fun _ => Ok [gray_video; gray_video])
           eq_refl eq_refl eq_refl
           (constant_snapshot 5%R) 0 denoisy
           [gray_video; gray_video] []).
  - discriminate.
  - exact Hnorm.
  - reflexivity.
  - discriminate.
Defined.

End PreviewWitnesses.

(** ** [process_wildcards] *)

Section ProcessWildcards.

Variable o : Oracle.
Variable wildcard_location : string.

Lemma geb_false (d m : Z) : (d >=? m)%Z = false <-> (d < m)%Z.
Proof. rewrite Z.geb_leb. apply Z.leb_gt. Qed.

Lemma replace_in_one_nonpositive (max_depth : Z) (prompt : string)
  (w : world) :
  (max_depth <= 0)%Z ->
  replace_in_one o wildcard_location max_depth prompt w
  = (Failed (RecursionError max_depth prompt), w).
Proof.
  intros H. unfold replace_in_one.
  replace (Z.to_nat max_depth) with 0%nat by lia. cbn [while_loop].
  replace (0 >=? max_depth)%Z with true; [reflexivity|].
  symmetry. apply Z.geb_le. exact H.
Qed.

(** X18: a limit of zero or less makes every call with at least one prompt
    raise [RecursionError] on its first prompt, whether or not the prompt
    holds a marker, before any wildcard file is looked up. *)
Theorem nonpositive_limit_always_raises (max_depth : Z) (prompt : string)
  (rest : list string) (w : world) :
  (max_depth <= 0)%Z ->
  process_wildcards o (Single prompt) wildcard_location max_depth w
  = (Failed (RecursionError max_depth prompt), w)
  /\ process_wildcards o (Many (prompt :: rest)) wildcard_location max_depth w
     = (Failed (RecursionError max_depth prompt), w).
Proof.
  intros H. unfold process_wildcards. cbn [process_list].
  rewrite (replace_in_one_nonpositive max_depth prompt w H). split; reflexivity.
Qed.

Lemma replace_in_one_marker_free (max_depth : Z) (prompt : string)
  (w : world) :
  (0 < max_depth)%Z -> marker_free prompt ->
  replace_in_one o wildcard_location max_depth prompt w
  = (Returned prompt, w).
Proof.
  intros Hpos Hfree. unfold replace_in_one.
  destruct (Z.to_nat max_depth) as [|fuel] eqn:E; [lia|].
  cbn [while_loop]. rewrite Hfree.
  replace (0 >=? max_depth)%Z with false; [reflexivity|].
  symmetry. apply geb_false. lia.
Qed.

Lemma process_list_marker_free (max_depth : Z) (ps : list string)
  (w : world) :
  (0 < max_depth)%Z -> Forall marker_free ps ->
  process_list o wildcard_location max_depth ps w = (Returned ps, w).
Proof.
  intros Hpos H. induction H as [|p ps Hp Hps IH]; [reflexivity|].
  cbn [process_list]. rewrite replace_in_one_marker_free by assumption.
  rewrite IH. reflexivity.
Qed.

(** X19: with a positive limit, prompts in which the pattern finds nothing
    come back as they were, one string as one string and a list as a list,
    and [wildcard_replace] is not called. *)
Theorem marker_free_prompts_come_back_unchanged (max_depth : Z)
  (prompts : Prompts) (w : world) :
  (0 < max_depth)%Z ->
  Forall marker_free (prompt_list prompts) ->
  process_wildcards o prompts wildcard_location max_depth w
  = (Returned prompts, w).
Proof.
  intros Hpos H. unfold process_wildcards.
  destruct prompts as [p|ps]; cbn [prompt_list] in H;
    rewrite process_list_marker_free by assumption; reflexivity.
Qed.

Lemma while_loop_exit (fuel : nat) :
  forall (depth : Z) (prompt : string) (w : world) (d : Z) (p' : string)
         (w' : world),
    while_loop o wildcard_location fuel depth prompt w
    = (Returned (d, p'), w') ->
    d = (depth + Z.of_nat fuel)%Z
    \/ ((d < depth + Z.of_nat fuel)%Z /\ marker_free p').
Proof.
  induction fuel as [|fuel IH]; intros depth prompt w d p' w' H.
  - cbn [while_loop] in H. inversion H; subst. left. lia.
  - cbn [while_loop] in H.
    destruct (findall_keys prompt) as [|m ms] eqn:Hm.
    + inversion H; subst. right. split; [lia|exact Hm].
    + destruct (substitute_keys o wildcard_location
                  (set_order o (m :: ms)) prompt w) as [[p1|e] w1];
        [|discriminate].
      destruct (IH _ _ _ _ _ _ H) as [Hd|[Hd Hf]]; [left; lia|].
      right. split; [lia|exact Hf].
Qed.

Lemma replace_in_one_returned (max_depth : Z) (prompt : string)
  (w : world) (p' : string) (w' : world) :
  replace_in_one o wildcard_location max_depth prompt w = (Returned p', w') ->
  marker_free p'.
Proof.
  unfold replace_in_one.
  destruct (while_loop o wildcard_location (Z.to_nat max_depth) 0 prompt w)
    as [[[d p1]|e] w1] eqn:Hloop; [|discriminate].
  destruct (d >=? max_depth)%Z eqn:Hd; [discriminate|].
  intros H. inversion H; subst.
  destruct (while_loop_exit _ _ _ _ _ _ _ Hloop) as [E|[_ Hf]];
    [|exact Hf].
  apply geb_false in Hd. lia.
Qed.

Lemma process_list_returned (max_depth : Z) (ps : list string) :
  forall (w : world) (qs : list string) (w' : world),
    process_list o wildcard_location max_depth ps w = (Returned qs, w') ->
    Forall marker_free qs /\ length qs = length ps.
Proof.
  induction ps as [|p ps IH]; intros w qs w' H; cbn [process_list] in H.
  - inversion H; subst. split; [constructor|reflexivity].
  - destruct (replace_in_one o wildcard_location max_depth p w)
      as [[p1|e] w1] eqn:H1; [|discriminate].
    destruct (process_list o wildcard_location max_depth ps w1)
      as [[qs1|e] w2] eqn:H2; [|discriminate].
    inversion H; subst.
    destruct (IH _ _ _ H2) as [Hf Hl].
    split; [|simpl; rewrite Hl; reflexivity].
    constructor; [|exact Hf].
    eapply replace_in_one_returned. exact H1.
Qed.

(** X20: whatever the files hold and whatever is drawn, a call that returns
    hands back as many prompts as it was given, of the same kind, and the
    pattern finds no marker in any of them. *)
Theorem returned_prompts_have_no_marker (max_depth : Z) (prompts : Prompts)
  (w : world) (out : Prompts) (w' : world) :
  process_wildcards o prompts wildcard_location max_depth w
  = (Returned out, w') ->
  Forall marker_free (prompt_list out)
  /\ length (prompt_list out) = length (prompt_list prompts)
  /\ same_kind prompts out.
Proof.
  unfold process_wildcards. destruct prompts as [p|ps].
  - destruct (process_list o wildcard_location max_depth [p] w)
      as [[qs|e] w1] eqn:H1; [|discriminate].
    intros H. inversion H; subst. cbn [prompt_list same_kind].
    destruct (process_list_returned _ _ _ _ _ H1) as [Hf Hl].
    destruct qs as [|q [|q' qs]]; try discriminate.
    cbn [hd]. auto.
  - destruct (process_list o wildcard_location max_depth ps w)
      as [[qs|e] w1] eqn:H1; [|discriminate].
    intros H. inversion H; subst. cbn [prompt_list same_kind].
    destruct (process_list_returned _ _ _ _ _ H1) as [Hf Hl]. auto.
Qed.

(** X21: the limit counts the pass that removes the last marker.  With a
    limit of one (or less) a prompt that holds a marker is never returned:
    when its single pass goes through, [RecursionError] is raised with the
    prompt as substituted. *)
Theorem limit_one_never_resolves (max_depth : Z) (prompt : string)
  (w : world) :
  (max_depth <= 1)%Z ->
  ~ marker_free prompt ->
  (forall p', fst (replace_in_one o wildcard_location max_depth prompt w)
              <> Returned p')
  /\ (max_depth = 1%Z ->
      forall p' w',
        substitute_keys o wildcard_location (set_order o (findall_keys prompt))
          prompt w = (Returned p', w') ->
        replace_in_one o wildcard_location max_depth prompt w
        = (Failed (RecursionError 1 p'), w')).
Proof.
  intros Hle Hmark.
  destruct (Z_le_gt_dec max_depth 0) as [H0|H1].
  { rewrite replace_in_one_nonpositive by exact H0.
    split; [intros p'; discriminate|]. intros E. lia. }
  assert (E : max_depth = 1%Z) by lia. subst max_depth.
  unfold replace_in_one. change (Z.to_nat 1) with 1%nat. cbn [while_loop].
  unfold marker_free in Hmark.
  destruct (findall_keys prompt) as [|m ms] eqn:Hm; [contradiction|].
  destruct (substitute_keys o wildcard_location (set_order o (m :: ms))
              prompt w) as [[p1|e] w1].
  - cbn [while_loop]. split; [intros p'; discriminate|].
    intros _ p' w' H. inversion H; subst. reflexivity.
  - split; [intros p'; discriminate|]. intros _ p' w' H. discriminate H.
Qed.

Lemma while_loop_more_fuel (fuel : nat) :
  forall (extra : nat) (depth : Z) (prompt : string) (w : world) (d : Z)
         (p' : string) (w' : world),
    while_loop o wildcard_location fuel depth prompt w
    = (Returned (d, p'), w') ->
    marker_free p' ->
    while_loop o wildcard_location (fuel + extra) depth prompt w
    = (Returned (d, p'), w').
Proof.
  induction fuel as [|fuel IH]; intros extra depth prompt w d p' w' H Hf.
  - cbn [while_loop] in H. inversion H; subst.
    destruct extra as [|extra]; [reflexivity|].
    cbn [Nat.add while_loop]. rewrite Hf. reflexivity.
  - cbn [Nat.add while_loop] in *.
    destruct (findall_keys prompt) as [|m ms] eqn:Hm; [exact H|].
    destruct (substitute_keys o wildcard_location
                (set_order o (m :: ms)) prompt w) as [[p1|e] w1];
      [|discriminate].
    apply IH; assumption.
Qed.

Lemma replace_in_one_larger_limit (max_depth larger : Z) (prompt : string)
  (w : world) (p' : string) (w' : world) :
  (max_depth <= larger)%Z ->
  replace_in_one o wildcard_location max_depth prompt w = (Returned p', w') ->
  replace_in_one o wildcard_location larger prompt w = (Returned p', w').
Proof.
  intros Hle. unfold replace_in_one.
  destruct (while_loop o wildcard_location (Z.to_nat max_depth) 0 prompt w)
    as [[[d p1]|e] w1] eqn:Hloop; [|discriminate].
  destruct (d >=? max_depth)%Z eqn:Hd; [discriminate|].
  intros H. inversion H; subst.
  apply geb_false in Hd.
  destruct (while_loop_exit _ _ _ _ _ _ _ Hloop) as [E|[_ Hf]]; [lia|].
  replace (Z.to_nat larger)
    with (Z.to_nat max_depth + (Z.to_nat larger - Z.to_nat max_depth))%nat
    by lia.
  rewrite (while_loop_more_fuel _ _ _ _ _ _ _ _ Hloop Hf).
  replace (d >=? larger)%Z with false; [reflexivity|].
  symmetry. apply geb_false. lia.
Qed.

Lemma process_list_larger_limit (max_depth larger : Z) (ps : list string) :
  (max_depth <= larger)%Z ->
  forall (w : world) (qs : list string) (w' : world),
    process_list o wildcard_location max_depth ps w = (Returned qs, w') ->
    process_list o wildcard_location larger ps w = (Returned qs, w').
Proof.
  intros Hle. induction ps as [|p ps IH]; intros w qs w' H;
    cbn [process_list] in *; [exact H|].
  destruct (replace_in_one o wildcard_location max_depth p w)
    as [[p1|e] w1] eqn:H1; [|discriminate].
  rewrite (replace_in_one_larger_limit _ _ _ _ _ _ Hle H1).
  destruct (process_list o wildcard_location max_depth ps w1)
    as [[qs1|e] w2] eqn:H2; [|discriminate].
  rewrite (IH _ _ _ H2). exact H.
Qed.

(** X22: a returned result does not depend on the limit: a call that
    returns under one limit returns the same prompts, after the same lookups,
    under every larger limit. *)
Theorem larger_limit_keeps_result (max_depth larger : Z) (prompts : Prompts)
  (w : world) (out : Prompts) (w' : world) :
  (max_depth <= larger)%Z ->
  process_wildcards o prompts wildcard_location max_depth w
  = (Returned out, w') ->
  process_wildcards o prompts wildcard_location larger w = (Returned out, w').
Proof.
  intros Hle. unfold process_wildcards. destruct prompts as [p|ps].
  - destruct (process_list o wildcard_location max_depth [p] w)
      as [[qs|e] w1] eqn:H1; [|discriminate].
    rewrite (process_list_larger_limit _ _ _ Hle _ _ _ H1). auto.
  - destruct (process_list o wildcard_location max_depth ps w)
      as [[qs|e] w1] eqn:H1; [|discriminate].
    rewrite (process_list_larger_limit _ _ _ Hle _ _ _ H1). auto.
Qed.

Lemma wildcard_replace_log (env : Env) (wildcard : string) :
  isabs (cwd env) = true ->
  Forall (below (abspath (cwd env) wildcard_location))
         (snd (wildcard_replace env wildcard wildcard_location)).
Proof.
  intros Hcwd. unfold wildcard_replace.
  destruct (isabs wildcard) eqn:Habs; [constructor|].
  destruct (existsb (String.eqb "..") (split "/" wildcard)) eqn:Hdots;
    [constructor|].
  assert (Hno : ~ In ".."%string (split "/" wildcard)).
  { intros Hin'. apply Bool.not_true_iff_false in Hdots. apply Hdots.
    apply existsb_exists. exists ".."%string. split; [exact Hin'|reflexivity]. }
  destruct (candidate_below_base (cwd env) wildcard wildcard_location
              Hcwd Habs Hno) as [Hlen Hneq].
  match goal with
  | |- context [negb ?g] => destruct g eqn:Hin; cbn [negb]; [|constructor]
  end.
  match goal with
  | |- context [fs env ?c] => destruct (fs env c) as [lines|]; [|constructor]
  end.
  cbn [snd]. constructor; [|constructor]. split; [|exact Hlen].
  apply orb_true_iff in Hin. destruct Hin as [Heq|Hpre]; [|exact Hpre].
  apply String.eqb_eq in Heq. contradiction.
Qed.

Section Opened.

Hypothesis cwd_absolute : forall n, isabs (cwd (env_at o n)) = true.

Let safe (w : world) : Prop :=
  Forall (inside o wildcard_location) (opened w).

Lemma substitute_keys_safe (keys : list string) :
  forall (prompt : string) (w : world),
    safe w ->
    safe (snd (substitute_keys o wildcard_location keys prompt w)).
Proof.
  induction keys as [|key rest IH]; intros prompt w Hw; [exact Hw|].
  cbn [substitute_keys].
  assert (Hw' : safe {| calls := S (calls w);
                        opened := (opened w ++
                                   snd (wildcard_replace (env_at o (calls w))
                                          key wildcard_location))%list |}).
  { unfold safe. cbn [opened]. apply Forall_app. split; [exact Hw|].
    eapply Forall_impl;
      [|apply wildcard_replace_log; apply cwd_absolute].
    intros path Hp. exists (calls w). exact Hp. }
  destruct (fst (wildcard_replace (env_at o (calls w)) key wildcard_location))
    as [replacement|e]; [|exact Hw'].
  destruct (expand_template o key replacement) as [text|]; [|exact Hw'].
  apply IH. exact Hw'.
Qed.

Lemma while_loop_safe (fuel : nat) :
  forall (depth : Z) (prompt : string) (w : world),
    safe w ->
    safe (snd (while_loop o wildcard_location fuel depth prompt w)).
Proof.
  induction fuel as [|fuel IH]; intros depth prompt w Hw; [exact Hw|].
  cbn [while_loop]. destruct (findall_keys prompt) as [|m ms]; [exact Hw|].
  pose proof (substitute_keys_safe (set_order o (m :: ms)) prompt w Hw) as H1.
  destruct (substitute_keys o wildcard_location (set_order o (m :: ms))
              prompt w) as [[p1|e] w1]; cbn [snd] in H1; [|exact H1].
  apply IH. exact H1.
Qed.

Lemma replace_in_one_safe (max_depth : Z) (prompt : string) (w : world) :
  safe w ->
  safe (snd (replace_in_one o wildcard_location max_depth prompt w)).
Proof.
  intros Hw. unfold replace_in_one.
  pose proof (while_loop_safe (Z.to_nat max_depth) 0 prompt w Hw) as H1.
  destruct (while_loop o wildcard_location (Z.to_nat max_depth) 0 prompt w)
    as [[[d p1]|e] w1]; cbn [snd] in H1; [|exact H1].
  destruct (d >=? max_depth)%Z; exact H1.
Qed.

Lemma process_list_safe (max_depth : Z) (ps : list string) :
  forall w : world,
    safe w ->
    safe (snd (process_list o wildcard_location max_depth ps w)).
Proof.
  induction ps as [|p ps IH]; intros w Hw; [exact Hw|].
  cbn [process_list].
  pose proof (replace_in_one_safe max_depth p w Hw) as H1.
  destruct (replace_in_one o wildcard_location max_depth p w)
    as [[p1|e] w1]; cbn [snd] in H1; [|exact H1].
  pose proof (IH w1 H1) as H2.
  destruct (process_list o wildcard_location max_depth ps w1)
    as [[qs|e] w2]; exact H2.
Qed.

(** X23: with an absolute working directory, whatever the prompts hold and
    however the call ends, every path handed to [open] starts with the base
    directory of its lookup followed by a separator and is strictly longer
    than it: no marker, at any depth of substitution, reaches a file outside
    the wildcard directory. *)
Theorem no_marker_opens_outside_base (max_depth : Z) (prompts : Prompts)
  (w : world) :
  Forall (inside o wildcard_location) (opened w) ->
  Forall (inside o wildcard_location)
    (opened (snd (process_wildcards o prompts wildcard_location
                    max_depth w))).
Proof.
  intros Hw. unfold process_wildcards. destruct prompts as [p|ps].
  - pose proof (process_list_safe max_depth [p] w Hw) as H1.
    destruct (process_list o wildcard_location max_depth [p] w)
      as [[qs|e] w1]; exact H1.
  - pose proof (process_list_safe max_depth ps w Hw) as H1.
    destruct (process_list o wildcard_location max_depth ps w)
      as [[qs|e] w1]; exact H1.
Qed.

End Opened.

Lemma one_distinct_key (l matches : list string) (key : string) :
  NoDup l -> (forall x, In x l <-> In x matches) ->
  matches <> [] -> (forall x, In x matches -> x = key) ->
  l = [key].
Proof.
  intros Hnd Hiff Hne Hall.
  destruct matches as [|m ms]; [contradiction|].
  assert (Hm : m = key) by (apply Hall; left; reflexivity). subst m.
  assert (Hin : In key l) by (apply Hiff; left; reflexivity).
  destruct l as [|a l]; [contradiction|].
  assert (Ha : a = key) by (apply Hall, Hiff; left; reflexivity). subst a.
  f_equal. destruct l as [|b l]; [reflexivity|].
  assert (Hb : b = key)
    by (apply Hall, Hiff; right; left; reflexivity). subst b.
  inversion Hnd as [|? ? Hnot _]; subst. exfalso. apply Hnot. left.
  reflexivity.
Qed.

(** X24: a key repeated in a prompt is drawn once per pass.  When all the
    markers of a prompt carry the same key, the pass makes one call of
    [wildcard_replace], and every occurrence of the marker receives the text
    of that one draw. *)
Theorem repeated_key_drawn_once (key : string) (prompt : string)
  (w : world) :
  visits_each_key_once o ->
  findall_keys prompt <> [] ->
  (forall x, In x (findall_keys prompt) -> x = key) ->
  let r := wildcard_replace (env_at o (calls w)) key wildcard_location in
  let pass := substitute_keys o wildcard_location
                (set_order o (findall_keys prompt)) prompt w in
  calls (snd pass) = S (calls w)
  /\ forall replacement text,
       fst r = Ok replacement ->
       expand_template o key replacement = Some text ->
       fst pass = Returned (PyStr.replace ("__" ++ key ++ "__") text prompt).
Proof.
  intros Hset Hne Hall r pass. subst r pass.
  destruct (Hset (findall_keys prompt)) as [Hnd Hiff].
  rewrite (one_distinct_key _ _ key Hnd Hiff Hne Hall).
  cbn [substitute_keys].
  destruct (fst (wildcard_replace (env_at o (calls w)) key wildcard_location))
    as [replacement|e].
  - destruct (expand_template o key replacement) as [text|] eqn:Hexp.
    + cbn [substitute_keys snd fst calls]. split; [reflexivity|].
      intros replacement' text' H1 H2. inversion H1; subst.
      rewrite Hexp in H2. inversion H2; subst. reflexivity.
    + cbn [snd fst calls]. split; [reflexivity|].
      intros replacement' text' H1 H2. inversion H1; subst.
      rewrite Hexp in H2. discriminate H2.
  - cbn [snd fst calls]. split; [reflexivity|].
    intros replacement' text' H1. discriminate H1.
Qed.

End ProcessWildcards.

Section ProcessWildcardsWitnesses.

Lemma first_occurrence_visits_each_key_once (env : Env) :
  visits_each_key_once (first_occurrence_oracle env).
Proof.
  intros matches. cbn [set_order first_occurrence_oracle]. split.
  - apply NoDup_nodup.
  - intros key. apply nodup_In.
Qed.

Lemma nested_prompt_resolves :
  process_wildcards nested_oracle (Single "a __animal__") "w" 3 untouched
  = (Returned (Single "a black cat"),
     {| calls := 2;
        opened := ["/home/u/w/animal.txt"; "/home/u/w/color.txt"]%string |}).
Proof. reflexivity. Qed.

Lemma nonpositive_limit_always_raises_witness :
  process_wildcards nested_oracle (Single "plain") "w" 0 untouched
  = (Failed (RecursionError 0 "plain"), untouched)
  /\ process_wildcards nested_oracle (Many ["plain"; "a __animal__"]%string) "w" 0 untouched
     = (Failed (RecursionError 0 "plain"), untouched).
Proof.
  apply (nonpositive_limit_always_raises nested_oracle "w" 0 "plain"
           ["a __animal__"%string] untouched).
  lia.
Defined.

Lemma marker_free_prompts_come_back_unchanged_witness :
  process_wildcards nested_oracle (Many ["a cat"; "snake_case__name"]%string) "w" 50 untouched
  = (Returned (Many ["a cat"; "snake_case__name"]%string), untouched).
Proof.
  apply (marker_free_prompts_come_back_unchanged nested_oracle "w" 50
           (Many ["a cat"; "snake_case__name"]%string) untouched).
  - lia.
  - constructor; [reflexivity|]. constructor; [reflexivity|]. constructor.
Defined.

Lemma returned_prompts_have_no_marker_witness :
  Forall marker_free (prompt_list (Single "a black cat"))
  /\ length (prompt_list (Single "a black cat"))
     = length (prompt_list (Single "a __animal__"))
  /\ same_kind (Single "a __animal__") (Single "a black cat").
Proof.
  exact (returned_prompts_have_no_marker nested_oracle "w" 3 (Single "a __animal__")
           untouched (Single "a black cat") _ nested_prompt_resolves).
Defined.

Lemma limit_one_never_resolves_witness :
  (forall p', fst (replace_in_one nested_oracle "w" 1 "__color__" untouched) <> Returned p')
  /\ (1%Z = 1%Z ->
      forall p' w',
        substitute_keys nested_oracle "w" (set_order nested_oracle (findall_keys "__color__"))
          "__color__" untouched = (Returned p', w') ->
        replace_in_one nested_oracle "w" 1 "__color__" untouched
        = (Failed (RecursionError 1 p'), w')).
Proof.
  apply (limit_one_never_resolves nested_oracle "w" 1 "__color__" untouched).
  - lia.
  - discriminate.
Defined.

Lemma larger_limit_keeps_result_witness :
  process_wildcards nested_oracle (Single "a __animal__") "w" 50 untouched
  = (Returned (Single "a black cat"),
     {| calls := 2;
        opened := ["/home/u/w/animal.txt"; "/home/u/w/color.txt"]%string |}).
Proof.
  apply (larger_limit_keeps_result nested_oracle "w" 3 50 (Single "a __animal__") untouched).
  - lia.
  - exact nested_prompt_resolves.
Defined.

Lemma no_marker_opens_outside_base_witness :
  Forall (inside nested_oracle "w")
    (opened (snd (process_wildcards nested_oracle (Single "a __animal__") "w" 3 untouched))).
Proof.
  apply (no_marker_opens_outside_base nested_oracle "w").
  - intros n. reflexivity.
  - constructor.
Defined.

Lemma repeated_key_drawn_once_witness :
  calls (snd (substitute_keys nested_oracle "w"
                (set_order nested_oracle (findall_keys "__color__ or __color__"))
                "__color__ or __color__" untouched)) = 1%nat
  /\ forall replacement text,
       fst (wildcard_replace (env_at nested_oracle 0) "color" "w") = Ok replacement ->
       expand_template nested_oracle "color" replacement = Some text ->
       fst (substitute_keys nested_oracle "w"
              (set_order nested_oracle (findall_keys "__color__ or __color__"))
              "__color__ or __color__" untouched)
       = Returned (PyStr.replace "__color__" text "__color__ or __color__").
Proof.
  apply (repeated_key_drawn_once nested_oracle "w" "color" "__color__ or __color__" untouched).
  - apply first_occurrence_visits_each_key_once.
  - discriminate.
  - intros x [H|[H|[]]]; symmetry; exact H.
Defined.

End ProcessWildcardsWitnesses.

(** ** [rescale_text_encoders_hunyuan] *)

Section Rescale.

Variable Input : Type.

Open Scope py_scope.

Lemma last_nonempty {A : Type} (l : list A) :
  forall x a b : A, last (x :: l) a = last (x :: l) b.
Proof.
  induction l as [|y l IH]; intros x a b; [reflexivity|].
  change (last (x :: y :: l) a) with (last (y :: l) a).
  change (last (x :: y :: l) b) with (last (y :: l) b).
  apply IH.
Qed.

Lemma patch_blocks_last (bs : list (Forward Input)) :
  forall cell : option (Forward Input),
    length (fst (patch_blocks bs cell)) = length bs
    /\ snd (patch_blocks bs cell)
       = match bs with
         | [] => cell
         | b :: _ => Some (last bs b)
         end.
Proof.
  induction bs as [|b bs IH]; intros cell; [split; reflexivity|].
  cbn [patch_blocks fst snd length].
  destruct (IH (Some b)) as [Hl Hs]. split; [rewrite Hl; reflexivity|].
  rewrite Hs. destruct bs as [|b' bs]; [reflexivity|].
  f_equal. change (last (b :: b' :: bs) b) with (last (b' :: bs) b).
  apply last_nonempty.
Qed.

(** X25: the wrappers of the blocks all read one variable, which the loop
    leaves at the last block's method.  After the call the refiner has as
    many blocks as before, and every one of them, called with any arguments,
    runs the LAST block's original forward and multiplies its output by the
    LLM scale; an exception of that forward passes through. *)
Theorem every_block_runs_the_last_forward (llm_scale clip_scale : R)
  (transformer : Transformer Input) (embedder last_block : Forward Input)
  (i : nat) (forward : Forward Input) (args : Input) :
  embedder_forward transformer = Some embedder ->
  nth_error
    (block_forwards
       (rescale_text_encoders_hunyuan llm_scale clip_scale transformer)) i
  = Some forward ->
  length
    (block_forwards
       (rescale_text_encoders_hunyuan llm_scale clip_scale transformer))
  = length (block_forwards transformer)
  /\ forward args
     = (output <- last (block_forwards transformer) last_block args ;;
        Ok (scaled output llm_scale)).
Proof.
  unfold embedder_forward, block_forwards, rescale_text_encoders_hunyuan.
  destruct (txt_in transformer) as [t|]; [|discriminate].
  intros Hc. rewrite Hc. cbn [txt_in individual_token_refiner].
  destruct (individual_token_refiner t) as [refiner|];
    [|destruct i; discriminate].
  cbn [blocks]. intros Hi.
  destruct (patch_blocks_last (blocks refiner) None) as [Hl Hs].
  split; [rewrite length_map; exact Hl|].
  apply nth_error_In in Hi. apply in_map_iff in Hi.
  destruct Hi as (m & Hm & Hin). subst forward. destruct m.
  rewrite Hs. destruct (blocks refiner) as [|b bs] eqn:Hb.
  - cbn [patch_blocks fst] in Hin. contradiction.
  - cbn [call_method].
    rewrite (last_nonempty bs b last_block b). reflexivity.
Qed.

(** X26: the LLM scale hangs on the CLIP embedder.  A transformer without
    [txt_in], or whose [txt_in] has no [c_embedder], comes back untouched:
    its refiner blocks are not scaled even when the refiner is there. *)
Theorem no_embedder_no_scaling (llm_scale clip_scale : R)
  (transformer : Transformer Input) :
  embedder_forward transformer = None ->
  rescale_text_encoders_hunyuan llm_scale clip_scale transformer
  = transformer.
Proof.
  unfold embedder_forward, rescale_text_encoders_hunyuan.
  destruct (txt_in transformer) as [t|]; [|reflexivity].
  intros Hc. rewrite Hc. reflexivity.
Qed.

Lemma scaled_scaled (output : list R) (a b : R) :
  scaled (scaled output a) b = scaled output (a * b)%R.
Proof.
  unfold scaled. rewrite map_map. apply map_ext. intros x. ring.
Qed.

(** X27: scales compound.  Rescaling an already rescaled transformer does
    not replace the earlier scale: the embedder's output is multiplied by
    the product of the two CLIP scales. *)
Theorem rescaling_twice_multiplies (llm1 clip1 llm2 clip2 : R)
  (transformer : Transformer Input) (embedder : Forward Input) :
  embedder_forward transformer = Some embedder ->
  exists forward,
    embedder_forward
      (rescale_text_encoders_hunyuan llm2 clip2
         (rescale_text_encoders_hunyuan llm1 clip1 transformer))
    = Some forward
    /\ forall args,
         forward args
         = (output <- embedder args ;; Ok (scaled output (clip1 * clip2)%R)).
Proof.
  unfold embedder_forward, rescale_text_encoders_hunyuan.
  destruct (txt_in transformer) as [t|]; [|discriminate].
  intros Hc. rewrite Hc. cbn [txt_in c_embedder].
  eexists. split; [reflexivity|].
  intros args. destruct (embedder args) as [output|e] eqn:He;
    cbv beta zeta; rewrite He; cbn [bind]; [|reflexivity].
  rewrite scaled_scaled. reflexivity.
Qed.

End Rescale.

Lemma every_block_runs_the_last_forward_witness :
  exists forward,
    nth_error
      (block_forwards
         (rescale_text_encoders_hunyuan 3 1 two_block_transformer)) 0
    = Some forward
    /\ forward [1%R; 5%R] = Ok (scaled (map (fun v => v * 2)%R [1; 5]%R) 3).
Proof.
  eexists. split; [reflexivity|].
  exact (proj2 (every_block_runs_the_last_forward (list R) 3 1
                  two_block_transformer (fun x => Ok x) add_one 0 _
                  [1%R; 5%R] eq_refl eq_refl)).
Defined.

Lemma no_embedder_no_scaling_witness :
  rescale_text_encoders_hunyuan 3 2 no_embedder_transformer
  = no_embedder_transformer.
Proof.
  exact (no_embedder_no_scaling (list R) 3 2 no_embedder_transformer eq_refl).
Defined.

Lemma rescaling_twice_multiplies_witness :
  exists forward,
    embedder_forward
      (rescale_text_encoders_hunyuan 1 3
         (rescale_text_encoders_hunyuan 1 2 two_block_transformer))
    = Some forward
    /\ forall args,
         forward args
         = bind (Ok args) (fun output => Ok (scaled output (2 * 3)%R)).
Proof.
  exact (rescaling_twice_multiplies (list R) 1 2 1 3 two_block_transformer
           (fun x => Ok x) eq_refl).
Defined.

(** ** [MiniT5Wrapper] *)

Section Wrapper.

Variable env : Surroundings.

Open Scope py_scope.

(** X28: a list is accepted only with exactly one prompt.  An empty list
    and a list of several prompts both raise the same [ValueError], nothing
    is encoded and the call is not counted. *)
Theorem prompt_list_must_hold_one_prompt (self : MiniT5Wrapper)
  (prompts : list string) :
  length prompts <> 1%nat ->
  call env self (PromptList prompts)
  = (Raise (ValueError
       "MiniT5Wrapper expects a single prompt at a time (wrapped as a list). Got multiple prompts."),
     self).
Proof.
  intros H. destruct prompts as [|p [|q rest]]; try reflexivity.
  simpl in H. contradiction.
Qed.

Lemma weighted_weighted (x : list R) (a b : R) :
  weighted (weighted x a) b = weighted x (a * b)%R.
Proof.
  unfold weighted. rewrite map_map. apply map_ext. intros v. ring.
Qed.

Lemma weighted_one (x : list R) : weighted x 1 = x.
Proof.
  unfold weighted. rewrite <- (map_id x) at 2. apply map_ext. intros v. ring.
Qed.

Lemma getitem_nth_error {A : Type} (l : list A) (i : nat) (x : A) :
  nth_error l i = Some x -> getitem l (Z.of_nat i) = Ok x.
Proof.
  intros H. unfold getitem.
  assert (Hlt : (i < length l)%nat)
    by (apply nth_error_Some; rewrite H; discriminate).
  replace (Z.of_nat i <? 0)%Z with false by (symmetry; apply Z.ltb_ge; lia).
  replace ((0 <=? Z.of_nat i) && (Z.of_nat i <? Z.of_nat (length l)))%Z
    with true.
  - rewrite Nat2Z.id, H. reflexivity.
  - symmetry. apply andb_true_intro. split;
      [apply Z.leb_le|apply Z.ltb_lt]; lia.
Qed.

Lemma assign_same {A : Type} (l : list A) :
  forall (i : nat) (x : A), nth_error l i = Some x -> assign l i x = l.
Proof.
  induction l as [|a l IH]; intros [|i] x H; simpl in *;
    try discriminate.
  - inversion H; reflexivity.
  - rewrite IH by exact H. reflexivity.
Qed.

Lemma assign_assign {A : Type} (l : list A) :
  forall (i : nat) (x y : A), assign (assign l i x) i y = assign l i y.
Proof.
  induction l as [|a l IH]; intros [|i] x y; simpl; try reflexivity.
  rewrite IH. reflexivity.
Qed.

Lemma nth_error_assign {A : Type} (l : list A) :
  forall (i j : nat) (x : A),
    nth_error (assign l i x) j
    = if Nat.eqb i j
      then match nth_error l j with Some _ => Some x | None => None end
      else nth_error l j.
Proof.
  induction l as [|a l IH]; intros [|i] [|j] x; simpl; try reflexivity;
    try (destruct (Nat.eqb _ _); reflexivity).
  apply IH.
Qed.

Lemma length_assign {A : Type} (l : list A) :
  forall (i : nat) (x : A), length (assign l i x) = length l.
Proof.
  induction l as [|a l IH]; intros [|i] x; simpl; try reflexivity.
  rewrite IH. reflexivity.
Qed.

Lemma apply_weights_product (weights : dict) :
  forall (context : list (list R)) (i : nat) (x : list R),
    nth_error context i = Some x ->
    apply_weights context i weights
    = Ok (assign context i (weighted x (product weights))).
Proof.
  induction weights as [|[text weight] rest IH]; intros context i x H.
  - cbn [apply_weights product fold_right].
    rewrite weighted_one, assign_same by exact H. reflexivity.
  - cbn [apply_weights]. rewrite (getitem_nth_error _ _ _ H). cbn [bind].
    rewrite (IH _ i (weighted x weight)).
    + rewrite assign_assign, weighted_weighted. reflexivity.
    + rewrite nth_error_assign, Nat.eqb_refl, H. reflexivity.
Qed.

Lemma apply_all_weights_product (all_weights : list dict) :
  forall (context : list (list R)) (i : nat),
    (i + length all_weights <= length context)%nat ->
    exists out,
      apply_all_weights context i all_weights = Ok out
      /\ length out = length context
      /\ forall j x,
           nth_error context j = Some x ->
           nth_error out j
           = Some (if (Nat.leb i j && Nat.ltb j (i + length all_weights))%bool
                   then weighted x (product (nth (j - i) all_weights []))
                   else x).
Proof.
  induction all_weights as [|weights rest IH]; intros context i Hlen.
  - exists context. split; [reflexivity|]. split; [reflexivity|].
    intros j x H. rewrite H. cbn [length].
    replace (Nat.leb i j && Nat.ltb j (i + 0))%bool with false; [reflexivity|].
    symmetry. apply andb_false_iff.
    destruct (Nat.leb i j) eqn:E; [right|left; reflexivity].
    apply Nat.leb_le in E. apply Nat.ltb_ge. lia.
  - cbn [length] in Hlen. cbn [apply_all_weights].
    destruct (nth_error context i) as [xi|] eqn:Hi;
      [|apply nth_error_None in Hi; lia].
    rewrite (apply_weights_product weights context i xi Hi). cbn [bind].
    destruct (IH (assign context i (weighted xi (product weights))) (S i))
      as (out & Hout & Hl & Hnth).
    { rewrite length_assign. lia. }
    exists out. split; [exact Hout|].
    split; [rewrite Hl; apply length_assign|].
    intros j x Hj.
    destruct (Nat.eq_dec i j) as [->|Hne].
    + rewrite Hi in Hj. inversion Hj; subst x.
      rewrite (Hnth j (weighted xi (product weights)))
        by (rewrite nth_error_assign, Nat.eqb_refl, Hi; reflexivity).
      replace (Nat.leb (S j) j) with false
        by (symmetry; apply Nat.leb_gt; lia).
      cbn [andb length].
      replace (Nat.leb j j && Nat.ltb j (j + S (length rest)))%bool with true.
      * rewrite Nat.sub_diag. reflexivity.
      * symmetry. apply andb_true_intro. split;
          [apply Nat.leb_le|apply Nat.ltb_lt]; lia.
    + rewrite (Hnth j x).
      2:{ rewrite nth_error_assign.
          replace (Nat.eqb i j) with false
            by (symmetry; apply Nat.eqb_neq; exact Hne).
          exact Hj. }
      cbn [length].
      destruct (Nat.leb (S i) j) eqn:E1.
      * apply Nat.leb_le in E1.
        replace (Nat.leb i j) with true by (symmetry; apply Nat.leb_le; lia).
        replace (Nat.ltb j (i + S (length rest)))
          with (Nat.ltb j (S i + length rest))
          by (f_equal; lia).
        cbn [andb].
        destruct (Nat.ltb j (S i + length rest)); [|reflexivity].
        replace (j - i)%nat with (S (j - S i)) by lia. reflexivity.
      * apply Nat.leb_gt in E1.
        replace (Nat.leb i j) with false
          by (symmetry; apply Nat.leb_gt; lia).
        reflexivity.
Qed.

Lemma in_turn_product (weights : dict) :
  forall x : list R,
    multiplied_in_turn x weights = weighted x (product weights).
Proof.
  unfold multiplied_in_turn.
  induction weights as [|[text weight] rest IH]; intros x.
  - cbn [fold_left product fold_right]. rewrite weighted_one. reflexivity.
  - cbn [fold_left product fold_right snd]. rewrite IH, weighted_weighted.
    reflexivity.
Qed.

Lemma setitem_spec (d : dict) (key : string) (value : R) :
  NoDup (map fst d) ->
  NoDup (map fst (setitem d key value))
  /\ forall t x,
       In (t, x) (setitem d key value)
       <-> (t = key /\ x = value) \/ (t <> key /\ In (t, x) d).
Proof.
  induction d as [|[k v] rest IH]; intros Hnd.
  - cbn [setitem map]. split; [constructor; [intros []|constructor]|].
    intros t x. split.
    + intros [H|[]]. inversion H; subst. left. auto.
    + intros [[-> ->]|[_ []]]. left. reflexivity.
  - cbn [map fst] in Hnd. inversion Hnd as [|? ? Hnot Hrest]; subst.
    cbn [setitem]. destruct (String.eqb k key) eqn:E.
    + apply String.eqb_eq in E. subst k. split; [exact Hnd|].
      intros t x. split.
      * intros [H|H]; [inversion H; subst; left; auto|].
        right. split; [|right; exact H].
        intros ->. apply Hnot. apply (in_map fst) in H. exact H.
      * intros [[-> ->]|[Hne [H|H]]]; [left; reflexivity| |right; exact H].
        inversion H; subst. contradiction.
    + apply String.eqb_neq in E. destruct (IH Hrest) as [IHnd IHin].
      split.
      * cbn [map fst]. constructor; [|exact IHnd].
        intros Hin. apply in_map_iff in Hin.
        destruct Hin as ([t x] & Ht & Hin). cbn [fst] in Ht. subst t.
        apply IHin in Hin. destruct Hin as [[Hk _]|[_ Hin]];
          [contradiction|].
        apply Hnot. apply (in_map fst) in Hin. exact Hin.
      * intros t x. split.
        -- intros [H|H].
           ++ inversion H; subst. right. split; [exact E|left; reflexivity].
           ++ apply IHin in H. destruct H as [H|[Hne H]]; [left; exact H|].
              right. split; [exact Hne|right; exact H].
        -- intros [H|[Hne [H|H]]].
           ++ right. apply IHin. left. exact H.
           ++ left. exact H.
           ++ right. apply IHin. right. split; assumption.
Qed.

Lemma strip_weights_dict (matches : list (string * string)) :
  forall (cleaned : string) (d0 : dict) (c : string) (d : dict),
    strip_weights env matches cleaned d0 = Ok (c, d) ->
    NoDup (map fst d0) ->
    NoDup (map fst d)
    /\ forall t x,
         In (t, x) d
         <-> (exists w, last_weight matches t = Some w
                        /\ float env w = Some x)
             \/ (last_weight matches t = None /\ In (t, x) d0).
Proof.
  induction matches as [|[t0 w0] rest IH]; intros cleaned d0 c d H Hnd.
  - cbn [strip_weights] in H. inversion H; subst. split; [exact Hnd|].
    intros t x. cbn [last_weight]. split.
    + intros Hin. right. auto.
    + intros [(w & Hw & _)|[_ Hin]]; [discriminate|exact Hin].
  - cbn [strip_weights] in H.
    destruct (float env w0) as [v0|] eqn:Hfloat; [|discriminate].
    destruct (setitem_spec d0 t0 v0 Hnd) as [Hnd' Hin'].
    destruct (IH _ _ _ _ H Hnd') as [Hnd'' Hin''].
    split; [exact Hnd''|].
    intros t x. rewrite Hin''. cbn [last_weight].
    destruct (last_weight rest t) as [w'|] eqn:Hlast.
    + split.
      * intros [H1|[H1 _]]; [left; exact H1|discriminate].
      * intros [H1|[H1 _]]; [left; exact H1|discriminate].
    + rewrite Hin'. destruct (String.eqb t0 t) eqn:E.
      * apply String.eqb_eq in E. subst t0. split.
        -- intros [(w & Hw & _)|[_ [[_ ->]|[Hne _]]]];
             [discriminate| |contradiction].
           left. exists w0. auto.
        -- intros [(w & Hw & Hx)|[H1 _]]; [|discriminate].
           inversion Hw; subst w. rewrite Hfloat in Hx. inversion Hx; subst.
           right. split; [reflexivity|]. left. auto.
      * apply String.eqb_neq in E. split.
        -- intros [(w & Hw & _)|[_ [[-> _]|[_ Hin]]]];
             [discriminate|contradiction|].
           right. auto.
        -- intros [(w & Hw & _)|[_ Hin]]; [discriminate|].
           right. split; [reflexivity|]. right. split; [|exact Hin].
           intros ->. apply E. reflexivity.
Qed.

Lemma mapM_nth {A B : Type} (g : A -> result B) (l : list A) :
  forall (r : list B) (j : nat) (x : A) (y : B),
    mapM g l = Ok r ->
    nth_error l j = Some x -> nth_error r j = Some y ->
    g x = Ok y.
Proof.
  induction l as [|a l IH]; intros r j x y H Hx Hy.
  - destruct j; discriminate Hx.
  - cbn [mapM] in H. destruct (g a) as [b|e] eqn:Ha; [|discriminate].
    cbn [bind] in H. destruct (mapM g l) as [bs|e]; [|discriminate].
    cbn [bind] in H. inversion H; subst r. destruct j as [|j].
    + cbn [nth_error] in Hx, Hy. inversion Hx; inversion Hy; subst.
      exact Ha.
    + cbn [nth_error] in Hx, Hy. exact (IH bs j x y eq_refl Hx Hy).
Qed.

(** X29: a weight is not local to its chunk, and a repeated text keeps only
    its last weight.  When every segment parses and the encoder gives one
    embedding per segment, the call returns one embedding per segment: the
    whole embedding of the segment, multiplied in turn by the weights of the
    segment's dict (in exact arithmetic, by their product).  The dict has one
    entry per distinct weighted text of the segment: [float] of the weight
    that the LAST match with this text carries. *)
Theorem weights_multiply_the_whole_embedding (self : MiniT5Wrapper)
  (prompt : string) (parsed : list (string * dict))
  (context : list (list R)) :
  mapM (parse_prompt_weights env) (segments prompt) = Ok parsed ->
  t5 env (map fst parsed) = Ok context ->
  length context = length parsed ->
  exists out,
    call env self (Str prompt)
    = (Ok out,
       {| times_called := (times_called self + 1)%Z;
          encoded := encoded self ++ [map fst parsed] |})
    /\ length out = length context
    /\ forall j segment embedding cleaned weights,
         nth_error (segments prompt) j = Some segment ->
         nth_error context j = Some embedding ->
         nth_error parsed j = Some (cleaned, weights) ->
         nth_error out j = Some (multiplied_in_turn embedding weights)
         /\ multiplied_in_turn embedding weights
            = weighted embedding (product weights)
         /\ NoDup (map fst weights)
         /\ forall text value,
              In (text, value) weights
              <-> exists w,
                    last_weight (findall_weights segment) text = Some w
                    /\ float env w = Some value.
Proof.
  intros Hparse Ht5 Hlen. unfold call. fold (segments prompt).
  rewrite Hparse, Ht5.
  destruct (apply_all_weights_product (map snd parsed) context 0)
    as (out & Hout & Hl & Hnth).
  { rewrite length_map. lia. }
  rewrite Hout. exists out. split; [reflexivity|]. split; [exact Hl|].
  intros j segment embedding cleaned weights Hseg Hj Hp.
  assert (Hw : nth_error (map snd parsed) j = Some weights).
  { rewrite nth_error_map, Hp. reflexivity. }
  split.
  - rewrite (Hnth j embedding Hj).
    assert (Hlt : (j < length (map snd parsed))%nat)
      by (apply nth_error_Some; rewrite Hw; discriminate).
    replace (Nat.leb 0 j && Nat.ltb j (0 + length (map snd parsed)))%bool
      with true
      by (symmetry; apply andb_true_intro; split;
          [reflexivity|apply Nat.ltb_lt; lia]).
    rewrite Nat.sub_0_r.
    pose proof (nth_error_nth _ _ [] Hw) as Hn.
    rewrite in_turn_product. f_equal. f_equal. f_equal. exact Hn.
  - split; [apply in_turn_product|].
    pose proof (mapM_nth _ _ _ _ _ _ Hparse Hseg Hp) as Hone.
    unfold parse_prompt_weights in Hone.
    destruct (strip_weights_dict _ _ _ _ _ Hone (NoDup_nil _))
      as [Hnd Hin].
    split; [exact Hnd|]. intros text value. rewrite Hin. split.
    + intros [H|[_ []]]. exact H.
    + intros H. left. exact H.
Qed.

Lemma occurs_append (c : ascii) (a b : string) :
  occurs c (a ++ b) = (occurs c a || occurs c b)%bool.
Proof.
  induction a as [|x a IH]; [reflexivity|].
  cbn [append occurs]. rewrite IH, orb_assoc. reflexivity.
Qed.

Lemma occurs_rev_string (c : ascii) (s : string) :
  occurs c (rev_string s) = occurs c s.
Proof.
  induction s as [|x s IH]; [reflexivity|].
  cbn [rev_string occurs]. rewrite occurs_append, IH. cbn [occurs].
  rewrite orb_false_r, orb_comm. reflexivity.
Qed.

Lemma occurs_lstrip (c : ascii) (s : string) :
  occurs c s = false -> occurs c (lstrip s) = false.
Proof.
  induction s as [|x s IH]; [reflexivity|].
  intros H. cbn [lstrip]. destruct (is_space x); [|exact H].
  apply IH. cbn [occurs] in H. apply orb_false_iff in H. apply H.
Qed.

Lemma occurs_strip (c : ascii) (s : string) :
  occurs c s = false -> occurs c (strip s) = false.
Proof.
  intros H. unfold strip. rewrite occurs_rev_string. apply occurs_lstrip.
  rewrite occurs_rev_string. apply occurs_lstrip. exact H.
Qed.

Lemma occurs_split (c sep : ascii) (s : string) :
  occurs c s = false ->
  Forall (fun piece => occurs c piece = false) (split sep s).
Proof.
  induction s as [|x s IH]; intros H.
  - repeat constructor.
  - cbn [occurs] in H. apply orb_false_iff in H. destruct H as [Hx Hs].
    specialize (IH Hs). cbn [split].
    destruct (Ascii.eqb x sep).
    + constructor; [reflexivity|exact IH].
    + destruct (split sep s) as [|h t].
      * constructor; [|constructor]. cbn [occurs]. rewrite Hx. reflexivity.
      * inversion IH; subst. constructor; [|assumption].
        cbn [occurs]. rewrite Hx. assumption.
Qed.

Lemma findall_no_parenthesis (s : string) :
  occurs "(" s = false -> findall_weights s = [].
Proof.
  unfold findall_weights. induction s as [|x s IH]; [reflexivity|].
  intros H. cbn [occurs] in H. apply orb_false_iff in H.
  destruct H as [Hx Hs]. cbn [findall_weights_from weight_match]. rewrite Hx.
  apply IH. exact Hs.
Qed.

Lemma parse_plain_segments (l : list string) :
  Forall (fun piece => occurs "(" piece = false) l ->
  mapM (parse_prompt_weights env) l = Ok (map (fun p => (p, [])) l).
Proof.
  induction 1 as [|p l Hp Hl IH]; [reflexivity|].
  cbn [mapM map]. unfold parse_prompt_weights at 1.
  rewrite (findall_no_parenthesis p Hp). cbn [strip_weights bind].
  rewrite IH. reflexivity.
Qed.

Lemma apply_all_weights_none (n : nat) :
  forall (context : list (list R)) (i : nat),
    apply_all_weights context i (repeat [] n) = Ok context.
Proof.
  induction n as [|n IH]; intros context i; [reflexivity|].
  cbn [repeat apply_all_weights apply_weights bind]. apply IH.
Qed.

(** X30: a prompt without an opening parenthesis carries no weight.  The
    encoder receives its [|]-separated segments, each stripped of
    surrounding white space, and what the encoder returns is handed back
    untouched, however many embeddings that is; the call is counted. *)
Theorem prompt_without_parenthesis_is_passed_through (self : MiniT5Wrapper)
  (prompt : string) (context : list (list R)) :
  occurs "(" prompt = false ->
  t5 env (segments prompt) = Ok context ->
  call env self (Str prompt)
  = (Ok context,
     {| times_called := (times_called self + 1)%Z;
        encoded := encoded self ++ [segments prompt] |}).
Proof.
  intros Hno Ht5. unfold call. fold (segments prompt).
  assert (Hsegs : Forall (fun piece => occurs "(" piece = false)
                         (segments prompt)).
  { unfold segments. apply Forall_map.
    eapply Forall_impl; [|apply occurs_split; exact Hno].
    intros piece. apply occurs_strip. }
  rewrite (parse_plain_segments _ Hsegs). cbv zeta. unfold dict.
  assert (Hfst : map fst (map (fun p : string => (p, @nil (string * R)))
                            (segments prompt)) = segments prompt).
  { rewrite map_map. cbn [fst]. apply map_id. }
  assert (Hsnd : map snd (map (fun p : string => (p, @nil (string * R)))
                            (segments prompt))
                 = repeat [] (length (segments prompt))).
  { rewrite map_map. cbn [snd]. generalize (segments prompt).
    intros l. induction l as [|a l IH]; [reflexivity|].
    cbn [map length repeat]. rewrite IH. reflexivity. }
  rewrite Hfst, Hsnd, Ht5, apply_all_weights_none. reflexivity.
Qed.

End Wrapper.

Lemma prompt_list_must_hold_one_prompt_witness :
  call flat_encoder new_wrapper (PromptList [])
  = (Raise (ValueError
       "MiniT5Wrapper expects a single prompt at a time (wrapped as a list). Got multiple prompts."),
     new_wrapper).
Proof.
  apply (prompt_list_must_hold_one_prompt flat_encoder new_wrapper []).
  discriminate.
Defined.

Lemma weights_multiply_the_whole_embedding_witness :
  exists out,
    call flat_encoder new_wrapper (Str "a (cat:2) on a (cat:3) | sky")
    = (Ok out,
       {| times_called := 1;
          encoded := [["a cat on a cat"; "sky"]%string] |})
    /\ nth_error out 0
       = Some (multiplied_in_turn [1%R; 3%R] [("cat"%string, 3%R)])
    /\ (forall text value,
          In (text, value) [("cat"%string, 3%R)]
          <-> exists w,
                last_weight (findall_weights "a (cat:2) on a (cat:3)") text
                = Some w
                /\ float flat_encoder w = Some value).
Proof.
  destruct (weights_multiply_the_whole_embedding flat_encoder new_wrapper
              "a (cat:2) on a (cat:3) | sky"
              [("a cat on a cat", [("cat", 3%R)]); ("sky", [])]%string
              [[1%R; 3%R]; [1%R; 3%R]] eq_refl eq_refl eq_refl)
    as (out & Hcall & _ & Hnth).
  exists out. split; [exact Hcall|].
  destruct (Hnth 0%nat "a (cat:2) on a (cat:3)"%string [1%R; 3%R]
              "a cat on a cat"%string [("cat"%string, 3%R)]
              eq_refl eq_refl eq_refl) as (H1 & _ & _ & H4).
  split; [exact H1|exact H4].
Defined.

Lemma prompt_without_parenthesis_is_passed_through_witness :
  call flat_encoder new_wrapper (Str " a cat | a dog ")
  = (Ok [[1%R; 3%R]; [1%R; 3%R]],
     {| times_called := 1; encoded := [["a cat"; "a dog"]%string] |}).
Proof.
  exact (prompt_without_parenthesis_is_passed_through flat_encoder
           new_wrapper " a cat | a dog " [[1%R; 3%R]; [1%R; 3%R]]
           eq_refl eq_refl).
Defined.
